(* ===== verification/_CoqProject ===== *)
-Q . S2P
Prelude.v
Registry.v
Digest.v
Chain.v
Merkle.v
MerkleArray.v
Ledger.v
Tally.v
Roster.v
Snapshot.v
LedgerFile.v
Session.v
Gui.v
Render.v
Console.v
Process.v
