(* ===== verification/Prelude.v ===== *)
(** * Verification of the Voting-System (src/avl.c, src/avl.h, src/blockchain.c, src/blockchain.h, src/gui2.c)

    ** The program and how its parts interact

    The program is an SDL front end ([gui2.c]) over four cores:
    - the voter registry, an AVL tree keyed by [strcmp] on the voter
      identifier with a [voted] flag ([avl.c]: [insertVoter],
      [updateVotingStatus], [findVoter]);
    - the ledger, a singly linked chain of blocks each carrying the
      SHA-256 of its predecessor's [toString] bytes, with a stored Merkle
      root ([blockchain.c]: [castVote], [verifyChain], [toString],
      [hashCompare], [addToMerkleTree], [calculateMerkleRoot]);
    - the tally, which checks the recomputed root against the stored
      one and counts the ballots of each roster entry ([countVotes]);
    - the candidate roster file ([addCandidate], [clearAllCandidates],
      [loadCandidatesFromFile], [generateUniqueID]).
    The registry and the ledger are persisted to [voter_data.bin] and
    [blockchain_data.bin] after every change, and reloaded at startup
    ([saveTreeToBinaryFile] / [loadTreeFromBinaryFile],
    [saveBlockchainToFile] / [loadBlockchainFromFile]).  [main] writes a
    30-second expiration time, restores both structures, reads the
    roster, and then runs its event loop: the register screen inserts a
    voter, the cast screen looks the voter up, casts a block and marks
    the voter; at the deadline it calls [countVotes] and exits.

    ** Files, and what each models

    - [Prelude.v] (this file): [strcmp] as glibc computes it, C strings
      and byte buffers, the lemmas on them shared by every file, the
      [vote_scope] notations, the [voting] hint database and the
      [voting_rw] rewrite database.
    - [Registry.v], at its top level: [VoterNode], [AVLTree] and every
      operation of [avl.c] on the tree, [rebalance] being the four
      rotation cases of [insertVoterNode] in the code's order.  Modules
      [Spec] (a sorted association list: [insert], [lookup], [mark]),
      [RegistryRefinement], [Balance], [Search], [Check], [RegistryProps]
      and [RegistryTheorems] hold the refinement and the AVL invariant;
      [RegistryBounds] the logarithmic height bound and the number of
      recursive [findVoter] calls ([findVoter_calls]).  [createVoterNode]
      stores the whole identifier; the C [strcpy] into [char voterID[8]]
      never overflows because the only caller, the register handler,
      cuts the input to 7 characters first.
    - [Digest.v]: the interfaces to the outside: [Class Digest]
      (OpenSSL's [SHA256], known only by its 32-byte output) and
      [Class HeapView] (the memory [strlen] reads past a [toString]
      buffer), with toy instances for the witnesses.  A heap is
      [terminated] when a NUL follows every buffer; all such heaps make
      [strlen] read the same bytes ([hash_input_terminated]), which is
      how the theorems let the memory change between calls.
    - [Chain.v]: [block], [blockchain], [toString] and the bytes the
      chain hash covers ([hash_input]).
    - [Merkle.v]: [calculateMerkleRoot] as its loops (content hashes,
      pairing with the last hash duplicated on odd levels, the outer
      loop) and [addToMerkleTree].
    - [MerkleArray.v]: the same function as the C code runs it, in place
      on the uninitialised 64-entry stack array [temp_tree].
    - [Ledger.v]: [castVote] (block construction, cache push, root
      update), [verifyChain] with its per-link verdicts.
    - [Tally.v] (stdpp): [countVotes] over the 8-entry counter array.
    - [Roster.v]: [candidates.txt] as a string, with [fgets], [strcspn]
      and [strtok] as they behave, the loader, [addCandidate] and
      [generateUniqueID].
    - [Snapshot.v]: the registry file as its [fwrite] records and the
      recursive loader.
    - [LedgerFile.v]: the ledger file byte by byte (8-byte
      little-endian [size_t] lengths, terminated strings, hashes) and
      its loader loop; [initializeBlockchain].
    - [Session.v]: the state [main] keeps (registry, ledger, the two
      files, the message), the Register and Submit branches of the two
      handlers, [startup], and runs with restarts ([step], [live_step]).
    - [Gui.v]: [GUIState] with the static buffers, the four event
      handlers in full (the Register and Submit branches named
      [register_submit] and [cast_submit]), the poll loop,
      [hasTimePassed] and the frame loop of [main]; [destroyAndExit].
    - [Render.v]: what each render function draws, as the list of its
      renderer calls ([renderText], [drawButton], [renderMainMenu],
      [renderRegisterVoter], [renderCastVoteScreen],
      [renderCandidateManagement], [renderVotingEndedScreen], the render
      [switch] of [main]), with the code's rectangles, colours and texts.
    - [Console.v]: what the printing functions write on stdout, as the
      list of their [printf] outputs ([hashPrinter], [printMerkleRoot],
      [displayTree], [displayVoterDataFromBinaryFile],
      [displayCandidates], and the reports of [verifyChain] and
      [countVotes]).
    - [Process.v]: [main] whole: the five SDL acquisitions with their
      early returns and releases (a trace of [sdl_event]s), the write
      of [voting_time.txt] and its failure, the frame loop with what
      each iteration draws ([main_loop_trace]), and the cleanup.

    ** What the theorems show

    - Registry: every tree [insertVoter] builds is AVL-balanced with exact
      heights and sorted; [insertVoter], [updateVoting] and [findVoter]
      refine the sorted-list specification; the height is at most
      2 log2 (n + 1) + 1 for n voters, and a [findVoter] search on a
      registry built by n [insertVoter] calls recurses at most
      2 log2 (n + 1) + 2 times, 64 for any [int] count.
    - Ledger and Merkle: [castVote]'s exact effect and its undefined
      case past 64 blocks; a chain built by [castVote] verifies, also
      in a memory laid out differently from the one it was built in, as
      long as a NUL follows each [toString] buffer; a
      tampered block changes only its two link verdicts; the root detects
      replacement and reordering of blocks unless two of the inputs
      it hashes collide under [SHA256] (a finite, checkable condition), but
      not a duplicated last block; the in-place array loops compute the
      list-level root whatever the array held; the chain hash covers the full
      payload only under conditions on NUL bytes and the heap.
    - Tally: counts are produced only after the root check and equal
      the ballots cast per roster entry, in any NUL-terminated memory
      layout; the spec's example evaluates.
    - Persistence: the ledger file round-trips; the registry snapshot
      does not (the reload is a left spine), which breaks the search
      order, and across a restart a voter can vote twice; the stored
      root is not restored.
    - Front end: one ballot per voter in every run of [main] from a fresh
      install; buffer bounds and the exact overflow of the register
      screen's [strcat]; termination of the poll loop; the tally at the
      first frame past the deadline; a quit before it skips the tally;
      the Candidate ID box never shows the typed text; identifiers of 8
      or more characters never vote.
    - Drawing against hit-testing: every button the main menu, the
      register screen and the cast screen draw takes its handler branch
      when clicked, except the main menu's Exit button, which is dead
      (drawn at y 410..459, tested at y 550..600).
    - Output: [hashPrinter] prints hex that reads back as the hash;
      [verifyChain]'s printed verdicts are the ones it computes, and it
      prints an alteration exactly when it returns 0; the voter dump of
      a snapshot lists the registry's voters in pre-order; the roster
      screen cuts a name at its first comma, the loader does not.
    - Process: every way [main] returns releases the SDL resources it
      acquired, in reverse order; the process has [Gui.main]'s outcome
      and draws the screen after each poll, then the voting-ended
      screen once and last; when [voting_time.txt] cannot be written
      the vote ends at once on a stale file, or never.
    - Roster: the roster file round-trips (names cut to 49 characters,
      empty names dropped, at most 8); loader bounds for every file;
      the format of generated identifiers, whose characters come from
      [charset] and never from the array's terminating NUL.

    ** Bounds and fuel

    Machine constants are the code's: [MAX_MERKLE_TREE_SIZE] = 64,
    [MAX_CANDIDATES] = 8, [char voterID[8]] and [[16]] in the handlers,
    [inputBuffer[50]], [candidateID[32]], [line[256]], [name[50]], and an
    8-byte [size_t].  The [int] fields of the tree and of the tally are
    unbounded integers: heights are at most the tree size and counts at
    most the chain length (64), far inside 32 bits.  Loops that are not
    structural run on fuel, each with a lemma that the fuel given is
    enough: the Merkle reduction takes the chain length (each level
    shortens a level of two or more; the in-place passes take [count]
    as well, each iteration advancing [i] by two), the snapshot loader the file
    length + 1 (each call consumes a record), the ledger loader the file
    length (a record is at least 50 bytes), the roster loader the file
    length + 1 (each [fgets] consumes a character: [load_lines_fuel],
    and so for [displayCandidates]), and the poll loop twice the queue length
    ([poll_events_terminates]).  The recursions of the tree functions are
    structural; their depth is the height plus one, below 64 for any
    [int] count of voters ([findVoter_depth_log] for [findVoter]).  The
    [int] results of [rand()] are any integers, reduced with [Z.modulo],
    which agrees with C's [%] on the non-negative values [rand()]
    returns.

    ** Not modelled

    What SDL does inside its calls (only their success is an input),
    [SDL_Delay], the messages [main] prints, and the glyph metrics of the font
    (a centred label is recorded with its button rectangle); output on
    stderr ([perror]) and the status lines printed inside [castVote],
    the file functions and [addCandidate]; the internals of SHA-256
    (an interface); allocation failures and
    [fopen] failures on writes (assumed to succeed; a missing file on
    reads is modelled); the contents of the [merkle_tree] cache pointers
    (the cache is a list, never read by the code); the code left in
    comments ([alterVote], the second [main]); a failing [fscanf] in
    [hasTimePassed] (a file that holds no number leaves [file_time]
    uninitialised; the model reads the deadline the file holds); bytes
    past a NUL inside an identifier ([strcmp] is modelled on strings
    that hold none, which is all the text the SDL input events carry). *)

From Stdlib Require Import String Ascii List ZArith Lia Sorted Bool.
From Stdlib Require Strings.Byte.
Import ListNotations.

Declare Scope vote_scope.
Delimit Scope vote_scope with vote.
Open Scope vote_scope.

Create HintDb voting discriminated.
Create Rewrite HintDb voting_rw.

(** ** C strings *)

(** [strcmp] as glibc computes it: bytes compared as unsigned chars,
    the shorter string (its NUL terminator) sorting first. *)
Fixpoint strcmp (s t : string) : comparison :=
  match s, t with
  | EmptyString, EmptyString => Eq
  | EmptyString, String _ _ => Lt
  | String _ _, EmptyString => Gt
  | String a s', String b t' =>
      match N.compare (N_of_ascii a) (N_of_ascii b) with
      | Eq => strcmp s' t'
      | c => c
      end
  end.

(** The three tests C code makes on a [strcmp] result. *)
Definition is_lt (c : comparison) : bool := match c with Lt => true | _ => false end.
Definition is_gt (c : comparison) : bool := match c with Gt => true | _ => false end.
Definition is_eq (c : comparison) : bool := match c with Eq => true | _ => false end.

Notation "s <s t" := (strcmp s t = Lt) (at level 70) : vote_scope.

(** The bytes a C string occupies (without its terminator). *)
Definition bytes_of (s : string) : list Byte.byte := list_byte_of_string s.

(** A C string holds no NUL byte. *)
Fixpoint cstr_ok (s : string) : bool :=
  match s with
  | EmptyString => true
  | String a s' => negb (N.eqb (N_of_ascii a) 0) && cstr_ok s'
  end.

(** [strlen] on a byte buffer: the bytes before the first NUL, or the
    whole buffer when it holds none. *)
Fixpoint cstr_prefix (l : list Byte.byte) : list Byte.byte :=
  match l with
  | [] => []
  | b :: l' => if Byte.eqb b Byte.x00 then [] else b :: cstr_prefix l'
  end.

Definition c_strlen (l : list Byte.byte) : nat := length (cstr_prefix l).

(** ** Lemmas on strcmp *)

Lemma strcmp_refl s : strcmp s s = Eq.
Proof. induction s; simpl; [reflexivity|]. now rewrite N.compare_refl. Qed.

Lemma strcmp_eq s t : strcmp s t = Eq -> s = t.
Proof.
  revert t; induction s as [|a s IH]; intros [|b t]; simpl; try discriminate; auto.
  destruct (N.compare (N_of_ascii a) (N_of_ascii b)) eqn:E; try discriminate.
  intros H. apply N.compare_eq in E.
  rewrite <- (ascii_N_embedding a), <- (ascii_N_embedding b), E.
  now rewrite (IH t H).
Qed.

Lemma strcmp_eq_iff s t : strcmp s t = Eq <-> s = t.
Proof. split; [apply strcmp_eq | intros ->; apply strcmp_refl]. Qed.

Lemma strcmp_antisym s t : strcmp t s = CompOpp (strcmp s t).
Proof.
  revert t; induction s as [|a s IH]; intros [|b t]; simpl; auto.
  rewrite (N.compare_antisym (N_of_ascii a) (N_of_ascii b)).
  destruct (N.compare (N_of_ascii a) (N_of_ascii b)); simpl; auto.
Qed.

Lemma strcmp_gt_lt s t : strcmp s t = Gt <-> t <s s.
Proof. rewrite (strcmp_antisym t s). destruct (strcmp t s); simpl; intuition congruence. Qed.

Lemma strcmp_trans s t u : s <s t -> t <s u -> s <s u.
Proof.
  revert t u; induction s as [|a s IH]; intros [|b t] [|c u]; simpl;
    try discriminate; auto.
  destruct (N.compare_spec (N_of_ascii a) (N_of_ascii b)) as [E1|E1|E1];
    try discriminate;
  destruct (N.compare_spec (N_of_ascii b) (N_of_ascii c)) as [E2|E2|E2];
    try discriminate; intros H1 H2;
  destruct (N.compare_spec (N_of_ascii a) (N_of_ascii c)); try lia; eauto.
Qed.

Lemma strcmp_irrefl s : ~ s <s s.
Proof. now rewrite strcmp_refl. Qed.

(** The strict order [<s] is a strict total order on identifiers. *)
#[export] Instance strlt_strict : RelationClasses.StrictOrder (fun s t => s <s t).
Proof. split; [intros s; apply strcmp_irrefl | intros s t u; apply strcmp_trans]. Qed.

#[export] Hint Resolve strcmp_refl strcmp_trans strcmp_irrefl : voting.

(** Case analysis on a comparison of two identifiers, with the equal
    case substituted away. *)
Ltac destruct_strcmp a b :=
  let E := fresh "Ecmp" in
  destruct (strcmp a b) eqn:E;
  [ apply strcmp_eq in E; subst
  | idtac
  | apply strcmp_gt_lt in E ].

(** ** Lemmas on C byte buffers *)

Lemma cstr_prefix_app_nul l r :
  ~ In Byte.x00 l -> cstr_prefix (l ++ Byte.x00 :: r) = l.
Proof.
  induction l as [|b l IH]; simpl; intros H.
  - reflexivity.
  - destruct (Byte.eqb b Byte.x00) eqn:E.
    + apply Byte.byte_dec_bl in E. tauto.
    + rewrite IH; tauto.
Qed.

Lemma cstr_prefix_app_l l r :
  In Byte.x00 l -> cstr_prefix (l ++ r) = cstr_prefix l.
Proof.
  induction l as [|b l IH]; simpl; intros H; [contradiction|].
  destruct (Byte.eqb b Byte.x00) eqn:E; [reflexivity|].
  destruct H as [->|H]; [rewrite (Byte.byte_dec_lb eq_refl) in E; discriminate|].
  now rewrite IH.
Qed.

Lemma cstr_prefix_no_nul l :
  ~ In Byte.x00 l -> forall r, cstr_prefix (l ++ r) = l ++ cstr_prefix r.
Proof.
  induction l as [|b l IH]; simpl; intros H r; [reflexivity|].
  destruct (Byte.eqb b Byte.x00) eqn:E.
  - apply Byte.byte_dec_bl in E. tauto.
  - rewrite IH; tauto.
Qed.

Lemma bytes_of_no_nul s : cstr_ok s = true -> ~ In Byte.x00 (bytes_of s).
Proof.
  induction s as [|a s IH]; simpl; [tauto|].
  intros H. apply andb_prop in H as [H1 H2].
  intros [E|E]; [|exact (IH H2 E)].
  apply negb_true_iff, N.eqb_neq in H1. apply H1.
  pose proof (byte_of_ascii_via_N a) as Hb. rewrite E in Hb.
  simpl in Hb. destruct (N_of_ascii a) as [|p] eqn:En; [reflexivity|].
  exfalso. destruct p; simpl in Hb; try discriminate;
  repeat (destruct p; simpl in Hb; try discriminate).
Qed.

#[export] Hint Resolve bytes_of_no_nul : voting.

Lemma bytes_of_app s t : bytes_of (s ++ t) = bytes_of s ++ bytes_of t.
Proof. unfold bytes_of, list_byte_of_string. induction s; simpl; congruence. Qed.

(** ** Strictly sorted lists *)

Lemma StronglySorted_app_inv {A} (R : A -> A -> Prop) l1 x l2 :
  StronglySorted R (l1 ++ x :: l2) ->
  StronglySorted R l1 /\ StronglySorted R l2 /\
  Forall (fun y => R y x) l1 /\ Forall (R x) l2.
Proof.
  induction l1 as [|a l1 IH]; simpl; intros H.
  - apply StronglySorted_inv in H as [H1 H2]. repeat split; auto using SSorted_nil.
  - apply StronglySorted_inv in H as [H1 H2].
    destruct (IH H1) as (S1 & S2 & F1 & F2).
    apply Forall_app in H2 as [H2 H3]. inversion H3; subst.
    repeat split; auto using SSorted_cons.
Qed.

(** ** Byte buffers compared as [memcmp] does *)

Fixpoint bytes_eqb (l1 l2 : list Byte.byte) : bool :=
  match l1, l2 with
  | [], [] => true
  | a :: l1', b :: l2' => Byte.eqb a b && bytes_eqb l1' l2'
  | _, _ => false
  end.

Lemma bytes_eqb_eq l1 l2 : bytes_eqb l1 l2 = true <-> l1 = l2.
Proof.
  revert l2; induction l1 as [|a l1 IH]; intros [|b l2]; simpl; try (split; congruence).
  rewrite andb_true_iff, IH. split.
  - intros [E ->]. now rewrite (Byte.byte_dec_bl _ _ E).
  - intros [= -> ->]. split; [apply Byte.byte_dec_lb|]; reflexivity.
Qed.

(** ** Induction two elements at a time *)

Lemma list_pair_ind {A} (P : list A -> Prop) :
  P [] -> (forall x, P [x]) -> (forall x y l, P l -> P (x :: y :: l)) -> forall l, P l.
Proof.
  intros H0 H1 H2. fix IH 1.
  intros [|x [|y l]]; [exact H0 | exact (H1 x) | exact (H2 x y l (IH l))].
Qed.

Lemma app_inj_length {A} (a b c d : list A) :
  length a = length c -> a ++ b = c ++ d -> a = c /\ b = d.
Proof.
  revert c; induction a as [|x a IH]; intros [|y c]; simpl; try discriminate; auto.
  intros [= L] [= -> E]. destruct (IH c L E) as [-> ->]. auto.
Qed.

Lemma last_default {A} (a : A) l d d' : last (a :: l) d = last (a :: l) d'.
Proof. revert a; induction l as [|b l IH]; intros a; [reflexivity|]. apply IH. Qed.

Lemma in_split_first (x : Byte.byte) l :
  In x l -> exists p q, l = p ++ x :: q /\ ~ In x p.
Proof.
  induction l as [|a l IH]; simpl; [tauto|]. intros H.
  destruct (Byte.byte_eq_dec a x) as [->|Ne].
  - exists [], l. simpl. auto.
  - destruct H as [E|H]; [contradiction|]. destruct (IH H) as (p & q & -> & Hp).
    exists (a :: p), q. simpl. split; [reflexivity|]. intros [E|E]; auto.
Qed.

(** ** Strings as character sequences *)

Lemma str_app_assoc (a b c : string) : ((a ++ b) ++ c)%string = (a ++ (b ++ c))%string.
Proof. induction a; simpl; congruence. Qed.

Lemma str_app_nil_r (a : string) : (a ++ "")%string = a.
Proof. induction a; simpl; congruence. Qed.

Lemma str_length_app (a b : string) : String.length (a ++ b) = String.length a + String.length b.
Proof. induction a; simpl; congruence. Qed.

Lemma substring_substring m n s :
  substring 0 m (substring 0 n s) = substring 0 (Nat.min m n) s.
Proof.
  revert m n; induction s as [|c s IH]; intros [|m] [|n]; cbn; try reflexivity.
  now rewrite IH.
Qed.

#[export] Hint Rewrite str_app_assoc str_app_nil_r str_length_app : voting_rw.
