(* ===== verification/Registry.v ===== *)
(** * Registry: the AVL tree of voters ([src/avl.c], [src/avl.h])

    [VoterNode] is the C struct, [Leaf] standing for [NULL]; the
    fields [voted] and [height] are C [int]s, kept as [Z].  The
    operations are [insertVoterNode] with its two rotations,
    [updateVotingStatus] and [findVoter].  The abstract specification
    is a strictly sorted association list from voter identifiers to
    voted flags ([Spec]); the refinement theorems show that the tree
    operations act on the in-order traversal as the list operations
    do, and the invariant theorems that insertion keeps the AVL shape
    (stored heights correct, balance factors in [-1, 1]). *)

From Stdlib Require Import String List ZArith Lia Sorted.
From S2P Require Import Prelude.
Import ListNotations.
Local Open Scope bool_scope.
Local Open Scope Z_scope.

(** [struct VoterNode]: voterID, voted, left, right, height. *)
Inductive VoterNode : Type :=
| Leaf : VoterNode
| Node (voterID : string) (voted : Z) (left right : VoterNode) (height : Z).

Record AVLTree : Type := mkAVLTree { root : VoterNode }.

Definition createVoterNode (voterID : string) : VoterNode :=
  Node voterID 0 Leaf Leaf 1.

Definition max (a b : Z) : Z := if a >? b then a else b.

Definition calculateNodeHeight (node : VoterNode) : Z :=
  match node with
  | Leaf => 0
  | Node _ _ _ _ h => h
  end.

(** The rotations dereference the child they lift; the [Leaf] branch
    (a [NULL] dereference in C) returns the node unchanged and is never
    taken by [insertVoterNode] on an AVL tree (see [insert_avl]). *)
Definition performRightRotation (unbalancedNode : VoterNode) : VoterNode :=
  match unbalancedNode with
  | Node k v (Node k' v' a rightSubtree _) r _ =>
      let x := Node k v rightSubtree r
                 (max (calculateNodeHeight rightSubtree) (calculateNodeHeight r) + 1) in
      Node k' v' a x (max (calculateNodeHeight a) (calculateNodeHeight x) + 1)
  | t => t
  end.

Definition performLeftRotation (unbalancedNode : VoterNode) : VoterNode :=
  match unbalancedNode with
  | Node k v l (Node k' v' leftSubtree b _) _ =>
      let x := Node k v l leftSubtree
                 (max (calculateNodeHeight l) (calculateNodeHeight leftSubtree) + 1) in
      Node k' v' x b (max (calculateNodeHeight x) (calculateNodeHeight b) + 1)
  | t => t
  end.

Definition getNodeBalance (node : VoterNode) : Z :=
  match node with
  | Leaf => 0
  | Node _ _ l r _ => calculateNodeHeight l - calculateNodeHeight r
  end.

(** [node->voterID] of a child known to be non-[NULL]. *)
Definition key_of (node : VoterNode) : string :=
  match node with
  | Leaf => EmptyString
  | Node k _ _ _ _ => k
  end.

(** The rebalancing tail of [insertVoterNode] (lines 97-117): the
    height update, then the four rotation cases in the order the code
    tests them. *)
Definition rebalance (voterID : string) (k : string) (v : Z) (l r : VoterNode) : VoterNode :=
  let node := Node k v l r (1 + max (calculateNodeHeight l) (calculateNodeHeight r)) in
  let balance := getNodeBalance node in
  if (balance >? 1) && is_lt (strcmp voterID (key_of l)) then
    performRightRotation node
  else if (balance <? -1) && is_gt (strcmp voterID (key_of r)) then
    performLeftRotation node
  else if (balance >? 1) && is_gt (strcmp voterID (key_of l)) then
    performRightRotation (Node k v (performLeftRotation l) r
                            (1 + max (calculateNodeHeight l) (calculateNodeHeight r)))
  else if (balance <? -1) && is_lt (strcmp voterID (key_of r)) then
    performLeftRotation (Node k v l (performRightRotation r)
                           (1 + max (calculateNodeHeight l) (calculateNodeHeight r)))
  else node.

Fixpoint insertVoterNode (node : VoterNode) (voterID : string) : VoterNode :=
  match node with
  | Leaf => createVoterNode voterID
  | Node k v l r h =>
      match strcmp voterID k with
      | Lt => rebalance voterID k v (insertVoterNode l voterID) r
      | Gt => rebalance voterID k v l (insertVoterNode r voterID)
      | Eq => node
      end
  end.

(** [insertVoter] without the snapshot write, which [Snapshot] models. *)
Definition insertVoter (tree : AVLTree) (voterID : string) : AVLTree :=
  mkAVLTree (insertVoterNode (root tree) voterID).

(** [updateVotingStatus]: returns [-1] (not found), [1] (already voted)
    or [0] (marked now), with the tree after the write. *)
Fixpoint updateVotingStatus (node : VoterNode) (voterID : string) : Z * VoterNode :=
  match node with
  | Leaf => (-1, Leaf)
  | Node k v l r h =>
      match strcmp voterID k with
      | Eq => if v =? 1 then (1, node) else (0, Node k 1 l r h)
      | Lt => let (res, l') := updateVotingStatus l voterID in (res, Node k v l' r h)
      | Gt => let (res, r') := updateVotingStatus r voterID in (res, Node k v l r' h)
      end
  end.

Definition updateVoting (tree : AVLTree) (voterID : string) : Z * AVLTree :=
  let (res, t) := updateVotingStatus (root tree) voterID in (res, mkAVLTree t).

Fixpoint findVoter (node : VoterNode) (voterID : string) : option VoterNode :=
  match node with
  | Leaf => None
  | Node k _ l r _ =>
      match strcmp voterID k with
      | Eq => Some node
      | Lt => findVoter l voterID
      | Gt => findVoter r voterID
      end
  end.

(** The number of [findVoter] activations a search makes: one per
    node on the path, plus the final call on [NULL] when the key is
    absent.  This is the C recursion depth. *)
Fixpoint findVoter_calls (node : VoterNode) (voterID : string) : nat :=
  match node with
  | Leaf => 1%nat
  | Node k _ l r _ =>
      match strcmp voterID k with
      | Eq => 1%nat
      | Lt => S (findVoter_calls l voterID)
      | Gt => S (findVoter_calls r voterID)
      end
  end.

(** [displayVoterStatus]: the in-order sequence of (voterID, voted). *)
Fixpoint displayVoterStatus (root : VoterNode) : list (string * Z) :=
  match root with
  | Leaf => []
  | Node k v l r _ => displayVoterStatus l ++ (k, v) :: displayVoterStatus r
  end.

(** ** Invariants *)

(** Stored heights are [1 + max] of the children and every balance
    factor lies in [-1, 1]. *)
Fixpoint avl (t : VoterNode) : Prop :=
  match t with
  | Leaf => True
  | Node _ _ l r h =>
      avl l /\ avl r /\
      h = 1 + Z.max (calculateNodeHeight l) (calculateNodeHeight r) /\
      -1 <= calculateNodeHeight l - calculateNodeHeight r <= 1
  end.

Fixpoint avlb (t : VoterNode) : bool :=
  match t with
  | Leaf => true
  | Node _ _ l r h =>
      avlb l && avlb r &&
      (h =? 1 + Z.max (calculateNodeHeight l) (calculateNodeHeight r)) &&
      (Z.abs (calculateNodeHeight l - calculateNodeHeight r) <=? 1)
  end.

Definition key_lt (a b : string * Z) : Prop := fst a <s fst b.

(** The in-order traversal is strictly increasing in the keys. *)
Definition bst (t : VoterNode) : Prop := StronglySorted key_lt (displayVoterStatus t).

Fixpoint sortedb (l : list (string * Z)) : bool :=
  match l with
  | [] => true
  | a :: l' => forallb (fun b => is_lt (strcmp (fst a) (fst b))) l' && sortedb l'
  end.


(** ** The abstract registry: a strictly sorted association list *)

Module Spec.

Fixpoint insert (id : string) (l : list (string * Z)) : list (string * Z) :=
  match l with
  | [] => [(id, 0)]
  | (k, v) :: l' =>
      match strcmp id k with
      | Lt => (id, 0) :: l
      | Eq => l
      | Gt => (k, v) :: insert id l'
      end
  end.

Fixpoint lookup (id : string) (l : list (string * Z)) : option Z :=
  match l with
  | [] => None
  | (k, v) :: l' => if is_eq (strcmp id k) then Some v else lookup id l'
  end.

Fixpoint mark (id : string) (l : list (string * Z)) : Z * list (string * Z) :=
  match l with
  | [] => (-1, [])
  | (k, v) :: l' =>
      if is_eq (strcmp id k) then
        (if v =? 1 then (1, l) else (0, (k, 1) :: l'))
      else let (res, l'') := mark id l' in (res, (k, v) :: l'')
  end.

End Spec.

(** ** Refinement of the sorted association list *)

Module RegistryRefinement.

Abbreviation ht := calculateNodeHeight.
Abbreviation inorder := displayVoterStatus.

Lemma max_Zmax a b : max a b = Z.max a b.
Proof. unfold max. destruct (Z.gtb_spec a b); lia. Qed.

Lemma performRightRotation_inorder t :
  inorder (performRightRotation t) = inorder t.
Proof.
  destruct t as [|k v [|k' v' a b h'] r h]; simpl; auto.
  now rewrite <- app_assoc.
Qed.

Lemma performLeftRotation_inorder t :
  inorder (performLeftRotation t) = inorder t.
Proof.
  destruct t as [|k v l [|k' v' a b h'] h]; simpl; auto.
  now rewrite <- app_assoc.
Qed.

#[local] Hint Rewrite performRightRotation_inorder performLeftRotation_inorder : voting_rw.

(** Rebalancing never reorders the keys. *)
Lemma rebalance_inorder id k v l r :
  inorder (rebalance id k v l r) = inorder l ++ (k, v) :: inorder r.
Proof.
  unfold rebalance.
  repeat match goal with |- context [if ?c then _ else _] => destruct c end;
  autorewrite with voting_rw; simpl; autorewrite with voting_rw; reflexivity.
Qed.

Lemma insert_app_lt id k v l1 l2 :
  id <s k -> Spec.insert id (l1 ++ (k, v) :: l2) = Spec.insert id l1 ++ (k, v) :: l2.
Proof.
  intros Hk. induction l1 as [|[k1 v1] l1 IH]; simpl.
  - now rewrite Hk.
  - destruct (strcmp id k1); simpl; congruence.
Qed.

Lemma insert_app_skip id l1 l2 :
  Forall (fun p => fst p <s id) l1 -> Spec.insert id (l1 ++ l2) = l1 ++ Spec.insert id l2.
Proof.
  induction 1 as [|[k1 v1] l1 Hk1 _ IH]; simpl in *; auto.
  apply strcmp_gt_lt in Hk1. now rewrite Hk1, IH.
Qed.

Lemma Forall_key_trans k id (l : list (string * Z)) :
  Forall (fun p => key_lt p (k, 0)) l -> k <s id -> Forall (fun p => fst p <s id) l.
Proof.
  intros H Hk. eapply Forall_impl; [|exact H]. unfold key_lt; simpl; eauto using strcmp_trans.
Qed.

Lemma bst_node k v l r h :
  bst (Node k v l r h) ->
  bst l /\ bst r /\ Forall (fun p => key_lt p (k, 0)) (inorder l) /\
  Forall (key_lt (k, 0)) (inorder r).
Proof.
  unfold bst; simpl. intros H. apply StronglySorted_app_inv in H as (H1 & H2 & H3 & H4).
  repeat split; auto.
Qed.

(** Insertion acts on the in-order sequence as sorted-list insertion. *)
Lemma insertVoterNode_refines t id :
  bst t -> inorder (insertVoterNode t id) = Spec.insert id (inorder t).
Proof.
  induction t as [|k v l IHl r IHr h]; simpl; intros Hb; [reflexivity|].
  destruct (bst_node _ _ _ _ _ Hb) as (Hl & Hr & Fl & Fr).
  destruct_strcmp id k.
  - rewrite insert_app_skip; [simpl; now rewrite strcmp_refl|].
    eapply Forall_impl; [|exact Fl]. now unfold key_lt.
  - rewrite rebalance_inorder, IHl by exact Hl. now rewrite insert_app_lt.
  - rewrite rebalance_inorder, IHr, insert_app_skip by eauto using Forall_key_trans.
    simpl. now rewrite (proj2 (strcmp_gt_lt _ _) Ecmp).
Qed.

Lemma insert_In id l p :
  In p (Spec.insert id l) -> In p l \/ p = (id, 0).
Proof.
  induction l as [|[k v] l IH]; simpl; [intuition|].
  destruct (strcmp id k); simpl; intuition.
Qed.

Lemma insert_sorted id l :
  StronglySorted key_lt l -> StronglySorted key_lt (Spec.insert id l).
Proof.
  induction 1 as [|p l Hs IH Hf]; [repeat constructor|]. destruct p as [k v]; simpl.
  destruct_strcmp id k.
  - now constructor.
  - constructor; [now constructor|]. constructor; [exact Ecmp|].
    eapply Forall_impl; [|exact Hf]. unfold key_lt; simpl; eauto using strcmp_trans.
  - constructor; [exact IH|]. apply Forall_forall. intros p Hp.
    destruct (insert_In _ _ _ Hp) as [Hp' | ->].
    + exact (proj1 (Forall_forall _ _) Hf p Hp').
    + exact Ecmp.
Qed.

End RegistryRefinement.

(** ** The AVL invariant *)

Module Balance.
Import RegistryRefinement.

Lemma avl_ht_nonneg t : avl t -> 0 <= ht t.
Proof.
  induction t as [|k v l IHl r IHr h]; cbn [avl calculateNodeHeight]; [lia|].
  intros (Hl & Hr & -> & _). specialize (IHl Hl). lia.
Qed.

(** The shape of a subtree whose height grew by one: a fresh leaf node,
    or a node whose side on the path of [id] is strictly taller. *)
Definition grown (id : string) (t : VoterNode) : Prop :=
  match t with
  | Leaf => False
  | Node k _ a b _ =>
      (a = Leaf /\ b = Leaf) \/ (id <s k /\ ht a = ht b + 1) \/ (k <s id /\ ht b = ht a + 1)
  end.

Ltac zcond :=
  repeat match goal with
  | |- context [?a >? ?b] => destruct (Z.gtb_spec a b); try lia
  | |- context [?a <? ?b] => destruct (Z.ltb_spec a b); try lia
  end.

Ltac reg_simpl :=
  cbn [rebalance getNodeBalance calculateNodeHeight key_of performRightRotation
       performLeftRotation avl andb is_lt is_gt] in *.

Lemma rebalance_noop id k v l r :
  -1 <= ht l - ht r <= 1 ->
  rebalance id k v l r = Node k v l r (1 + Z.max (ht l) (ht r)).
Proof. intros H. unfold rebalance; reg_simpl. rewrite max_Zmax. zcond; reg_simpl; reflexivity. Qed.

Lemma rebalance_LL id k v k' v' a b h' r :
  avl a -> avl b -> avl r -> id <s k' ->
  ht a = ht r + 1 -> ht b = ht r -> h' = ht r + 2 ->
  avl (rebalance id k v (Node k' v' a b h') r) /\
  ht (rebalance id k v (Node k' v' a b h') r) = ht r + 2.
Proof.
  intros Ha Hb Hr Hc E1 E2 E3. subst h'. unfold rebalance; reg_simpl. rewrite Hc.
  zcond. reg_simpl. rewrite !max_Zmax. repeat split; auto; lia.
Qed.

Lemma rebalance_LR id k v k' v' a kb vb b1 b2 hb h' r :
  avl a -> avl b1 -> avl b2 -> avl r -> k' <s id ->
  hb = 1 + Z.max (ht b1) (ht b2) -> -1 <= ht b1 - ht b2 <= 1 ->
  ht a = ht r -> hb = ht r + 1 -> h' = ht r + 2 ->
  avl (rebalance id k v (Node k' v' a (Node kb vb b1 b2 hb) h') r) /\
  ht (rebalance id k v (Node k' v' a (Node kb vb b1 b2 hb) h') r) = ht r + 2.
Proof.
  intros Ha H1 H2 Hr Hc Eb Bb E1 E2 E3. subst h'. apply strcmp_gt_lt in Hc.
  unfold rebalance; reg_simpl. rewrite Hc. zcond. reg_simpl. rewrite !max_Zmax.
  repeat split; auto; lia.
Qed.

Lemma rebalance_RR id k v l k' v' a b h' :
  avl l -> avl a -> avl b -> k' <s id ->
  ht b = ht l + 1 -> ht a = ht l -> h' = ht l + 2 ->
  avl (rebalance id k v l (Node k' v' a b h')) /\
  ht (rebalance id k v l (Node k' v' a b h')) = ht l + 2.
Proof.
  intros Hl Ha Hb Hc E1 E2 E3. subst h'. apply strcmp_gt_lt in Hc.
  unfold rebalance; reg_simpl. rewrite Hc. zcond. reg_simpl. rewrite !max_Zmax.
  repeat split; auto; lia.
Qed.

Lemma rebalance_RL id k v l k' v' ka va a1 a2 ha b h' :
  avl l -> avl a1 -> avl a2 -> avl b -> id <s k' ->
  ha = 1 + Z.max (ht a1) (ht a2) -> -1 <= ht a1 - ht a2 <= 1 ->
  ht b = ht l -> ha = ht l + 1 -> h' = ht l + 2 ->
  avl (rebalance id k v l (Node k' v' (Node ka va a1 a2 ha) b h')) /\
  ht (rebalance id k v l (Node k' v' (Node ka va a1 a2 ha) b h')) = ht l + 2.
Proof.
  intros Hl H1 H2 Hb Hc Ea Ba E1 E2 E3. subst h'.
  unfold rebalance; reg_simpl. rewrite Hc. zcond. reg_simpl. rewrite !max_Zmax.
  repeat split; auto; lia.
Qed.

Lemma avl_node_inv k v l r h :
  avl (Node k v l r h) ->
  avl l /\ avl r /\ h = 1 + Z.max (ht l) (ht r) /\ -1 <= ht l - ht r <= 1.
Proof. exact (fun H => H). Qed.

(** Rebalancing after an insertion into the left subtree. *)
Lemma rebalance_left_ok id k v l l' r :
  avl l -> avl l' -> avl r -> id <s k -> -1 <= ht l - ht r <= 1 ->
  (ht l' = ht l \/ (ht l' = ht l + 1 /\ grown id l')) ->
  avl (rebalance id k v l' r) /\
  (ht (rebalance id k v l' r) = 1 + Z.max (ht l) (ht r) \/
   (ht (rebalance id k v l' r) = 2 + Z.max (ht l) (ht r) /\ grown id (rebalance id k v l' r))).
Proof.
  intros Hl Hl' Hr Hc Hb Hg.
  pose proof (avl_ht_nonneg _ Hl). pose proof (avl_ht_nonneg _ Hr).
  destruct (Z.le_gt_cases (ht l') (ht r + 1)) as [Hle|Hgt].
  - rewrite rebalance_noop by lia. cbn [avl calculateNodeHeight grown].
    split; [repeat split; auto; lia|].
    destruct (Z.eq_dec (ht l') (ht l + 1)); [|left; lia].
    destruct (Z.eq_dec (ht l) (ht r)); [right; split; [lia|]; right; left; split; [exact Hc|lia]|left; lia].
  - destruct Hg as [E|[E Hg]]; [lia|].
    destruct l' as [|k' v' a b h']; [contradiction|].
    apply avl_node_inv in Hl' as (Ha & Hb' & Eh & Bl').
    pose proof (avl_ht_nonneg _ Ha). pose proof (avl_ht_nonneg _ Hb').
    cbn [calculateNodeHeight] in *.
    destruct Hg as [[-> ->]|[[Hc' Hab]|[Hc' Hab]]]; cbn [calculateNodeHeight] in *; [lia| |].
    + destruct (rebalance_LL id k v k' v' a b h' r) as [A HA]; auto; try lia.
      split; [exact A|left; lia].
    + destruct b as [|kb vb b1 b2 hb]; cbn [calculateNodeHeight] in *; [lia|].
      apply avl_node_inv in Hb' as (Hb1 & Hb2 & Ehb & Bb).
      destruct (rebalance_LR id k v k' v' a kb vb b1 b2 hb h' r) as [A HA]; auto; try lia.
      split; [exact A|left; lia].
Qed.

(** Rebalancing after an insertion into the right subtree. *)
Lemma rebalance_right_ok id k v l r r' :
  avl l -> avl r -> avl r' -> k <s id -> -1 <= ht l - ht r <= 1 ->
  (ht r' = ht r \/ (ht r' = ht r + 1 /\ grown id r')) ->
  avl (rebalance id k v l r') /\
  (ht (rebalance id k v l r') = 1 + Z.max (ht l) (ht r) \/
   (ht (rebalance id k v l r') = 2 + Z.max (ht l) (ht r) /\ grown id (rebalance id k v l r'))).
Proof.
  intros Hl Hr Hr' Hc Hb Hg.
  pose proof (avl_ht_nonneg _ Hl). pose proof (avl_ht_nonneg _ Hr).
  destruct (Z.le_gt_cases (ht r') (ht l + 1)) as [Hle|Hgt].
  - rewrite rebalance_noop by lia. cbn [avl calculateNodeHeight grown].
    split; [repeat split; auto; lia|].
    destruct (Z.eq_dec (ht r') (ht r + 1)); [|left; lia].
    destruct (Z.eq_dec (ht l) (ht r)); [right; split; [lia|]; right; right; split; [exact Hc|lia]|left; lia].
  - destruct Hg as [E|[E Hg]]; [lia|].
    destruct r' as [|k' v' a b h']; [contradiction|].
    apply avl_node_inv in Hr' as (Ha & Hb' & Eh & Br').
    pose proof (avl_ht_nonneg _ Ha). pose proof (avl_ht_nonneg _ Hb').
    cbn [calculateNodeHeight] in *.
    destruct Hg as [[-> ->]|[[Hc' Hab]|[Hc' Hab]]]; cbn [calculateNodeHeight] in *; [lia| |].
    + destruct a as [|ka va a1 a2 ha]; cbn [calculateNodeHeight] in *; [lia|].
      apply avl_node_inv in Ha as (Ha1 & Ha2 & Eha & Ba).
      destruct (rebalance_RL id k v l k' v' ka va a1 a2 ha b h') as [A HA]; auto; try lia.
      split; [exact A|left; lia].
    + destruct (rebalance_RR id k v l k' v' a b h') as [A HA]; auto; try lia.
      split; [exact A|left; lia].
Qed.

Lemma insertVoterNode_grow t id :
  avl t ->
  avl (insertVoterNode t id) /\
  (ht (insertVoterNode t id) = ht t \/
   (ht (insertVoterNode t id) = ht t + 1 /\ grown id (insertVoterNode t id))).
Proof.
  induction t as [|k v l IHl r IHr h]; intros Hav.
  - cbn. split; [repeat split; lia|right; split; [lia|left; auto]].
  - pose proof Hav as (Hl & Hr & Eh & Hb). cbn [insertVoterNode].
    destruct (strcmp id k) eqn:Hc.
    + split; [exact Hav|left; reflexivity].
    + destruct (IHl Hl) as [Hl' Hg].
      destruct (rebalance_left_ok id k v l (insertVoterNode l id) r) as [A [E|[E G]]]; auto.
      * split; [exact A|left; cbn; lia].
      * split; [exact A|right; split; [cbn; lia|exact G]].
    + apply strcmp_gt_lt in Hc. destruct (IHr Hr) as [Hr' Hg].
      destruct (rebalance_right_ok id k v l r (insertVoterNode r id)) as [A [E|[E G]]]; auto.
      * split; [exact A|left; cbn; lia].
      * split; [exact A|right; split; [cbn; lia|exact G]].
Qed.

End Balance.

(** ** Lookup and marking against the sorted list *)

Module Search.
Import RegistryRefinement.

Lemma lookup_app id l1 l2 :
  Spec.lookup id (l1 ++ l2) =
  match Spec.lookup id l1 with Some v => Some v | None => Spec.lookup id l2 end.
Proof. induction l1 as [|[k v] l1 IH]; simpl; [reflexivity|]. now destruct (is_eq (strcmp id k)). Qed.

Lemma lookup_all_lt id l :
  Forall (fun p => fst p <s id) l -> Spec.lookup id l = None.
Proof.
  induction 1 as [|[k v] l Hk _ IH]; simpl in *; [reflexivity|].
  apply strcmp_gt_lt in Hk. now rewrite Hk.
Qed.

Lemma lookup_all_gt id l :
  Forall (fun p => id <s fst p) l -> Spec.lookup id l = None.
Proof. induction 1 as [|[k v] l Hk _ IH]; simpl in *; [reflexivity|]. now rewrite Hk. Qed.

Lemma Forall_key_gt_trans id k (l : list (string * Z)) :
  Forall (key_lt (k, 0)) l -> id <s k -> Forall (fun p => id <s fst p) l.
Proof.
  intros H Hk. eapply Forall_impl; [|exact H]. unfold key_lt; simpl; eauto using strcmp_trans.
Qed.

#[local] Hint Resolve Forall_key_trans Forall_key_gt_trans : voting.

Lemma mark_absent id l : Spec.lookup id l = None -> Spec.mark id l = (-1, l).
Proof.
  induction l as [|[k v] l IH]; simpl; [reflexivity|].
  destruct (is_eq (strcmp id k)); [discriminate|]. intros H. now rewrite IH.
Qed.

Lemma mark_app_r id l1 l2 :
  Spec.lookup id l1 = None ->
  Spec.mark id (l1 ++ l2) = (fst (Spec.mark id l2), l1 ++ snd (Spec.mark id l2)).
Proof.
  induction l1 as [|[k v] l1 IH]; simpl; intros H.
  - now destruct (Spec.mark id l2).
  - destruct (is_eq (strcmp id k)); [discriminate|]. rewrite IH by exact H. reflexivity.
Qed.

Lemma mark_app_l id l1 l2 :
  Spec.lookup id l2 = None ->
  Spec.mark id (l1 ++ l2) = (fst (Spec.mark id l1), snd (Spec.mark id l1) ++ l2).
Proof.
  intros H2. induction l1 as [|[k v] l1 IH]; simpl.
  - now rewrite mark_absent.
  - destruct (is_eq (strcmp id k)); [now destruct (v =? 1)|].
    rewrite IH. now destruct (Spec.mark id l1).
Qed.

Lemma updateVotingStatus_refines t id :
  bst t ->
  let (res, t') := updateVotingStatus t id in (res, inorder t') = Spec.mark id (inorder t).
Proof.
  induction t as [|k v l IHl r IHr h]; simpl; intros Hb; [reflexivity|].
  destruct (bst_node _ _ _ _ _ Hb) as (Hl & Hr & Fl & Fr).
  destruct_strcmp id k.
  - rewrite mark_app_r by (apply lookup_all_lt; eapply Forall_impl; [|exact Fl]; now unfold key_lt).
    simpl. rewrite strcmp_refl. simpl. destruct (v =? 1); reflexivity.
  - specialize (IHl Hl). destruct (updateVotingStatus l id) as [res l'].
    rewrite mark_app_l by (simpl; rewrite Ecmp; simpl; eauto using lookup_all_gt with voting).
    rewrite <- IHl. reflexivity.
  - specialize (IHr Hr). destruct (updateVotingStatus r id) as [res r'].
    rewrite mark_app_r by eauto using lookup_all_lt with voting.
    simpl. rewrite (proj2 (strcmp_gt_lt _ _) Ecmp). simpl. rewrite <- IHr. reflexivity.
Qed.

Lemma findVoter_refines t id :
  bst t ->
  match findVoter t id with
  | Some (Node k v _ _ _) => k = id /\ Spec.lookup id (inorder t) = Some v
  | _ => Spec.lookup id (inorder t) = None
  end.
Proof.
  induction t as [|k v l IHl r IHr h]; simpl; intros Hb; [reflexivity|].
  destruct (bst_node _ _ _ _ _ Hb) as (Hl & Hr & Fl & Fr).
  destruct_strcmp id k.
  - rewrite lookup_app, lookup_all_lt by (eapply Forall_impl; [|exact Fl]; now unfold key_lt).
    simpl. now rewrite strcmp_refl.
  - specialize (IHl Hl). rewrite lookup_app.
    destruct (findVoter l id) as [[|k' v' a b h']|];
      try (destruct IHl as [-> E]; rewrite E; auto);
      rewrite IHl; simpl; rewrite Ecmp; simpl; eauto using lookup_all_gt with voting.
  - specialize (IHr Hr).
    rewrite lookup_app, lookup_all_lt by eauto with voting. simpl.
    rewrite (proj2 (strcmp_gt_lt _ _) Ecmp). exact IHr.
Qed.

(** Marking rewrites one [voted] field: shape and heights are kept. *)
Lemma updateVotingStatus_avl t id : avl t -> avl (snd (updateVotingStatus t id)).
Proof.
  assert (Hh : forall t, ht (snd (updateVotingStatus t id)) = ht t).
  { intros [|k v l r h]; simpl; [reflexivity|].
    destruct (strcmp id k); [destruct (v =? 1)| destruct (updateVotingStatus l id) | destruct (updateVotingStatus r id)]; reflexivity. }
  induction t as [|k v l IHl r IHr h]; simpl; [tauto|].
  intros (Hl & Hr & E & B).
  destruct (strcmp id k); [destruct (v =? 1); simpl; tauto| |].
  - specialize (Hh l). destruct (updateVotingStatus l id) as [res l'] eqn:El; simpl in *.
    rewrite Hh. specialize (IHl Hl). tauto.
  - specialize (Hh r). destruct (updateVotingStatus r id) as [res r'] eqn:Er; simpl in *.
    rewrite Hh. specialize (IHr Hr). tauto.
Qed.

End Search.

(** ** Decision procedures for the invariants *)

Module Check.

Lemma avlb_spec t : avlb t = true -> avl t.
Proof.
  induction t as [|k v l IHl r IHr h]; cbn [avlb avl]; [tauto|].
  rewrite !Bool.andb_true_iff, Z.eqb_eq, Z.leb_le. intros [[[Hl Hr] E] B].
  repeat split; auto; lia.
Qed.

Lemma sortedb_spec l : sortedb l = true -> StronglySorted key_lt l.
Proof.
  induction l as [|a l IH]; simpl; [constructor|].
  rewrite Bool.andb_true_iff, forallb_forall. intros [F S].
  constructor; [auto|]. apply Forall_forall. intros b Hb. specialize (F b Hb).
  unfold key_lt. destruct (strcmp (fst a) (fst b)); simpl in F; congruence.
Qed.

Lemma bstb_spec t : sortedb (displayVoterStatus t) = true -> bst t.
Proof. apply sortedb_spec. Qed.

End Check.

(** ** Properties of the registry *)

Module RegistryProps.
Import RegistryRefinement Balance Search Check.

Lemma insertVoterNode_avl_bst t id :
  avl t -> bst t -> avl (insertVoterNode t id) /\ bst (insertVoterNode t id).
Proof.
  intros Ha Hb. split; [exact (proj1 (insertVoterNode_grow t id Ha))|].
  unfold bst. rewrite insertVoterNode_refines by exact Hb. now apply insert_sorted.
Qed.

Lemma mark_found id l v :
  Spec.lookup id l = Some v -> v <> 1 ->
  fst (Spec.mark id l) = 0 /\ Spec.lookup id (snd (Spec.mark id l)) = Some 1.
Proof.
  induction l as [|[k w] l IH]; simpl; [discriminate|].
  destruct (strcmp id k) eqn:E; simpl.
  - intros [= ->] Hv. destruct (Z.eqb_spec v 1); [contradiction|]. simpl. now rewrite E.
  - intros H Hv. destruct (IH H Hv) as [A B]. destruct (Spec.mark id l); simpl in *. now rewrite E.
  - intros H Hv. destruct (IH H Hv) as [A B]. destruct (Spec.mark id l); simpl in *. now rewrite E.
Qed.

Lemma mark_In id l p : In p (snd (Spec.mark id l)) -> exists v, In (fst p, v) l.
Proof.
  induction l as [|[k w] l IH]; simpl; [tauto|].
  destruct (is_eq (strcmp id k)).
  - destruct (w =? 1); simpl; intros [<-|H]; eauto; destruct p; eauto.
  - destruct (Spec.mark id l) as [res l'] eqn:E; simpl in *.
    intros [<-|H]; [eauto|]. destruct (IH H) as [v' Hv]; eauto.
Qed.

Lemma mark_sorted id l :
  StronglySorted key_lt l -> StronglySorted key_lt (snd (Spec.mark id l)).
Proof.
  induction 1 as [|[k w] l Hs IH Hf]; simpl; [constructor|].
  destruct (is_eq (strcmp id k)).
  - destruct (w =? 1); simpl; constructor; auto.
  - destruct (Spec.mark id l) as [res l'] eqn:E; simpl in *. constructor; [exact IH|].
    apply Forall_forall. intros p Hp. destruct (mark_In id l p) as [v Hv]; [now rewrite E|].
    exact (proj1 (Forall_forall _ _) Hf _ Hv).
Qed.

Lemma updateVotingStatus_already t id :
  bst t -> Spec.lookup id (displayVoterStatus t) = Some 1 -> updateVotingStatus t id = (1, t).
Proof.
  induction t as [|k v l IHl r IHr h]; simpl; intros Hb; [discriminate|].
  destruct (bst_node _ _ _ _ _ Hb) as (Hl & Hr & Fl & Fr).
  rewrite lookup_app.
  destruct_strcmp id k.
  - rewrite lookup_all_lt by (eapply Forall_impl; [|exact Fl]; now unfold key_lt).
    simpl. rewrite strcmp_refl. simpl. intros [= ->]. reflexivity.
  - destruct (Spec.lookup id (displayVoterStatus l)) eqn:E.
    + intros [= ->]. now rewrite IHl.
    + simpl. rewrite Ecmp. simpl. rewrite lookup_all_gt by eauto using Forall_key_gt_trans.
      discriminate.
  - rewrite lookup_all_lt by eauto using Forall_key_trans.
    simpl. rewrite (proj2 (strcmp_gt_lt _ _) Ecmp). simpl. intros H. now rewrite IHr.
Qed.

Lemma rebalance_balanced id k v l r :
  avl (Node k v l r (1 + Z.max (ht l) (ht r))) ->
  rebalance id k v l r = Node k v l r (1 + Z.max (ht l) (ht r)).
Proof. intros (_ & _ & _ & B). now apply rebalance_noop. Qed.

Lemma fold_insertVoter_avl_bst ids T :
  avl (root T) -> bst (root T) ->
  avl (root (fold_left insertVoter ids T)) /\ bst (root (fold_left insertVoter ids T)).
Proof.
  revert T. induction ids as [|id ids IH]; simpl; intros T Ha Hb; [tauto|].
  destruct (insertVoterNode_avl_bst _ id Ha Hb). now apply IH.
Qed.

End RegistryProps.

Module RegistryTheorems.
Import RegistryRefinement Balance Search Check RegistryProps.

Definition empty_registry : AVLTree := mkAVLTree Leaf.

Definition sample_registry : AVLTree :=
  fold_left insertVoter ["V2"; "V1"; "V3"]%string empty_registry.

(** (C1) Every registry built by [insertVoter] calls from the empty
    tree is an AVL tree (stored heights exact, balance factors in
    [-1, 1]) whose in-order traversal is strictly increasing. *)
Theorem registry_built_invariant (ids : list string) :
  avl (root (fold_left insertVoter ids empty_registry)) /\
  bst (root (fold_left insertVoter ids empty_registry)).
Proof. apply fold_insertVoter_avl_bst; [exact I|constructor]. Qed.

(** (C2) [insertVoter] preserves the registry invariant. *)
Theorem insertVoter_invariant (T : AVLTree) (id : string) :
  avl (root T) -> bst (root T) ->
  avl (root (insertVoter T id)) /\ bst (root (insertVoter T id)).
Proof. intros Ha Hb. now apply insertVoterNode_avl_bst. Qed.

Lemma insertVoter_invariant_witness :
  avl (root sample_registry) /\ bst (root sample_registry) /\
  avl (root (insertVoter sample_registry "V0")) /\ bst (root (insertVoter sample_registry "V0")).
Proof.
  assert (Ha : avl (root sample_registry)) by (apply avlb_spec; vm_compute; reflexivity).
  assert (Hb : bst (root sample_registry)) by (apply bstb_spec; vm_compute; reflexivity).
  split; [exact Ha|split; [exact Hb|]]. exact (insertVoter_invariant sample_registry "V0" Ha Hb).
Defined.

(** (C3) Refinement: on a search tree, [insertVoter] acts on the
    in-order sequence of (voterID, voted) as insertion into a sorted
    association list: a new identifier enters with voted = 0 at its
    place, an existing one leaves the sequence (and its flag) unchanged. *)
Theorem insertVoter_refines (T : AVLTree) (id : string) :
  bst (root T) ->
  displayVoterStatus (root (insertVoter T id)) = Spec.insert id (displayVoterStatus (root T)).
Proof. intros Hb. exact (insertVoterNode_refines _ id Hb). Qed.

Lemma insertVoter_refines_witness :
  bst (root sample_registry) /\
  displayVoterStatus (root (insertVoter sample_registry "V0")) =
  Spec.insert "V0" (displayVoterStatus (root sample_registry)).
Proof.
  assert (Hb : bst (root sample_registry)) by (apply bstb_spec; vm_compute; reflexivity).
  split; [exact Hb|]. exact (insertVoter_refines sample_registry "V0" Hb).
Defined.

(** (C15) Refinement: on an AVL search tree, [updateVoting] returns the
    code of the abstract [mark] (-1 not found, 1 already voted, 0 marked
    now), changes the in-order sequence as [mark] does, and keeps the
    AVL shape. *)
Theorem updateVoting_refines (T : AVLTree) (id : string) :
  avl (root T) -> bst (root T) ->
  (fst (updateVoting T id), displayVoterStatus (root (snd (updateVoting T id)))) =
    Spec.mark id (displayVoterStatus (root T)) /\
  avl (root (snd (updateVoting T id))).
Proof.
  intros Ha Hb. unfold updateVoting.
  pose proof (updateVotingStatus_refines (root T) id Hb) as R.
  pose proof (updateVotingStatus_avl (root T) id Ha) as A.
  destruct (updateVotingStatus (root T) id) as [res t']. simpl in *. now split.
Qed.

Lemma updateVoting_refines_witness :
  avl (root sample_registry) /\ bst (root sample_registry) /\
  fst (updateVoting sample_registry "V3") = 0.
Proof.
  assert (Ha : avl (root sample_registry)) by (apply avlb_spec; vm_compute; reflexivity).
  assert (Hb : bst (root sample_registry)) by (apply bstb_spec; vm_compute; reflexivity).
  pose proof (updateVoting_refines sample_registry "V3" Ha Hb) as [R _].
  split; [exact Ha|split; [exact Hb|]].
  pose proof (f_equal fst R) as R1. cbn [fst] in R1. rewrite R1. vm_compute. reflexivity.
Defined.

(** Marking is idempotent in effect, not in result: on a voter
    registered with voted = 0 the first [updateVoting] returns 0
    (MarkedNow), and a second call returns 1 (AlreadyVoted) and leaves
    the tree unchanged. *)
Theorem updateVoting_once (T : AVLTree) (id : string) :
  bst (root T) -> Spec.lookup id (displayVoterStatus (root T)) = Some 0 ->
  fst (updateVoting T id) = 0 /\
  updateVoting (snd (updateVoting T id)) id = (1, snd (updateVoting T id)).
Proof.
  intros Hb Hl. unfold updateVoting.
  pose proof (updateVotingStatus_refines (root T) id Hb) as R.
  destruct (mark_found id _ 0 Hl ltac:(discriminate)) as [A B].
  pose proof (mark_sorted id _ Hb) as S.
  destruct (updateVotingStatus (root T) id) as [res t'] eqn:E. simpl.
  rewrite <- R in A, B, S. simpl in A, B, S.
  rewrite (updateVotingStatus_already t' id S B). now split.
Qed.

Lemma updateVoting_once_witness :
  bst (root sample_registry) /\
  Spec.lookup "V1" (displayVoterStatus (root sample_registry)) = Some 0 /\
  fst (updateVoting sample_registry "V1") = 0.
Proof.
  assert (Hb : bst (root sample_registry)) by (apply bstb_spec; vm_compute; reflexivity).
  assert (Hl : Spec.lookup "V1" (displayVoterStatus (root sample_registry)) = Some 0)
    by (vm_compute; reflexivity).
  split; [exact Hb|split; [exact Hl|]]. exact (proj1 (updateVoting_once _ _ Hb Hl)).
Defined.
End RegistryTheorems.

(** ** Height bound *)

Module RegistryBounds.
Import RegistryRefinement Balance Check RegistryProps.

(** The number of voters the tree holds, as the C [int]s count. *)
Definition size (t : VoterNode) : Z := Z.of_nat (length (displayVoterStatus t)).

Lemma size_node k v l r h : size (Node k v l r h) = size l + size r + 1.
Proof. unfold size. cbn [displayVoterStatus]. rewrite length_app. cbn [length]. lia. Qed.

(** An AVL tree of height [h] holds at least [2 ^ (h / 2) - 1] voters:
    the lower child of a node is at most two levels below the node. *)
Lemma avl_size_bound t : avl t -> 2 ^ (ht t / 2) <= size t + 1.
Proof.
  induction t as [|k v l IHl r IHr h]; [cbn; lia|].
  intros A. destruct (avl_node_inv _ _ _ _ _ A) as (Al & Ar & Eh & B).
  specialize (IHl Al). specialize (IHr Ar).
  pose proof (avl_ht_nonneg l Al). pose proof (avl_ht_nonneg r Ar).
  rewrite size_node. cbn [calculateNodeHeight]. subst h.
  set (m := Z.min (ht l) (ht r)).
  assert (Pm : forall x, m <= x -> 2 ^ (m / 2) <= 2 ^ (x / 2)).
  { intros x Hx. apply Z.pow_le_mono_r; [lia|]. apply Z.div_le_mono; lia. }
  assert (Hm : 0 <= m / 2) by (apply Z.div_pos; lia).
  assert (Hh : (1 + Z.max (ht l) (ht r)) / 2 <= m / 2 + 1).
  { replace (m / 2 + 1) with ((m + 2) / 2) by (rewrite <- (Z.div_add m 1 2) by lia; f_equal; lia).
    apply Z.div_le_mono; lia. }
  pose proof (Pm (ht l) ltac:(lia)). pose proof (Pm (ht r) ltac:(lia)).
  assert (2 ^ ((1 + Z.max (ht l) (ht r)) / 2) <= 2 ^ (m / 2 + 1)).
  { apply Z.pow_le_mono_r; [lia|]. exact Hh. }
  rewrite Z.pow_add_r, Z.pow_1_r in * by lia. lia.
Qed.

(** An AVL tree of [n] voters has height at most [2 * log2 (n + 1) + 1]. *)
Lemma registry_height_log (t : VoterNode) :
  avl t -> calculateNodeHeight t <= 2 * Z.log2 (size t + 1) + 1.
Proof.
  intros A. pose proof (avl_size_bound _ A) as B.
  pose proof (avl_ht_nonneg _ A) as N.
  assert (L : ht t / 2 <= Z.log2 (size t + 1)).
  { rewrite <- (Z.log2_pow2 (ht t / 2)) by (apply Z.div_pos; lia).
    now apply Z.log2_le_mono. }
  pose proof (Z.mul_div_le (ht t) 2 ltac:(lia)).
  pose proof (Z.mod_pos_bound (ht t) 2 ltac:(lia)).
  pose proof (Z.div_mod (ht t) 2 ltac:(lia)). lia.
Qed.

(** A search makes at most one call per level, plus one on [NULL]. *)
Lemma findVoter_calls_height t id : avl t -> Z.of_nat (findVoter_calls t id) <= ht t + 1.
Proof.
  induction t as [|k v l IHl r IHr h]; [cbn; lia|].
  intros A. destruct (avl_node_inv _ _ _ _ _ A) as (Al & Ar & Eh & _).
  specialize (IHl Al). specialize (IHr Ar). cbn [findVoter_calls calculateNodeHeight].
  subst h. destruct (strcmp id k); rewrite ?Nat2Z.inj_succ; lia.
Qed.

Lemma length_insert id l : (length (Spec.insert id l) <= S (length l))%nat.
Proof.
  induction l as [|[k v] l IH]; cbn [Spec.insert length]; [lia|].
  destruct (strcmp id k); cbn [length]; lia.
Qed.

(** Each [insertVoter] adds at most one voter. *)
Lemma fold_insertVoter_size ids T :
  avl (root T) -> bst (root T) ->
  size (root (fold_left insertVoter ids T)) <= Z.of_nat (length ids) + size (root T).
Proof.
  revert T. induction ids as [|id ids IH]; cbn [fold_left length]; intros T Ha Hb; [lia|].
  destruct (insertVoterNode_avl_bst _ id Ha Hb) as [Ha' Hb'].
  specialize (IH (insertVoter T id) Ha' Hb').
  assert (size (root (insertVoter T id)) <= size (root T) + 1).
  { unfold size. simpl. rewrite (insertVoterNode_refines _ id Hb). pose proof (length_insert id (inorder (root T))). lia. }
  lia.
Qed.

(** (C14) [findVoter] on a registry built by [insertVoter] calls makes
    a number of recursive calls logarithmic in the number of
    registrations: at most [2 * log2 (n + 1) + 2] for [n] calls of
    [insertVoter], hence at most 64 for any [n] an [int] can count. *)
Theorem findVoter_depth_log (ids : list string) (id : string) :
  Z.of_nat (findVoter_calls (root (fold_left insertVoter ids RegistryTheorems.empty_registry)) id)
    <= 2 * Z.log2 (Z.of_nat (length ids) + 1) + 2 /\
  (Z.of_nat (length ids) < 2 ^ 31 ->
   Z.of_nat (findVoter_calls (root (fold_left insertVoter ids RegistryTheorems.empty_registry)) id) <= 64).
Proof.
  set (t := root (fold_left insertVoter ids RegistryTheorems.empty_registry)).
  destruct (fold_insertVoter_avl_bst ids RegistryTheorems.empty_registry I (SSorted_nil _)) as [A _].
  pose proof (fold_insertVoter_size ids RegistryTheorems.empty_registry I (SSorted_nil _)) as S.
  fold t in A, S. change (size (root RegistryTheorems.empty_registry)) with 0 in S.
  assert (L : Z.log2 (size t + 1) <= Z.log2 (Z.of_nat (length ids) + 1)) by (apply Z.log2_le_mono; lia).
  pose proof (findVoter_calls_height t id A). pose proof (registry_height_log t A).
  assert (B : Z.of_nat (findVoter_calls t id) <= 2 * Z.log2 (Z.of_nat (length ids) + 1) + 2) by lia.
  split; [exact B|]. intros H31.
  assert (Z.log2 (Z.of_nat (length ids) + 1) <= 31).
  { rewrite <- (Z.log2_pow2 31) by lia. apply Z.log2_le_mono. lia. }
  lia.
Qed.

Lemma findVoter_depth_log_witness :
  Z.of_nat (length ["V2"; "V1"; "V3"]%string) < 2 ^ 31 /\
  Z.of_nat (findVoter_calls (root (fold_left insertVoter ["V2"; "V1"; "V3"]%string RegistryTheorems.empty_registry)) "V0") <= 64.
Proof.
  split; [cbn; lia|].
  exact (proj2 (findVoter_depth_log ["V2"; "V1"; "V3"]%string "V0") ltac:(cbn; lia)).
Defined.

End RegistryBounds.
