(* ===== verification/Digest.v ===== *)
(** * The digest and the memory a C-string read runs into

    [Digest] is the interface the ledger code uses from OpenSSL:
    [SHA256(data, len, out)] writes a 32-byte digest.  The development
    never assumes anything of the function beyond its output length, so
    every theorem holds for SHA-256 and for any other 32-byte digest.

    [HeapView] describes what a [strlen] on a heap buffer reads past the
    buffer's end: [toString] (src/blockchain.c) allocates exactly
    [len] bytes with no room for a terminator and the callers hash
    [strlen(buffer)] bytes, so the bytes hashed depend on the memory
    after the allocation whenever the buffer itself holds no NUL.  One
    [HeapView] is one memory layout, giving the bytes after a buffer
    from its contents.  The layout may differ between the run that
    casts the votes and the one that verifies or counts them: the
    theorems that span both take two [HeapView]s, each [terminated]
    ([Chain.v]: a NUL follows every buffer), and no property of the
    layout beyond that.

    The [Toy] module gives concrete instances, used only to evaluate
    the witnesses. *)

From Stdlib Require Import List ZArith Lia.
From Stdlib Require Strings.Byte.
From S2P Require Import Prelude.
Import ListNotations.

Definition SHA256_DIGEST_LENGTH : nat := 32.

Class Digest : Type := {
  SHA256 : list Byte.byte -> list Byte.byte;
  SHA256_length : forall m, length (SHA256 m) = SHA256_DIGEST_LENGTH
}.

Class HeapView : Type := {
  beyond : list Byte.byte -> list Byte.byte
}.

(** [memcmp(h1, h2, SHA256_DIGEST_LENGTH) == 0]. *)
Definition hashCompare (h1 h2 : list Byte.byte) : bool :=
  bytes_eqb (firstn SHA256_DIGEST_LENGTH h1) (firstn SHA256_DIGEST_LENGTH h2).

Lemma hashCompare_true h1 h2 :
  length h1 = SHA256_DIGEST_LENGTH -> length h2 = SHA256_DIGEST_LENGTH ->
  hashCompare h1 h2 = true <-> h1 = h2.
Proof.
  intros L1 L2. unfold hashCompare.
  rewrite <- L1 at 1. rewrite <- L2. rewrite !firstn_all.
  apply bytes_eqb_eq.
Qed.

Lemma hashCompare_refl h : hashCompare h h = true.
Proof.
  unfold hashCompare. now apply bytes_eqb_eq.
Qed.

#[export] Hint Resolve hashCompare_refl : voting.

Module Toy.
Local Open Scope Z_scope.

Definition byte_of_Z (z : Z) : Byte.byte :=
  match Byte.of_N (Z.to_N (z mod 256)) with Some b => b | None => Byte.x00 end.

Definition mix (m : list Byte.byte) (i : nat) : Byte.byte :=
  byte_of_Z (fold_left (fun acc b => (acc * 31 + Z.of_N (Byte.to_N b) + Z.of_nat i) mod 65521)
               m (Z.of_nat (i + length m)%nat)).

(** A 32-byte checksum standing in for SHA-256 in the witnesses. *)
#[export] Instance toy_digest : Digest.
Proof.
  refine {| SHA256 := fun m => map (mix m) (seq 0 32)%nat |}.
  intros m. now rewrite length_map, length_seq.
Defined.

(** The allocator pads every buffer with a NUL byte. *)
#[export] Instance nul_padded_heap : HeapView := {| beyond := fun _ => [Byte.x00] |}.

End Toy.
