(* ===== verification/Chain.v ===== *)
(** * Blocks and the bytes the ledger hashes ([src/blockchain.h], [toString])

    A [block] keeps the two C strings and the 32-byte [prevhash]; the
    [next] pointers are the order of the list [chain] (head first).  The
    [blockchain] record keeps the chain, the stored Merkle root, the
    content-hash cache [merkle_tree] and its counter.

    [toString] builds the buffer [voterID ++ candID ++ prevhash] of
    exactly that length; [hash_input] is what [SHA256(buf, strlen(buf))]
    reads of it: the bytes before the first NUL of the buffer followed by
    the memory past it ([HeapView]).  In a [terminated] heap it is the
    buffer up to its first NUL, whatever else the heap holds
    ([hash_input_terminated]). *)

From Stdlib Require Import String List ZArith Lia.
From Stdlib Require Strings.Byte.
From S2P Require Import Prelude Digest.
Import ListNotations.

Definition hash := list Byte.byte.

Definition MAX_MERKLE_TREE_SIZE : nat := 64.

Record block : Type := mkBlock {
  voterID : string;
  candID : string;
  prevhash : hash
}.

Record blockchain : Type := mkBlockchain {
  chain : list block;
  merkle_root : hash;
  merkle_tree : list hash;
  merkle_count : Z
}.

(** [toString]: [strcpy], [strcat], then [memcpy] of the 32 hash bytes. *)
Definition toString (b : block) : list Byte.byte :=
  bytes_of (voterID b) ++ bytes_of (candID b) ++ prevhash b.

Section Hashing.
Context `{HeapView}.

(** The bytes [strlen(buf)] covers when [buf] is a [toString] buffer. *)
Definition hash_input (buf : list Byte.byte) : list Byte.byte :=
  cstr_prefix (buf ++ beyond buf).

End Hashing.

(** The memory after every [toString] buffer starts with a NUL (or is
    not read at all): then [strlen] never reads past the allocation. *)
Definition terminated (HV : HeapView) : Prop := forall buf, cstr_prefix (@beyond HV buf) = [].

(** The prefix a C string read of [toString b] stops at, when the
    stored hash holds a NUL: the rest of the hash is never read. *)
Lemma hash_input_nul `{HeapView} b p q :
  cstr_ok (voterID b) = true -> cstr_ok (candID b) = true ->
  prevhash b = p ++ Byte.x00 :: q -> ~ In Byte.x00 p ->
  hash_input (toString b) = bytes_of (voterID b) ++ bytes_of (candID b) ++ p.
Proof.
  intros Hv Hc Hp Hn. unfold hash_input, toString. rewrite Hp, <- !app_assoc.
  rewrite !cstr_prefix_no_nul by auto using bytes_of_no_nul.
  rewrite <- app_comm_cons. change (cstr_prefix (Byte.x00 :: ?r)) with (@nil Byte.byte).
  now rewrite !app_nil_r.
Qed.

(** (C22) The chain hash reads exactly [voterID ++ candID ++ prevhash]
    (what the design promises) only when the stored hash holds no NUL
    byte and the memory right after the [toString] buffer starts with
    one; otherwise [strlen] stops inside the hash or reads past the
    allocation. *)
Theorem hash_input_exact `{HeapView} (b : block) :
  cstr_ok (voterID b) = true -> cstr_ok (candID b) = true ->
  (hash_input (toString b) = toString b <->
   ~ In Byte.x00 (prevhash b) /\ cstr_prefix (beyond (toString b)) = []).
Proof.
  intros Hv Hc. destruct (in_dec Byte.byte_eq_dec Byte.x00 (prevhash b)) as [Hn|Hn].
  - destruct (in_split_first _ _ Hn) as (p & q & Ep & Hp).
    rewrite (hash_input_nul b p q Hv Hc Ep Hp). unfold toString. rewrite Ep.
    split; [|intros [C _]; exfalso; apply C, in_or_app; right; left; reflexivity].
    intros E. apply (f_equal (@length _)) in E.
    rewrite !length_app in E. simpl in E. lia.
  - assert (Hb : ~ In Byte.x00 (toString b)).
    { unfold toString. rewrite !in_app_iff. pose proof (bytes_of_no_nul _ Hv).
      pose proof (bytes_of_no_nul _ Hc). tauto. }
    unfold hash_input. rewrite (cstr_prefix_no_nul _ Hb). split.
    + intros E. split; [exact Hn|]. apply (app_inv_head (toString b)).
      now rewrite app_nil_r.
    + intros [_ ->]. apply app_nil_r.
Qed.

(** When nothing past the buffer is read, the hashed bytes are those of
    the buffer up to its first NUL, whatever the allocation: two
    terminated heaps hash the same bytes. *)
Lemma hash_input_terminated (HV : HeapView) (buf : list Byte.byte) :
  terminated HV -> @hash_input HV buf = cstr_prefix buf.
Proof.
  intros T. unfold hash_input. destruct (in_dec Byte.byte_eq_dec Byte.x00 buf) as [I|I].
  - now apply cstr_prefix_app_l.
  - rewrite (cstr_prefix_no_nul _ I), T, app_nil_r.
    rewrite <- (app_nil_r buf) at 2. rewrite (cstr_prefix_no_nul _ I). now rewrite app_nil_r.
Qed.

Lemma hash_input_heaps (HV1 HV2 : HeapView) :
  terminated HV1 -> terminated HV2 -> forall buf, @hash_input HV1 buf = @hash_input HV2 buf.
Proof. intros T1 T2 buf. now rewrite !hash_input_terminated. Qed.
