(* ===== verification/Merkle.v ===== *)
(** * Merkle accumulator ([calculateMerkleRoot], [addToMerkleTree] in
    src/blockchain.c)

    [contentHash] is the per-block digest of the first loop;
    [merkle_level] is one pass of the inner loop (pairs left to right,
    the last hash paired with itself when the count is odd);
    [merkle_reduce] is the outer [while (count > 1)] loop, with fuel.
    [calculateMerkleRoot] returns [None] where the C function has
    undefined behaviour: an empty chain (it returns the uninitialised
    [temp_tree[0]]) and more than [MAX_MERKLE_TREE_SIZE] blocks (it
    writes past the 64-entry stack array [temp_tree]). *)

From Stdlib Require Import String List ZArith Lia Arith.
From Stdlib Require Strings.Byte.
From S2P Require Import Prelude Digest Chain.
Import ListNotations.

Section Merkle.
Context `{Digest} `{HeapView}.

Definition contentHash (b : block) : hash := SHA256 (hash_input (toString b)).

Fixpoint merkle_level (l : list hash) : list hash :=
  match l with
  | [] => []
  | [h] => [SHA256 (h ++ h)]
  | h1 :: h2 :: t => SHA256 (h1 ++ h2) :: merkle_level t
  end.

Fixpoint merkle_reduce (fuel : nat) (l : list hash) : list hash :=
  match fuel with
  | O => l
  | S fuel' => if Nat.ltb 1 (length l) then merkle_reduce fuel' (merkle_level l) else l
  end.

Definition calculateMerkleRoot (c : list block) : option hash :=
  if Nat.ltb MAX_MERKLE_TREE_SIZE (length c) then None
  else match merkle_reduce (length c) (map contentHash c) with
       | [r] => Some r
       | _ => None
       end.

(** [addToMerkleTree]: the cache takes the new block's hash while it
    has room, and is left as it is (a message is printed) once full. *)
Definition addToMerkleTree (bc : blockchain) (newHash : hash) : blockchain :=
  if (Z.of_nat MAX_MERKLE_TREE_SIZE <=? merkle_count bc)%Z then bc
  else mkBlockchain (chain bc) (merkle_root bc) (merkle_tree bc ++ [newHash])
                    (merkle_count bc + 1)%Z.

(** The inputs [calculateMerkleRoot] passes to [SHA256]: the bytes of
    each block in the leaf loop, then the concatenated pairs of every
    level the outer loop builds. *)
Fixpoint level_inputs (l : list hash) : list (list Byte.byte) :=
  match l with
  | [] => []
  | [h] => [h ++ h]
  | h1 :: h2 :: t => (h1 ++ h2) :: level_inputs t
  end.

Fixpoint reduce_inputs (fuel : nat) (l : list hash) : list (list Byte.byte) :=
  match fuel with
  | O => []
  | S fuel' => if Nat.ltb 1 (length l) then level_inputs l ++ reduce_inputs fuel' (merkle_level l) else []
  end.

Definition merkle_inputs (c : list block) : list (list Byte.byte) :=
  map (fun b => hash_input (toString b)) c ++ reduce_inputs (length c) (map contentHash c).

End Merkle.

Section MerkleFacts.
Context `{Digest} `{HeapView}.

(** No two of the inputs in [xs], one from each list, collide: the
    digest is injective on the inputs that are actually hashed. *)
Definition distinct_digests (xs ys : list (list Byte.byte)) : Prop :=
  forall x y, In x xs -> In y ys -> SHA256 x = SHA256 y -> x = y.

Definition coll_free_on (xs : list (list Byte.byte)) : Prop := distinct_digests xs xs.

Definition digest_sized (l : list hash) : Prop :=
  Forall (fun h => length h = SHA256_DIGEST_LENGTH) l.

Lemma merkle_level_length l : length (merkle_level l) = (length l + 1) / 2.
Proof.
  induction l using list_pair_ind; cbn [merkle_level length]; auto.
  rewrite IHl. replace (S (S (length l)) + 1) with ((length l + 1) + 1 * 2) by lia.
  rewrite Nat.div_add by lia. lia.
Qed.

Lemma merkle_level_shorter l : 1 < length l -> length (merkle_level l) < length l.
Proof.
  rewrite merkle_level_length. intros H1.
  apply Nat.Div0.div_lt_upper_bound. lia.
Qed.

Lemma merkle_level_sized l : digest_sized (merkle_level l).
Proof.
  induction l using list_pair_ind; simpl; constructor; auto using SHA256_length.
Qed.

Lemma merkle_reduce_small fuel l : length l <= 1 -> merkle_reduce fuel l = l.
Proof.
  destruct fuel; simpl; [reflexivity|]. intros Hl.
  destruct (Nat.ltb_spec 1 (length l)); [lia|reflexivity].
Qed.

(** Termination of the outer loop: with as much fuel as hashes, the
    loop ends on exactly one hash. *)
Lemma merkle_reduce_single fuel l :
  length l <= fuel -> l <> [] -> length (merkle_reduce fuel l) = 1.
Proof.
  revert l; induction fuel as [|fuel IH]; intros l Hf Hn; simpl.
  - destruct l; [contradiction|simpl in Hf; lia].
  - destruct (Nat.ltb_spec 1 (length l)).
    + apply IH.
      * pose proof (merkle_level_shorter l ltac:(lia)). lia.
      * intros E. apply (f_equal (@length _)) in E. rewrite merkle_level_length in E.
        cbn [length] in E. apply Nat.div_small_iff in E; lia.
    + destruct l; [contradiction|simpl in *; lia].
Qed.

(** More fuel than hashes does not change the result. *)
Lemma merkle_reduce_fuel f1 f2 l :
  length l <= f1 -> length l <= f2 -> merkle_reduce f1 l = merkle_reduce f2 l.
Proof.
  revert f2 l; induction f1 as [|f1 IH]; intros f2 l H1 H2.
  - rewrite merkle_reduce_small by lia. rewrite merkle_reduce_small by lia. reflexivity.
  - destruct f2 as [|f2]; [rewrite !merkle_reduce_small by lia; reflexivity|]. simpl.
    destruct (Nat.ltb_spec 1 (length l)); [|reflexivity].
    pose proof (merkle_level_shorter l ltac:(lia)). apply IH; lia.
Qed.

Lemma merkle_reduce_step fuel l :
  1 < length l -> merkle_reduce (S fuel) l = merkle_reduce fuel (merkle_level l).
Proof. intros Hl. cbn [merkle_reduce]. now destruct (Nat.ltb_spec 1 (length l)); [|lia]. Qed.

Lemma merkle_reduce_sized fuel l : digest_sized l -> digest_sized (merkle_reduce fuel l).
Proof.
  revert l; induction fuel; intros l Hl; simpl; auto.
  destruct (Nat.ltb 1 (length l)); auto using merkle_level_sized.
Qed.

Lemma contentHash_sized c : digest_sized (map contentHash c).
Proof. apply Forall_forall. intros h Hh. apply in_map_iff in Hh as (b & <- & _). apply SHA256_length. Qed.

(** Pairing a duplicated last hash is what the odd rule already does. *)
Lemma merkle_level_dup l x :
  Nat.even (length l) = true -> merkle_level (l ++ [x; x]) = merkle_level (l ++ [x]).
Proof.
  induction l using list_pair_ind; simpl; try discriminate; auto.
  intros E. now rewrite IHl.
Qed.

(** The hypothesis of the binding theorems, decided on a finite list. *)
Definition coll_freeb (xs : list (list Byte.byte)) : bool :=
  let hs := map (fun x => (x, SHA256 x)) xs in
  forallb (fun p => forallb (fun q => orb (negb (bytes_eqb (snd p) (snd q))) (bytes_eqb (fst p) (fst q))) hs) hs.

Lemma coll_freeb_spec xs : coll_freeb xs = true -> coll_free_on xs.
Proof.
  unfold coll_freeb. rewrite forallb_forall. intros F x y Hx Hy E.
  specialize (F (x, SHA256 x) (in_map (fun x => (x, SHA256 x)) _ _ Hx)). rewrite forallb_forall in F.
  specialize (F (y, SHA256 y) (in_map (fun x => (x, SHA256 x)) _ _ Hy)). cbn [fst snd] in F.
  rewrite (proj2 (bytes_eqb_eq _ _) E) in F. now apply bytes_eqb_eq.
Qed.

Lemma distinct_digests_app_l xs1 xs2 ys : distinct_digests (xs1 ++ xs2) ys -> distinct_digests xs1 ys.
Proof. intros D x y Hx Hy. apply D; auto using in_or_app. Qed.

Lemma distinct_digests_app_r xs ys1 ys2 : distinct_digests xs (ys1 ++ ys2) -> distinct_digests xs ys1.
Proof. intros D x y Hx Hy. apply D; auto using in_or_app. Qed.

Lemma distinct_digests_app_l2 xs1 xs2 ys : distinct_digests (xs1 ++ xs2) ys -> distinct_digests xs2 ys.
Proof. intros D x y Hx Hy. apply D; auto using in_or_app. Qed.

Lemma distinct_digests_app_r2 xs ys1 ys2 : distinct_digests xs (ys1 ++ ys2) -> distinct_digests xs ys2.
Proof. intros D x y Hx Hy. apply D; auto using in_or_app. Qed.

Lemma coll_free_on_cross xs ys : coll_free_on (xs ++ ys) -> distinct_digests xs ys.
Proof. intros D x y Hx Hy. apply D; auto using in_or_app. Qed.

(** One level: equal outputs of equally long sized levels mean equal
    levels, unless two of the pairs hashed at that level collide. *)
Lemma merkle_level_inj l1 l2 :
  length l1 = length l2 -> digest_sized l1 -> digest_sized l2 ->
  distinct_digests (level_inputs l1) (level_inputs l2) ->
  merkle_level l1 = merkle_level l2 -> l1 = l2.
Proof.
  revert l2. induction l1 as [|a|a b l1 IH] using list_pair_ind;
    intros [|a' [|b' l2]] L S1 S2 D E; simpl in *; try discriminate; auto.
  - injection E as E. inversion S1 as [|? ? Ha _]; inversion S2 as [|? ? Ha' _].
    apply D in E; [|now left|now left].
    destruct (app_inj_length a a a' a' (eq_trans Ha (eq_sym Ha')) E) as [-> _]. reflexivity.
  - injection E as E E'. inversion S1 as [|? ? Ha S1']; inversion S1' as [|? ? Hb S1''].
    inversion S2 as [|? ? Ha' S2']; inversion S2' as [|? ? Hb' S2'']. subst.
    apply D in E as Q; [|now left|now left].
    destruct (app_inj_length a b a' b' ltac:(congruence) Q) as [-> ->].
    rewrite (IH l2 ltac:(lia) S1'' S2'' ltac:(intros x y Hx Hy; apply D; now right) E'). reflexivity.
Qed.

Lemma merkle_reduce_inj fuel l1 l2 :
  length l1 = length l2 -> digest_sized l1 -> digest_sized l2 ->
  distinct_digests (reduce_inputs fuel l1) (reduce_inputs fuel l2) ->
  merkle_reduce fuel l1 = merkle_reduce fuel l2 -> l1 = l2.
Proof.
  revert l1 l2; induction fuel as [|fuel IH]; intros l1 l2 L S1 S2 D E;
    cbn [merkle_reduce reduce_inputs] in D, E; [exact E|].
  rewrite <- L in D, E. destruct (Nat.ltb 1 (length l1)); [|exact E].
  assert (L' : length (merkle_level l1) = length (merkle_level l2))
    by (rewrite !merkle_level_length; congruence).
  apply merkle_level_inj; auto.
  - exact (distinct_digests_app_r _ _ _ (distinct_digests_app_l _ _ _ D)).
  - apply (IH _ _ L' (merkle_level_sized _) (merkle_level_sized _)); [|exact E].
    exact (distinct_digests_app_r2 _ _ _ (distinct_digests_app_l2 _ _ _ D)).
Qed.

(** Equal digests of two lists of inputs, pointwise, mean equal inputs
    when no two of them collide. *)
Lemma map_SHA256_inj (f : block -> list Byte.byte) c1 c2 :
  distinct_digests (map f c1) (map f c2) ->
  map (fun b => SHA256 (f b)) c1 = map (fun b => SHA256 (f b)) c2 -> map f c1 = map f c2.
Proof.
  revert c2; induction c1 as [|b1 c1 IH]; intros [|b2 c2] D E; simpl in *; try discriminate; auto.
  injection E as E E'. rewrite (D _ _ (or_introl eq_refl) (or_introl eq_refl) E).
  rewrite (IH c2 (fun x y Hx Hy => D x y (or_intror Hx) (or_intror Hy)) E'). reflexivity.
Qed.

End MerkleFacts.

(** The block digests, hence the root, read the heap only through
    [hash_input]: two heaps on which it agrees give the same root. *)
Section MerkleHeaps.
Context {D : Digest} (HV1 HV2 : HeapView).
Hypothesis same_reads : forall buf, @hash_input HV1 buf = @hash_input HV2 buf.

Lemma contentHash_heaps b : @contentHash D HV1 b = @contentHash D HV2 b.
Proof. unfold contentHash. now rewrite same_reads. Qed.

Lemma calculateMerkleRoot_heaps c : @calculateMerkleRoot D HV1 c = @calculateMerkleRoot D HV2 c.
Proof. unfold calculateMerkleRoot. now rewrite (map_ext _ _ contentHash_heaps). Qed.

End MerkleHeaps.

Section MerkleTheorems.
Context `{Digest} `{HeapView}.

Lemma length_map_contentHash c : length (map contentHash c) = length c.
Proof. apply length_map. Qed.

(** Equal roots of equally long ledgers mean that every block hashes
    the same bytes, unless two of the inputs the two computations hash
    collide. *)
Lemma root_binding c1 c2 r :
  length c1 = length c2 -> distinct_digests (merkle_inputs c1) (merkle_inputs c2) ->
  calculateMerkleRoot c1 = Some r -> calculateMerkleRoot c2 = Some r ->
  map (fun b => hash_input (toString b)) c1 = map (fun b => hash_input (toString b)) c2.
Proof.
  unfold calculateMerkleRoot, merkle_inputs. intros L D. rewrite <- L in *.
  destruct (Nat.ltb MAX_MERKLE_TREE_SIZE (length c1)); [discriminate|].
  destruct (merkle_reduce (length c1) (map contentHash c1)) as [|x [|]] eqn:E1; try discriminate.
  destruct (merkle_reduce (length c1) (map contentHash c2)) as [|y [|]] eqn:E2; try discriminate.
  intros [= ->] [= ->]. rewrite <- E2 in E1.
  apply merkle_reduce_inj in E1; auto using contentHash_sized;
    [| now rewrite !length_map | exact (distinct_digests_app_r2 _ _ _ (distinct_digests_app_l2 _ _ _ D))].
  apply map_SHA256_inj; [exact (distinct_digests_app_r _ _ _ (distinct_digests_app_l _ _ _ D))|exact E1].
Qed.

(** The root is defined exactly on ledgers of 1 to 64 blocks (none for
    an empty chain, where the C code returns the uninitialised
    [temp_tree[0]], nor past 64, where it overflows [temp_tree]), and a
    defined root is a 32-byte digest. *)
Lemma calculateMerkleRoot_domain (c : list block) :
  (calculateMerkleRoot c = None <-> length c = 0 \/ MAX_MERKLE_TREE_SIZE < length c) /\
  (forall r, calculateMerkleRoot c = Some r -> length r = SHA256_DIGEST_LENGTH).
Proof.
  unfold calculateMerkleRoot.
  destruct (Nat.ltb_spec MAX_MERKLE_TREE_SIZE (length c)) as [Hc|Hc].
  { split; [split; auto|discriminate]. }
  pose proof (merkle_reduce_sized (length c) _ (contentHash_sized c)) as S.
  destruct c as [|b c'].
  - split; [split; auto|discriminate].
  - pose proof (merkle_reduce_single (length (b :: c')) (map contentHash (b :: c'))
                  ltac:(now rewrite length_map) ltac:(discriminate)) as L1.
    destruct (merkle_reduce _ _) as [|x [|]]; try (simpl in L1; lia).
    inversion S; subst. split; [split; [discriminate|simpl in *; lia]|].
    now intros r [= <-].
Qed.

(** (C19) Tamper evidence of the root: replacing one block of a ledger
    by another keeps the root only if both blocks hash the same bytes,
    or two of the inputs the two root computations pass to [SHA256]
    (the block bytes and the pairs of every level) collide. *)
Theorem merkle_root_tamper (pre post : list block) (b b' : block) (r : hash) :
  coll_free_on (merkle_inputs (pre ++ b :: post) ++ merkle_inputs (pre ++ b' :: post)) ->
  calculateMerkleRoot (pre ++ b :: post) = Some r ->
  calculateMerkleRoot (pre ++ b' :: post) = Some r ->
  hash_input (toString b) = hash_input (toString b').
Proof.
  intros D E1 E2.
  assert (L : length (pre ++ b :: post) = length (pre ++ b' :: post))
    by (rewrite !length_app; reflexivity).
  pose proof (root_binding _ _ r L (coll_free_on_cross _ _ D) E1 E2) as M.
  rewrite !map_app in M. apply app_inv_head in M. now injection M.
Qed.

(** Order sensitivity: swapping two adjacent blocks keeps the root only
    if both hash the same bytes, or two of the inputs hashed collide. *)
Theorem merkle_root_order (pre post : list block) (b1 b2 : block) (r : hash) :
  coll_free_on (merkle_inputs (pre ++ b1 :: b2 :: post) ++ merkle_inputs (pre ++ b2 :: b1 :: post)) ->
  calculateMerkleRoot (pre ++ b1 :: b2 :: post) = Some r ->
  calculateMerkleRoot (pre ++ b2 :: b1 :: post) = Some r ->
  hash_input (toString b1) = hash_input (toString b2).
Proof.
  intros D E1 E2.
  assert (L : length (pre ++ b1 :: b2 :: post) = length (pre ++ b2 :: b1 :: post))
    by (rewrite !length_app; reflexivity).
  pose proof (root_binding _ _ r L (coll_free_on_cross _ _ D) E1 E2) as M.
  rewrite !map_app in M. apply app_inv_head in M. now injection M.
Qed.

(** The odd-count rule makes the root blind to a repeated last block:
    a ledger of odd length at least 3 and the same ledger with its last
    block appended once more have the same root. *)
Lemma merkle_root_duplicate_last (c0 : list block) (b : block) :
  Nat.even (length c0) = true -> 2 <= length c0 -> length c0 + 2 <= MAX_MERKLE_TREE_SIZE ->
  calculateMerkleRoot (c0 ++ [b; b]) = calculateMerkleRoot (c0 ++ [b]).
Proof.
  intros Ev L2 L64. unfold calculateMerkleRoot. rewrite !length_app. cbn [length].
  destruct (Nat.ltb_spec MAX_MERKLE_TREE_SIZE (length c0 + 2)); [lia|].
  destruct (Nat.ltb_spec MAX_MERKLE_TREE_SIZE (length c0 + 1)); [lia|].
  rewrite !map_app. cbn [map].
  replace (length c0 + 2) with (S (S (length c0))) by lia.
  replace (length c0 + 1) with (S (length c0)) by lia.
  rewrite (merkle_reduce_step (S (length c0)) (map contentHash c0 ++ [contentHash b; contentHash b]))
    by (rewrite length_app, length_map; cbn [length]; lia).
  rewrite (merkle_reduce_step (length c0) (map contentHash c0 ++ [contentHash b]))
    by (rewrite length_app, length_map; cbn [length]; lia).
  rewrite merkle_level_dup by now rewrite length_map.
  rewrite (merkle_reduce_fuel (S (length c0)) (length c0)); [reflexivity| |];
    rewrite merkle_level_length, length_app, length_map; cbn [length];
    apply Nat.Div0.div_le_upper_bound; lia.
Qed.

End MerkleTheorems.

Module MerkleWitnesses.
Import Toy.
Local Open Scope string_scope.

Definition blk1 : block := mkBlock "V1" "C1" (SHA256 []).
Definition blk2 : block := mkBlock "V2" "C2" (SHA256 (hash_input (toString blk1))).
Definition blk3 : block := mkBlock "V3" "C1" (SHA256 (hash_input (toString blk2))).

Definition root_of (c : list block) : hash :=
  match calculateMerkleRoot c with Some r => r | None => [] end.

(** Two blocks that differ only after the NUL their stored hash
    starts with hash the same bytes, and the two ledgers have one root. *)
Definition blk2n : block := mkBlock "V2" "C2" (Byte.x00 :: repeat Byte.x01 31).
Definition blk2m : block := mkBlock "V2" "C2" (Byte.x00 :: repeat Byte.x02 31).

Lemma merkle_root_tamper_witness :
  coll_free_on (merkle_inputs ([blk1] ++ blk2n :: [blk3]) ++ merkle_inputs ([blk1] ++ blk2m :: [blk3])) /\
  calculateMerkleRoot ([blk1] ++ blk2n :: [blk3]) = Some (root_of [blk1; blk2n; blk3]) /\
  calculateMerkleRoot ([blk1] ++ blk2m :: [blk3]) = Some (root_of [blk1; blk2n; blk3]) /\
  hash_input (toString blk2n) = hash_input (toString blk2m).
Proof.
  assert (D : coll_free_on (merkle_inputs ([blk1] ++ blk2n :: [blk3]) ++ merkle_inputs ([blk1] ++ blk2m :: [blk3])))
    by (apply coll_freeb_spec; vm_compute; reflexivity).
  assert (E1 : calculateMerkleRoot ([blk1] ++ blk2n :: [blk3]) = Some (root_of [blk1; blk2n; blk3]))
    by (vm_compute; reflexivity).
  assert (E2 : calculateMerkleRoot ([blk1] ++ blk2m :: [blk3]) = Some (root_of [blk1; blk2n; blk3]))
    by (vm_compute; reflexivity).
  split; [exact D|split; [exact E1|split; [exact E2|exact (merkle_root_tamper [blk1] [blk3] _ _ _ D E1 E2)]]].
Defined.

Lemma merkle_root_order_witness :
  coll_free_on (merkle_inputs ([blk1] ++ blk2 :: blk2 :: []) ++ merkle_inputs ([blk1] ++ blk2 :: blk2 :: [])) /\
  calculateMerkleRoot ([blk1] ++ blk2 :: blk2 :: []) = Some (root_of [blk1; blk2; blk2]) /\
  hash_input (toString blk2) = hash_input (toString blk2).
Proof.
  assert (D : coll_free_on (merkle_inputs ([blk1] ++ blk2 :: blk2 :: []) ++ merkle_inputs ([blk1] ++ blk2 :: blk2 :: [])))
    by (apply coll_freeb_spec; vm_compute; reflexivity).
  assert (E : calculateMerkleRoot ([blk1] ++ blk2 :: blk2 :: []) = Some (root_of [blk1; blk2; blk2]))
    by (vm_compute; reflexivity).
  split; [exact D|split; [exact E|exact (merkle_root_order [blk1] [] _ _ _ D E E)]].
Defined.

Lemma merkle_root_duplicate_last_witness :
  calculateMerkleRoot ([blk1; blk2] ++ [blk3; blk3]) = calculateMerkleRoot ([blk1; blk2] ++ [blk3]) /\
  calculateMerkleRoot [blk1; blk2; blk3] <> None.
Proof.
  split.
  - apply merkle_root_duplicate_last; vm_compute; [reflexivity | lia | lia].
  - vm_compute. discriminate.
Defined.

End MerkleWitnesses.
