(* ===== verification/MerkleArray.v ===== *)
(** * [calculateMerkleRoot] as the C code runs it, in place on [temp_tree]

    [Merkle.v] states the root over lists, one [merkle_level] per pass.
    The C function (src/blockchain.c) works on the stack array
    [unsigned char temp_tree[64][32]]: the first loop writes the
    content hashes at indices [0 .. count-1]; each pass of the outer
    loop reads [temp_tree[i]] and [temp_tree[i+1]] and writes the pair's
    digest at [temp_tree[j]], with [j = i / 2], over entries already
    read; the root is [temp_tree[0]].  Here the array is a list of 64
    hashes (its initial contents arbitrary: the array is not
    initialised) updated by index, each loop a [Fixpoint] with fuel
    (the counts bound the iterations).  [calculateMerkleRoot_inplace] is
    [None] where the C code is undefined: a 65th write into the array,
    or the uninitialised [temp_tree[0]] of an empty chain.

    The theorem [calculateMerkleRoot_inplace_equiv] shows that the
    in-place loops compute the list-level [calculateMerkleRoot] for
    every chain and every initial array contents. *)

From Stdlib Require Import String List ZArith Lia Arith.
From Stdlib Require Strings.Byte.
From S2P Require Import Prelude Digest Chain Merkle.
Import ListNotations.

(** [memcpy(temp_tree[j], ..., 32)] for an index inside the array. *)
Definition array_set (a : list hash) (j : nat) (v : hash) : list hash :=
  firstn j a ++ v :: skipn (S j) a.

Section InPlace.
Context `{Digest} `{HeapView}.

(** The first [while (current != NULL)] loop. *)
Fixpoint fill_leaves (c : list block) (tree : list hash) (count : nat) : option (list hash * nat) :=
  match c with
  | [] => Some (tree, count)
  | b :: c' =>
      if Nat.ltb count MAX_MERKLE_TREE_SIZE
      then fill_leaves c' (array_set tree count (contentHash b)) (S count)
      else None
  end.

(** The inner [while (i < count)] loop: the array and the final [j]. *)
Fixpoint pair_pass (fuel : nat) (tree : list hash) (count i j : nat) : list hash * nat :=
  match fuel with
  | O => (tree, j)
  | S fuel' =>
      if Nat.ltb i count then
        let a : hash := nth i tree [] in
        let b : hash := if Nat.ltb (i + 1) count then nth (i + 1) tree [] else a in
        pair_pass fuel' (array_set tree j (SHA256 (a ++ b))) count (i + 2) (S j)
      else (tree, j)
  end.

(** The outer [while (count > 1)] loop with [count = j] after each pass. *)
Fixpoint reduce_array (fuel : nat) (tree : list hash) (count : nat) : list hash * nat :=
  match fuel with
  | O => (tree, count)
  | S fuel' =>
      if Nat.ltb 1 count then
        let (tree', j) := pair_pass count tree count 0 0 in reduce_array fuel' tree' j
      else (tree, count)
  end.

Definition calculateMerkleRoot_inplace (temp_tree : list hash) (c : list block) : option hash :=
  match fill_leaves c temp_tree 0 with
  | None => None
  | Some (tree, count) =>
      if Nat.eqb count 0 then None
      else Some (nth 0 (fst (reduce_array count tree count)) [])
  end.

End InPlace.

(** ** Array updates *)

Section ArrayFacts.

Lemma length_array_set a j v : j < length a -> length (array_set a j v) = length a.
Proof.
  intros L. unfold array_set. rewrite length_app, length_firstn. cbn [length].
  rewrite length_skipn. lia.
Qed.

Lemma nth_array_set_eq a j v d : j < length a -> nth j (array_set a j v) d = v.
Proof.
  intros L. unfold array_set. rewrite app_nth2; rewrite length_firstn; [|lia].
  replace (j - Nat.min j (length a)) with 0 by lia. reflexivity.
Qed.

Lemma nth_array_set_neq a j v m d : j < length a -> m <> j -> nth m (array_set a j v) d = nth m a d.
Proof.
  intros L N. unfold array_set. destruct (Nat.lt_ge_cases m j).
  - rewrite app_nth1 by (rewrite length_firstn; lia). rewrite nth_firstn.
    now destruct (Nat.ltb_spec m j); [|lia].
  - rewrite app_nth2 by (rewrite length_firstn; lia). rewrite length_firstn.
    replace (m - Nat.min j (length a)) with (S (m - S j)) by lia. cbn [nth].
    rewrite nth_skipn. f_equal. lia.
Qed.

End ArrayFacts.

(** ** The loops compute the list-level levels *)

Section Equivalence.
Context `{Digest} `{HeapView}.

(** Entry [j] of a level is the digest of entries [2j] and [2j+1] (or
    [2j] twice at an odd end). *)
Lemma nth_merkle_level (l : list hash) j :
  2 * j < length l ->
  nth j (merkle_level l) [] =
  SHA256 (nth (2 * j) l [] ++ (if Nat.ltb (2 * j + 1) (length l) then nth (2 * j + 1) l [] else nth (2 * j) l [])).
Proof.
  revert j; induction l as [|x|x y l IH] using list_pair_ind; intros j L; cbn [length] in L.
  - lia.
  - destruct j; [reflexivity|lia].
  - destruct j as [|j]; [reflexivity|]. cbn [merkle_level nth].
    replace (2 * S j) with (S (S (2 * j))) by lia. cbn [nth length].
    rewrite IH by lia. reflexivity.
Qed.

(** [t] holds [l] in its first [length l] entries. *)
Definition holds (t l : list hash) : Prop :=
  length t = MAX_MERKLE_TREE_SIZE /\ length l <= MAX_MERKLE_TREE_SIZE /\
  forall m, m < length l -> nth m t [] = nth m l [].

Lemma fill_leaves_spec c (tree : list hash) k :
  length tree = MAX_MERKLE_TREE_SIZE -> k <= MAX_MERKLE_TREE_SIZE ->
  (k + length c <= MAX_MERKLE_TREE_SIZE ->
   exists t, fill_leaves c tree k = Some (t, k + length c) /\ length t = MAX_MERKLE_TREE_SIZE /\
     (forall m, m < k -> nth m t [] = nth m tree []) /\
     (forall m, m < length c -> nth (k + m) t [] = nth m (map contentHash c) [])) /\
  (MAX_MERKLE_TREE_SIZE < k + length c -> fill_leaves c tree k = None).
Proof.
  revert tree k; induction c as [|b c IH]; intros tree k Lt Lk0; cbn [fill_leaves length].
  - split; [intros _; exists tree; rewrite Nat.add_0_r; repeat split; auto; intros; lia|intros; lia].
  - destruct (Nat.ltb_spec k MAX_MERKLE_TREE_SIZE) as [Lk|Lk].
    + assert (Ls : length (array_set tree k (contentHash b)) = MAX_MERKLE_TREE_SIZE)
        by (rewrite length_array_set; lia).
      destruct (IH _ (S k) Ls ltac:(lia)) as [IH1 IH2]. split; [|intros; apply IH2; lia].
      intros Lc. destruct (IH1 ltac:(lia)) as (t & E & Lt' & Pre & Suf).
      exists t. rewrite E. replace (S k + length c) with (k + S (length c)) by lia.
      split; [reflexivity|split; [exact Lt'|split]].
      * intros m Hm. rewrite Pre by lia. apply nth_array_set_neq; lia.
      * intros [|m] Hm; cbn [map nth].
        -- rewrite Nat.add_0_r, Pre by lia. apply nth_array_set_eq. lia.
        -- replace (k + S m) with (S k + m) by lia. apply Suf. lia.
    + split; [lia|reflexivity].
Qed.

(** One pass of the inner loop, from the state after [j] iterations. *)
Lemma pair_pass_spec fuel (t l : list hash) i j :
  length t = MAX_MERKLE_TREE_SIZE -> length l <= MAX_MERKLE_TREE_SIZE ->
  i = 2 * j -> i <= length l + 1 -> length l - i <= fuel ->
  (forall m, m < j -> nth m t [] = nth m (merkle_level l) []) ->
  (forall m, i <= m < length l -> nth m t [] = nth m l []) ->
  holds (fst (pair_pass fuel t (length l) i j)) (merkle_level l) /\
  snd (pair_pass fuel t (length l) i j) = length (merkle_level l).
Proof.
  revert t i j; induction fuel as [|fuel IH]; intros t i j Lt Ll Ei Li Lf Done Todo;
    cbn [pair_pass]; [|destruct (Nat.ltb_spec i (length l))].
  2:{ set (b := if Nat.ltb (i + 1) (length l) then @nth hash (i + 1) t [] else @nth hash i t []).
      assert (Hj : j < length t) by lia.
      apply IH; try rewrite length_array_set; try lia.
      - intros m Hm. destruct (Nat.eq_dec m j) as [->|Ne].
        + rewrite nth_array_set_eq by exact Hj. rewrite nth_merkle_level by lia.
          subst b i. rewrite !(Todo (2 * j)) by lia.
          destruct (Nat.ltb_spec (2 * j + 1) (length l)); [|reflexivity].
          now rewrite (Todo (2 * j + 1)) by lia.
        + rewrite nth_array_set_neq by (exact Hj || lia). apply Done. lia.
      - intros m Hm. rewrite nth_array_set_neq by (exact Hj || lia). apply Todo. lia. }
  all: cbn [fst snd]; rewrite merkle_level_length.
  all: assert (Ej : j = (length l + 1) / 2) by (apply Nat.div_unique with (r := length l + 1 - i); lia).
  all: split; [|exact Ej].
  all: split; [exact Lt|]; rewrite merkle_level_length; split; [rewrite <- Ej; unfold MAX_MERKLE_TREE_SIZE in *; lia|].
  all: intros m Hm; apply Done; lia.
Qed.

Lemma reduce_array_spec fuel (t l : list hash) :
  holds t l ->
  holds (fst (reduce_array fuel t (length l))) (merkle_reduce fuel l) /\
  snd (reduce_array fuel t (length l)) = length (merkle_reduce fuel l).
Proof.
  revert t l; induction fuel as [|fuel IH]; intros t l (Lt & Ll & Hl); cbn [reduce_array merkle_reduce].
  - split; [repeat split; auto|reflexivity].
  - destruct (Nat.ltb_spec 1 (length l)); [|split; [repeat split; auto|reflexivity]].
    destruct (pair_pass_spec (length l) t l 0 0 Lt Ll eq_refl ltac:(lia) ltac:(lia)
                ltac:(intros; lia) ltac:(intros; apply Hl; lia)) as [Hp Ep].
    destruct (pair_pass (length l) t (length l) 0 0) as [t' j]. cbn [fst snd] in Hp, Ep. subst j.
    apply IH. exact Hp.
Qed.

End Equivalence.

Module MerkleArrayTheorems.

Section WithDigest.
Context `{Digest} `{HeapView}.

(** (C20) Equivalence of the in-place computation with the list-level
    definition: for every chain and whatever the uninitialised
    [temp_tree] holds, the loops of [calculateMerkleRoot] on the array
    return [calculateMerkleRoot] of [Merkle.v] (the root, or undefined
    on an empty or over-full chain): the writes at [temp_tree[i / 2]]
    never overwrite an entry the pass has still to read. *)
Theorem calculateMerkleRoot_inplace_equiv (temp_tree : list hash) (c : list block) :
  length temp_tree = MAX_MERKLE_TREE_SIZE ->
  calculateMerkleRoot_inplace temp_tree c = calculateMerkleRoot c.
Proof.
  intros Lt. unfold calculateMerkleRoot_inplace, calculateMerkleRoot.
  destruct (fill_leaves_spec c temp_tree 0 Lt ltac:(lia)) as [Fit Over].
  destruct (Nat.ltb_spec MAX_MERKLE_TREE_SIZE (length c)) as [L|L]; [now rewrite Over|].
  destruct (Fit L) as (t & -> & Lt' & _ & Hc). cbn [Nat.add].
  destruct (Nat.eqb_spec (length c) 0) as [E0|E0].
  { destruct c; [reflexivity|discriminate]. }
  assert (Hold : holds t (map contentHash c))
    by (split; [exact Lt'|rewrite length_map; split; [exact L|intros m Hm; apply Hc; exact Hm]]).
  destruct (reduce_array_spec (length c) t _ Hold) as [(_ & _ & Hr) _].
  rewrite length_map in Hr.
  pose proof (merkle_reduce_single (length c) (map contentHash c)) as S.
  rewrite length_map in S. specialize (S (le_n _) ltac:(destruct c; [contradiction|discriminate])).
  destruct (merkle_reduce (length c) (map contentHash c)) as [|r [|r' rest]]; try discriminate.
  f_equal. exact (Hr 0 ltac:(simpl; lia)).
Qed.

End WithDigest.

End MerkleArrayTheorems.

Module MerkleArrayWitnesses.
Import Toy MerkleArrayTheorems.
Local Open Scope string_scope.
Local Open Scope list_scope.

Definition sample_chain : list block :=
  [mkBlock "V1" "C1" (repeat Byte.x00 32); mkBlock "V2" "C2" (repeat Byte.x01 32);
   mkBlock "V3" "C1" (repeat Byte.x02 32)].

(** Stack garbage: whatever the array held before. *)
Definition garbage_tree : list hash := repeat (repeat Byte.xff 32) 64.

Lemma calculateMerkleRoot_inplace_equiv_witness :
  length garbage_tree = MAX_MERKLE_TREE_SIZE /\
  calculateMerkleRoot_inplace garbage_tree sample_chain = calculateMerkleRoot sample_chain.
Proof.
  assert (L : length garbage_tree = MAX_MERKLE_TREE_SIZE) by reflexivity.
  split; [exact L|exact (calculateMerkleRoot_inplace_equiv _ _ L)].
Defined.

End MerkleArrayWitnesses.
