(* ===== verification/Ledger.v ===== *)
(** * Ledger: [castVote] and [verifyChain] (src/blockchain.c)

    [castVote] appends a block whose [prevhash] is the digest of the
    empty string on an empty chain and otherwise the digest of what
    [SHA256(toString(tail), strlen(...))] reads; it then pushes that
    hash into the [merkle_tree] cache ([addToMerkleTree]) and replaces
    the stored root by [calculateMerkleRoot] of the new chain.  The
    result is [None] where the C code has undefined behaviour (a
    65th block overflows [temp_tree]).  Printing and the file write are
    not part of this function's model (the file is [LedgerFile]).

    [verifyChain] returns the per-link verdicts it prints and its
    return code: [-1] on an empty chain, [1] when every link matches,
    [0] otherwise. *)

From Stdlib Require Import String List ZArith Lia Arith.
From Stdlib Require Strings.Byte.
From S2P Require Import Prelude Digest Chain Merkle.
Import ListNotations.

Section Ledger.
Context `{Digest} `{HeapView}.

(** The chain hash a successor of [prev] must carry. *)
Definition expected_hash (prev : block) : hash := SHA256 (hash_input (toString prev)).

Definition tail_block (c : list block) : option block := last (map Some c) None.

Definition new_block (c : list block) (voterID candID : string) : block :=
  mkBlock voterID candID
    (match tail_block c with
     | None => SHA256 []
     | Some t => expected_hash t
     end).

Definition castVote (voterID candID : string) (bc : blockchain) : option blockchain :=
  let nb := new_block (chain bc) voterID candID in
  let c' := chain bc ++ [nb] in
  let bc1 := addToMerkleTree (mkBlockchain c' (merkle_root bc) (merkle_tree bc) (merkle_count bc))
                             (prevhash nb) in
  match calculateMerkleRoot c' with
  | Some r => Some (mkBlockchain (chain bc1) r (merkle_tree bc1) (merkle_count bc1))
  | None => None
  end.

Fixpoint link_verdicts (prev : block) (rest : list block) : list bool :=
  match rest with
  | [] => []
  | curr :: rest' => hashCompare (expected_hash prev) (prevhash curr) :: link_verdicts curr rest'
  end.

Definition verifyChain (bc : blockchain) : list bool * Z :=
  match chain bc with
  | [] => ([], (-1)%Z)
  | head :: rest =>
      let vs := link_verdicts head rest in
      (vs, if forallb (fun v => v) vs then 1%Z else 0%Z)
  end.

(** A sequence of [castVote] calls, stopping at the first failure. *)
Fixpoint castVotes (votes : list (string * string)) (bc : blockchain) : option blockchain :=
  match votes with
  | [] => Some bc
  | (v, c) :: votes' =>
      match castVote v c bc with
      | Some bc' => castVotes votes' bc'
      | None => None
      end
  end.

End Ledger.

Section LedgerFacts.
Context `{Digest} `{HeapView}.

Lemma tail_block_snoc c b : tail_block (c ++ [b]) = Some b.
Proof. unfold tail_block. rewrite map_app. apply last_last. Qed.

Lemma tail_block_last c d : c <> [] -> tail_block c = Some (last c d).
Proof.
  unfold tail_block. induction c as [|a [|b c] IH]; intros Hc; [contradiction|reflexivity|].
  change (last (map Some (b :: c)) None = Some (last (b :: c) d)). apply IH. discriminate.
Qed.

(** Every block after [prev] carries the chain hash of its predecessor. *)
Fixpoint linked (prev : block) (rest : list block) : Prop :=
  match rest with
  | [] => True
  | b :: rest' => prevhash b = expected_hash prev /\ linked b rest'
  end.

Definition linked_chain (c : list block) : Prop :=
  match c with [] => True | h :: t => linked h t end.

Lemma linked_snoc h t b :
  linked h t -> prevhash b = expected_hash (last t h) -> linked h (t ++ [b]).
Proof.
  revert h; induction t as [|x t IH]; intros h; simpl; [tauto|].
  intros [E L] Hb. split; [exact E|]. apply IH; [exact L|].
  destruct t as [|y t]; [exact Hb|]. rewrite (last_default y t x h). exact Hb.
Qed.

Lemma linked_chain_new c v cd :
  linked_chain c -> linked_chain (c ++ [new_block c v cd]).
Proof.
  destruct c as [|h t]; simpl; [tauto|]. intros L. apply linked_snoc; [exact L|].
  unfold new_block; simpl. rewrite (tail_block_last (h :: t) h) by discriminate.
  destruct t; reflexivity.
Qed.

Lemma link_verdicts_linked h t : linked h t -> link_verdicts h t = repeat true (length t).
Proof.
  revert h; induction t as [|b t IH]; intros h; simpl; [reflexivity|].
  intros [E L]. rewrite E, hashCompare_refl, IH by exact L. reflexivity.
Qed.

Lemma castVote_chain v cd bc bc' :
  castVote v cd bc = Some bc' ->
  chain bc' = chain bc ++ [new_block (chain bc) v cd] /\
  calculateMerkleRoot (chain bc') = Some (merkle_root bc').
Proof.
  unfold castVote, addToMerkleTree.
  destruct (calculateMerkleRoot _) as [r|] eqn:E; [|discriminate]. intros [= <-].
  destruct (Z.leb _ _); simpl; auto.
Qed.

Lemma castVote_none v cd bc :
  castVote v cd bc = None <-> MAX_MERKLE_TREE_SIZE <= length (chain bc).
Proof.
  unfold castVote. destruct (calculateMerkleRoot_domain (chain bc ++ [new_block (chain bc) v cd])) as [D _].
  rewrite length_app in D. cbn [length] in D.
  destruct (calculateMerkleRoot _) as [r|]; split; try discriminate; intros; auto.
  - assert (Some r = None) by (apply D; lia). discriminate.
  - destruct (proj1 D eq_refl); lia.
Qed.

Lemma castVotes_linked votes bc bc' :
  linked_chain (chain bc) -> castVotes votes bc = Some bc' ->
  linked_chain (chain bc') /\ length (chain bc') = length (chain bc) + length votes.
Proof.
  revert bc; induction votes as [|[v cd] votes IH]; intros bc L; simpl.
  - intros [= <-]. split; [exact L|lia].
  - destruct (castVote v cd bc) as [bc1|] eqn:E; [|discriminate]. intros Hs.
    destruct (castVote_chain _ _ _ _ E) as [C _].
    destruct (IH bc1) as [L' N]; [rewrite C; now apply linked_chain_new|exact Hs|].
    split; [exact L'|]. rewrite N, C, length_app. simpl. lia.
Qed.

(** The verdict of link [i] compares blocks [i] and [i+1]. *)
Lemma nth_error_link_verdicts h t i :
  nth_error (link_verdicts h t) i =
  match nth_error (h :: t) i, nth_error (h :: t) (S i) with
  | Some p, Some q => Some (hashCompare (expected_hash p) (prevhash q))
  | _, _ => None
  end.
Proof.
  revert h i; induction t as [|b t IH]; intros h [|i]; simpl; auto.
  all: try (destruct i; reflexivity).
  all: rewrite IH; reflexivity.
Qed.

Lemma length_link_verdicts h t : length (link_verdicts h t) = length t.
Proof. revert h; induction t; simpl; auto. Qed.

Lemma nth_error_app_mid {A} (pre post : list A) (b b' : A) i :
  i <> length pre -> nth_error (pre ++ b :: post) i = nth_error (pre ++ b' :: post) i.
Proof.
  intros Hi. destruct (Nat.lt_ge_cases i (length pre)).
  - now rewrite !nth_error_app1.
  - rewrite !nth_error_app2 by lia. destruct (i - length pre) eqn:E; [lia|reflexivity].
Qed.

End LedgerFacts.

Lemma forallb_repeat_true n : forallb (fun v => v) (repeat true n) = true.
Proof. induction n; simpl; auto. Qed.

Lemma Forall_true_forallb l : Forall (fun v => v = true) l <-> forallb (fun v => v) l = true.
Proof.
  induction l as [|a l IH]; simpl; [split; auto|].
  rewrite Bool.andb_true_iff, <- IH. split; [intros H; inversion H; auto|intros [-> F]; auto].
Qed.

Section LedgerTheorems.
Context `{Digest} `{HeapView}.

Lemma verifyChain_nth bc i :
  nth_error (fst (verifyChain bc)) i =
  match nth_error (chain bc) i, nth_error (chain bc) (S i) with
  | Some p, Some q => Some (hashCompare (expected_hash p) (prevhash q))
  | _, _ => None
  end.
Proof.
  unfold verifyChain. destruct (chain bc) as [|h t]; simpl.
  - now destruct i.
  - apply nth_error_link_verdicts.
Qed.

(** (C4) [castVote] is undefined (None) exactly when the chain already
    holds 64 blocks; otherwise it appends one block carrying the chain
    hash of the old tail (the empty-input digest on an empty chain) and
    stores the Merkle root of the new chain. *)
Theorem castVote_spec (v cd : string) (bc : blockchain) :
  (castVote v cd bc = None <-> MAX_MERKLE_TREE_SIZE <= length (chain bc)) /\
  (forall bc', castVote v cd bc = Some bc' ->
     chain bc' = chain bc ++ [new_block (chain bc) v cd] /\
     calculateMerkleRoot (chain bc') = Some (merkle_root bc')).
Proof. split; [apply castVote_none|apply castVote_chain]. Qed.

(** With one memory layout for the whole run, a ledger built by
    [castVote] calls from an empty chain passes [verifyChain]. *)
Lemma castVotes_verified_one_heap (votes : list (string * string)) (bc bc' : blockchain) :
  chain bc = [] -> castVotes votes bc = Some bc' -> votes <> [] ->
  verifyChain bc' = (repeat true (length votes - 1), 1%Z).
Proof.
  intros E0 Hs Hn. destruct (castVotes_linked votes bc bc') as [L N]; [now rewrite E0|exact Hs|].
  rewrite E0 in N. simpl in N. unfold verifyChain.
  destruct (chain bc') as [|h t]; [simpl in N; destruct votes; [contradiction|discriminate]|].
  simpl in L, N. rewrite link_verdicts_linked by exact L.
  replace (length t) with (length votes - 1) by lia.
  now rewrite forallb_repeat_true.
Qed.

(** (C16) [verifyChain] checks every link independently (no short
    circuit): it returns one verdict per adjacent pair, verdict [i]
    comparing the chain hash expected from block [i] with the one
    stored in block [i+1]; the code is -1 exactly on an empty chain
    (not "trivially verified") and 1 exactly when the chain is nonempty
    and every verdict holds. *)
Theorem verifyChain_spec (bc : blockchain) :
  length (fst (verifyChain bc)) = length (chain bc) - 1 /\
  (forall i, nth_error (fst (verifyChain bc)) i =
     match nth_error (chain bc) i, nth_error (chain bc) (S i) with
     | Some p, Some q => Some (hashCompare (expected_hash p) (prevhash q))
     | _, _ => None
     end) /\
  (snd (verifyChain bc) = (-1)%Z <-> chain bc = []) /\
  (snd (verifyChain bc) = 1%Z <-> chain bc <> [] /\ Forall (fun v => v = true) (fst (verifyChain bc))).
Proof.
  split; [|split; [apply verifyChain_nth|]].
  - unfold verifyChain. destruct (chain bc); simpl; [reflexivity|].
    rewrite length_link_verdicts. lia.
  - unfold verifyChain. destruct (chain bc) as [|h t]; simpl.
    + split; [split; intros; reflexivity|].
      split; [discriminate|intros [C _]; contradiction].
    + rewrite Forall_true_forallb. destruct (forallb _ _).
      * split; [split; discriminate|].
        split; [intros _; split; [discriminate|reflexivity]|intros _; reflexivity].
      * split; [split; discriminate|]. split; [discriminate|intros [_ E]; discriminate E].
Qed.

(** (C17) Tampering with one block changes at most the verdicts of the
    two links that touch it: the link into it and the link out of it. *)
Theorem verifyChain_tamper_local (pre post : list block) (b b' : block) (bc bc' : blockchain) :
  chain bc = pre ++ b :: post -> chain bc' = pre ++ b' :: post ->
  forall i, S i <> length pre -> i <> length pre ->
  nth_error (fst (verifyChain bc')) i = nth_error (fst (verifyChain bc)) i.
Proof.
  intros E E' i H1 H2. rewrite !verifyChain_nth, E, E'.
  rewrite (nth_error_app_mid pre post b' b i H2), (nth_error_app_mid pre post b' b (S i) H1).
  reflexivity.
Qed.

End LedgerTheorems.

(** ** Changing the memory after the buffers

    [castVote], [verifyChain] and the Merkle root read the heap only
    through [hash_input]: on two heaps where it agrees they compute the
    same thing.  By [hash_input_terminated] this is so for any two heaps
    in which a NUL follows each [toString] buffer, however the
    allocations are laid out between calls. *)
Section HeapChange.
Context {D : Digest} (HV1 HV2 : HeapView).
Hypothesis same_reads : forall buf, @hash_input HV1 buf = @hash_input HV2 buf.

Lemma expected_hash_heaps p : @expected_hash D HV1 p = @expected_hash D HV2 p.
Proof. unfold expected_hash. now rewrite same_reads. Qed.

Lemma new_block_heaps c v cd : @new_block D HV1 c v cd = @new_block D HV2 c v cd.
Proof. unfold new_block. destruct (tail_block c); [now rewrite expected_hash_heaps|reflexivity]. Qed.

Lemma castVote_heaps v cd bc : @castVote D HV1 v cd bc = @castVote D HV2 v cd bc.
Proof.
  unfold castVote. rewrite new_block_heaps.
  now rewrite (calculateMerkleRoot_heaps HV1 HV2 same_reads).
Qed.

Lemma castVotes_heaps votes bc : @castVotes D HV1 votes bc = @castVotes D HV2 votes bc.
Proof.
  revert bc. induction votes as [|[v cd] votes IH]; intros bc; simpl; [reflexivity|].
  rewrite castVote_heaps. destruct (castVote v cd bc); [apply IH|reflexivity].
Qed.

Lemma link_verdicts_heaps h t : @link_verdicts D HV1 h t = @link_verdicts D HV2 h t.
Proof. revert h. induction t as [|b t IH]; intros h; simpl; [reflexivity|]. now rewrite expected_hash_heaps, IH. Qed.

Lemma verifyChain_heaps bc : @verifyChain D HV1 bc = @verifyChain D HV2 bc.
Proof. unfold verifyChain. destruct (chain bc); [reflexivity|]. now rewrite link_verdicts_heaps. Qed.

End HeapChange.

Section LedgerRun.
Context {D : Digest}.

(** (C5) A ledger built by [castVote] calls from an empty chain passes
    [verifyChain], every link verified and the result 1, when the
    memory the votes were cast in and the memory the chain is verified
    in may differ, provided each holds a NUL after every [toString]
    buffer. *)
Theorem castVotes_verified (HVc HVv : HeapView) (votes : list (string * string)) (bc bc' : blockchain) :
  terminated HVc -> terminated HVv ->
  chain bc = [] -> @castVotes D HVc votes bc = Some bc' -> votes <> [] ->
  @verifyChain D HVv bc' = (repeat true (length votes - 1), 1%Z).
Proof.
  intros Tc Tv E0 Hs Hn.
  rewrite (verifyChain_heaps HVv HVc (hash_input_heaps HVv HVc Tv Tc)).
  exact (castVotes_verified_one_heap votes bc bc' E0 Hs Hn).
Qed.

End LedgerRun.

Module LedgerWitnesses.
Import Toy.
Local Open Scope string_scope.
Local Open Scope list_scope.

Definition empty_ledger : blockchain := mkBlockchain [] (repeat Byte.x00 32) [] 0.

Definition sample_votes : list (string * string) := [("V1", "C1"); ("V2", "C2"); ("V3", "C1")].

Definition run (votes : list (string * string)) : blockchain :=
  match castVotes votes empty_ledger with Some bc => bc | None => empty_ledger end.

(** A heap that holds one non-NUL byte after every buffer. *)
Definition one_byte_heap : HeapView := {| beyond := fun _ => [Byte.x01; Byte.x00] |}.

Lemma castVote_spec_witness :
  castVote "V1" "C1" empty_ledger = Some (run [("V1", "C1")]) /\
  chain (run [("V1", "C1")]) = chain empty_ledger ++ [new_block (chain empty_ledger) "V1" "C1"].
Proof.
  assert (E : castVote "V1" "C1" empty_ledger = Some (run [("V1", "C1")])) by (vm_compute; reflexivity).
  split; [exact E|]. exact (proj1 (proj2 (castVote_spec "V1" "C1" empty_ledger) _ E)).
Defined.

(** A different layout, still NUL-terminated: each buffer is followed
    by a NUL and then a copy of itself. *)
Definition echo_heap : HeapView := {| beyond := fun buf => Byte.x00 :: buf |}.

Lemma castVotes_verified_witness :
  @castVotes toy_digest nul_padded_heap sample_votes empty_ledger = Some (run sample_votes) /\
  @verifyChain toy_digest echo_heap (run sample_votes) = ([true; true], 1%Z).
Proof.
  assert (E : castVotes sample_votes empty_ledger = Some (run sample_votes)) by (vm_compute; reflexivity).
  split; [exact E|].
  exact (castVotes_verified nul_padded_heap echo_heap sample_votes empty_ledger _
           (fun _ => eq_refl) (fun _ => eq_refl) eq_refl E ltac:(discriminate)).
Defined.

Definition tampered : block := mkBlock "V2" "C1" (prevhash (nth 1 (chain (run sample_votes)) (new_block [] "" ""))).

Lemma verifyChain_tamper_local_witness :
  chain (run (sample_votes ++ [("V4", "C2")])) =
    [nth 0 (chain (run (sample_votes ++ [("V4", "C2")]))) tampered] ++
    nth 1 (chain (run (sample_votes ++ [("V4", "C2")]))) tampered ::
    skipn 2 (chain (run (sample_votes ++ [("V4", "C2")]))) /\
  nth_error (fst (verifyChain (mkBlockchain
     ([nth 0 (chain (run (sample_votes ++ [("V4", "C2")]))) tampered] ++ tampered ::
      skipn 2 (chain (run (sample_votes ++ [("V4", "C2")])))) [] [] 0))) 2 =
  nth_error (fst (verifyChain (run (sample_votes ++ [("V4", "C2")])))) 2.
Proof.
  assert (E : chain (run (sample_votes ++ [("V4", "C2")])) =
    [nth 0 (chain (run (sample_votes ++ [("V4", "C2")]))) tampered] ++
    nth 1 (chain (run (sample_votes ++ [("V4", "C2")]))) tampered ::
    skipn 2 (chain (run (sample_votes ++ [("V4", "C2")])))) by (vm_compute; reflexivity).
  split; [exact E|].
  exact (verifyChain_tamper_local _ _ _ tampered _ (mkBlockchain _ [] [] 0) E eq_refl 2
           ltac:(simpl; lia) ltac:(simpl; lia)).
Defined.

Lemma hash_input_exact_witness :
  cstr_ok "V1" = true /\
  (hash_input (toString (nth 0 (chain (run sample_votes)) tampered)) =
     toString (nth 0 (chain (run sample_votes)) tampered) <->
   ~ In Byte.x00 (prevhash (nth 0 (chain (run sample_votes)) tampered)) /\
   cstr_prefix (beyond (toString (nth 0 (chain (run sample_votes)) tampered))) = []).
Proof.
  split; [reflexivity|]. apply hash_input_exact; vm_compute; reflexivity.
Defined.

(** The verdict of [verifyChain] depends on the memory after the
    [toString] buffers: the same untouched ledger, built by [castVote]
    with a NUL-padded heap, passes verification there and reports an
    alteration when each buffer is followed by one non-NUL byte. *)
Theorem verifyChain_heap_dependent :
  exists bc,
    @castVotes toy_digest nul_padded_heap sample_votes empty_ledger = Some bc /\
    @verifyChain toy_digest nul_padded_heap bc = ([true; true], 1%Z) /\
    @verifyChain toy_digest one_byte_heap bc = ([true; false], 0%Z).
Proof.
  exists (run sample_votes). split; [|split]; vm_compute; reflexivity.
Qed.

End LedgerWitnesses.
