(* ===== verification/Tally.v ===== *)
(** * Tally engine: [countVotes] (src/blockchain.c)

    [countVotes] recomputes the Merkle root of the chain, compares it
    byte for byte with the stored root, and on a match walks the chain
    once, adding one to [candidate_votes[i]] for the first roster entry
    [i] whose identifier equals the block's candidate; unmatched
    candidates are skipped.  The counter array ([int[MAX_CANDIDATES]])
    is a list of 8 integers updated with stdpp's [alter].  The result
    is the printed outcome: an integrity failure, the counts of the
    roster's entries, or [TallyUndefined] where the C code has undefined
    behaviour (root of an empty or over-full chain, more than 8 roster
    entries). *)

From stdpp Require Import base list.
From Stdlib Require Import ZArith Lia.
From Stdlib Require Strings.String.
From S2P Require Import Prelude Digest Chain Merkle Ledger.

Local Abbreviation string := String.string.

Definition MAX_CANDIDATES : nat := 8.

Inductive tally_result : Type :=
| IntegrityFailure
| Counts (votes : list Z)
| TallyUndefined.

(** The inner [for] loop with its [break]: the first roster index whose
    identifier equals [cand]. *)
Fixpoint first_match (cand : string) (roster : list string) : option nat :=
  match roster with
  | [] => None
  | id :: roster' =>
      if is_eq (strcmp cand id) then Some 0 else S <$> first_match cand roster'
  end.

Definition tally_block (roster : list string) (votes : list Z) (b : block) : list Z :=
  match first_match (candID b) roster with
  | Some i => alter (Z.add 1) i votes
  | None => votes
  end.

Section Tally.
Context `{Digest} `{HeapView}.

Definition countVotes (bc : blockchain) (roster : list string) : tally_result :=
  match calculateMerkleRoot (chain bc) with
  | None => TallyUndefined
  | Some current =>
      if negb (hashCompare current (merkle_root bc)) then IntegrityFailure
      else if Nat.ltb MAX_CANDIDATES (length roster) then TallyUndefined
      else Counts (take (length roster)
                     (foldl (tally_block roster) (replicate MAX_CANDIDATES 0%Z) (chain bc)))
  end.

End Tally.

(** The abstract count: the blocks cast for [cid]. *)
Definition vote_count (c : list block) (cid : string) : nat :=
  length (filter (fun b => is_eq (strcmp (candID b) cid) = true) c).

Lemma first_match_lookup x roster j :
  first_match x roster = Some j -> roster !! j = Some x.
Proof.
  revert j; induction roster as [|id roster IH]; intros j; simpl; [discriminate|].
  destruct (strcmp x id) eqn:E; simpl.
  - intros [= <-]. apply strcmp_eq in E. now subst.
  - destruct (first_match x roster) eqn:F; simpl; [|discriminate]. intros [= <-]. now apply IH.
  - destruct (first_match x roster) eqn:F; simpl; [|discriminate]. intros [= <-]. now apply IH.
Qed.

Lemma first_match_complete x roster i :
  NoDup roster -> roster !! i = Some x -> first_match x roster = Some i.
Proof.
  revert i; induction roster as [|id roster IH]; intros i Hd Hi; [discriminate|].
  apply NoDup_cons in Hd as [Hn Hd]. simpl.
  destruct i as [|i]; simpl in Hi.
  - injection Hi as ->. now rewrite strcmp_refl.
  - destruct (strcmp x id) eqn:E; simpl.
    + apply strcmp_eq in E. subst. exfalso. apply Hn. eapply list_elem_of_lookup_2; eauto.
    + now rewrite (IH i Hd Hi).
    + now rewrite (IH i Hd Hi).
Qed.

Lemma vote_count_cons b c cid :
  vote_count (b :: c) cid = (if is_eq (strcmp (candID b) cid) then 1 else 0) + vote_count c cid.
Proof.
  unfold vote_count. rewrite filter_cons.
  case_decide as Hc; destruct (is_eq _); simpl; first [discriminate Hc | congruence | lia].
Qed.

Lemma tally_fold_lookup roster c v i cid :
  NoDup roster -> roster !! i = Some cid ->
  foldl (tally_block roster) v c !! i = (fun z => z + Z.of_nat (vote_count c cid))%Z <$> v !! i.
Proof.
  intros Hd Hi. revert v; induction c as [|b c IH]; intros v; simpl.
  - replace (vote_count [] cid) with 0%nat by reflexivity.
    destruct (v !! i); simpl; [f_equal; lia|reflexivity].
  - rewrite IH, vote_count_cons. unfold tally_block.
    destruct (first_match (candID b) roster) as [j|] eqn:F.
    + apply first_match_lookup in F. destruct (decide (i = j)) as [<-|Ne].
      * rewrite list_lookup_alter_eq. rewrite Hi in F. injection F as ->.
        rewrite strcmp_refl. destruct (v !! i); simpl; [f_equal; lia|reflexivity].
      * rewrite list_lookup_alter_ne by congruence.
        destruct (strcmp (candID b) cid) eqn:E; simpl.
        -- apply strcmp_eq in E. subst. exfalso. apply Ne. eapply NoDup_lookup; eauto.
        -- destruct (v !! i); simpl; [f_equal; lia|reflexivity].
        -- destruct (v !! i); simpl; [f_equal; lia|reflexivity].
    + destruct (strcmp (candID b) cid) eqn:E; simpl.
      * apply strcmp_eq in E. subst. rewrite (first_match_complete _ _ _ Hd Hi) in F. discriminate.
      * destruct (v !! i); simpl; [f_equal; lia|reflexivity].
      * destruct (v !! i); simpl; [f_equal; lia|reflexivity].
Qed.

(** The counting loop computes, for every roster entry, the number of
    blocks cast for it. *)
Lemma tally_counts roster c :
  NoDup roster -> length roster <= MAX_CANDIDATES ->
  take (length roster) (foldl (tally_block roster) (replicate MAX_CANDIDATES 0%Z) c) =
  (fun cid => Z.of_nat (vote_count c cid)) <$> roster.
Proof.
  intros Hd Hl. apply list_eq. intros i. rewrite list_lookup_fmap.
  destruct (decide (i < length roster)) as [Lt|Ge].
  - rewrite lookup_take_lt by lia. destruct (lookup_lt_is_Some_2 roster i Lt) as [cid Hc].
    rewrite Hc, (tally_fold_lookup _ _ _ _ cid Hd Hc), lookup_replicate_2 by (unfold MAX_CANDIDATES in *; lia).
    simpl. f_equal.
  - rewrite lookup_take_ge by lia. rewrite lookup_ge_None_2 by lia. reflexivity.
Qed.

Lemma filter_map_length {A B} (f : A -> B) (P : B -> bool) (l : list A) :
  length (filter (fun a => P (f a) = true) l) = length (filter (fun x => P x = true) (map f l)).
Proof.
  induction l as [|a l IH]; [reflexivity|]. cbn [map]. rewrite !filter_cons.
  repeat case_decide; simpl; tauto || congruence.
Qed.

Section TallyTheorems.
Context `{Digest} `{HeapView}.

Lemma castVotes_candIDs votes bc bc' :
  castVotes votes bc = Some bc' -> map candID (chain bc') = map candID (chain bc) ++ map snd votes.
Proof.
  revert bc; induction votes as [|[v cd] votes IH]; intros bc; simpl.
  - intros [= <-]. now rewrite app_nil_r.
  - destruct (castVote v cd bc) as [bc1|] eqn:E; [|discriminate]. intros Hs.
    rewrite (IH bc1 Hs). destruct (castVote_chain _ _ _ _ E) as [-> _].
    rewrite map_app, <- app_assoc. reflexivity.
Qed.

Lemma castVotes_root votes bc bc' :
  castVotes votes bc = Some bc' -> votes <> [] ->
  calculateMerkleRoot (chain bc') = Some (merkle_root bc').
Proof.
  revert bc; induction votes as [|[v cd] votes IH]; intros bc; simpl; [congruence|].
  destruct (castVote v cd bc) as [bc1|] eqn:E; [|discriminate]. intros Hs _.
  destruct votes as [|vt votes].
  - simpl in Hs. injection Hs as <-. exact (proj2 (castVote_chain _ _ _ _ E)).
  - apply (IH bc1 Hs). discriminate.
Qed.

Lemma countVotes_checked bc roster :
  calculateMerkleRoot (chain bc) = Some (merkle_root bc) -> NoDup roster ->
  length roster <= MAX_CANDIDATES ->
  countVotes bc roster = Counts ((fun cid => Z.of_nat (vote_count (chain bc) cid)) <$> roster).
Proof.
  intros E Hd Hl. unfold countVotes. rewrite E, hashCompare_refl. simpl.
  destruct (Nat.ltb_spec MAX_CANDIDATES (length roster)); [lia|]. now rewrite tally_counts.
Qed.

(** (C7) Counts are produced only after the Merkle check passes: a
    [Counts] result means the recomputed root is defined and equal to
    the stored one, the roster fits the 8-entry array, and (for a roster
    without repeated identifiers) each count is the number of blocks
    cast for that entry; blocks for unlisted candidates count nowhere. *)
Theorem countVotes_sound (bc : blockchain) (roster : list string) (l : list Z) :
  countVotes bc roster = Counts l -> NoDup roster ->
  exists r, calculateMerkleRoot (chain bc) = Some r /\ hashCompare r (merkle_root bc) = true /\
    length roster <= MAX_CANDIDATES /\
    l = (fun cid => Z.of_nat (vote_count (chain bc) cid)) <$> roster.
Proof.
  unfold countVotes. intros E Hd. destruct (calculateMerkleRoot (chain bc)) as [r|]; [|discriminate].
  exists r. destruct (hashCompare r (merkle_root bc)); simpl in E; [|discriminate].
  destruct (Nat.ltb_spec MAX_CANDIDATES (length roster)); [discriminate|].
  injection E as <-. repeat split; auto. now rewrite tally_counts.
Qed.

(** With one memory layout for the whole run, [countVotes] after a
    nonempty sequence of [castVote] calls counts the votes cast. *)
Lemma countVotes_after_castVotes_one_heap (votes : list (string * string)) (bc bc' : blockchain)
    (roster : list string) :
  chain bc = [] -> castVotes votes bc = Some bc' -> votes <> [] ->
  NoDup roster -> length roster <= MAX_CANDIDATES ->
  countVotes bc' roster =
    Counts ((fun cid => Z.of_nat (length (filter (fun v => is_eq (strcmp v.2 cid) = true) votes)))
            <$> roster).
Proof.
  intros E0 Hs Hn Hd Hl. rewrite countVotes_checked by eauto using castVotes_root.
  f_equal. apply list_fmap_ext. intros i cid _. f_equal.
  unfold vote_count. rewrite (filter_map_length candID (fun x => is_eq (strcmp x cid))).
  rewrite (castVotes_candIDs _ _ _ Hs), E0. simpl.
  rewrite (filter_map_length snd (fun x => is_eq (strcmp x cid))). reflexivity.
Qed.

(** (C21) The root check cannot see a duplicated last ballot: if the
    stored root is the root of a ledger of odd length at least 3 and
    the last block is appended once more in memory, [countVotes] passes
    its integrity check and counts that ballot twice. *)
Theorem countVotes_duplicate_last (c0 : list block) (b : block) (root : hash)
    (cache : list hash) (n : Z) (roster : list string) :
  Nat.even (length c0) = true -> 2 <= length c0 -> length c0 + 2 <= MAX_MERKLE_TREE_SIZE ->
  calculateMerkleRoot (c0 ++ [b]) = Some root -> NoDup roster -> length roster <= MAX_CANDIDATES ->
  countVotes (mkBlockchain (c0 ++ [b; b]) root cache n) roster =
    Counts ((fun cid => Z.of_nat (vote_count (c0 ++ [b; b]) cid)) <$> roster).
Proof.
  intros Ev L2 L64 E Hd Hl. apply countVotes_checked; auto.
  simpl. now rewrite merkle_root_duplicate_last.
Qed.

End TallyTheorems.

(** [countVotes] reads the heap only through the Merkle root. *)
Lemma countVotes_heaps {D : Digest} (HV1 HV2 : HeapView) :
  (forall buf, @hash_input HV1 buf = @hash_input HV2 buf) ->
  forall bc roster, @countVotes D HV1 bc roster = @countVotes D HV2 bc roster.
Proof. intros R bc roster. unfold countVotes. now rewrite (calculateMerkleRoot_heaps HV1 HV2 R). Qed.

Section TallyRun.
Context {D : Digest}.

(** (C6) End to end: after a nonempty sequence of [castVote] calls
    from an empty chain, [countVotes] passes its integrity check and
    reports, for each entry of a repetition-free roster of at most 8
    identifiers, the number of votes cast for it; the memory the votes
    were cast in and the memory of the tally may differ, provided each
    holds a NUL after every [toString] buffer. *)
Theorem countVotes_after_castVotes (HVc HVt : HeapView) (votes : list (string * string))
    (bc bc' : blockchain) (roster : list string) :
  terminated HVc -> terminated HVt ->
  chain bc = [] -> @castVotes D HVc votes bc = Some bc' -> votes <> [] ->
  NoDup roster -> length roster <= MAX_CANDIDATES ->
  @countVotes D HVt bc' roster =
    Counts ((fun cid => Z.of_nat (length (filter (fun v => is_eq (strcmp v.2 cid) = true) votes)))
            <$> roster).
Proof.
  intros Tc Tt E0 Hs Hn Hd Hl.
  rewrite (countVotes_heaps HVt HVc (hash_input_heaps HVt HVc Tt Tc)).
  exact (countVotes_after_castVotes_one_heap votes bc bc' roster E0 Hs Hn Hd Hl).
Qed.

End TallyRun.

Module TallyWitnesses.
Import Toy LedgerWitnesses Stdlib.Strings.String.StringSyntax.
Local Open Scope string_scope.

Definition roster12 : list string := ["C1"; "C2"].

Ltac roster_nodup :=
  apply NoDup_ListNoDup; repeat constructor; simpl; intros Hin;
  repeat (destruct Hin as [Hin|Hin]; [discriminate Hin|]); exact Hin.

Lemma countVotes_sound_witness :
  countVotes (run sample_votes) roster12 = Counts [2%Z; 1%Z] /\
  (exists r, calculateMerkleRoot (chain (run sample_votes)) = Some r /\
     hashCompare r (merkle_root (run sample_votes)) = true /\ length roster12 <= MAX_CANDIDATES /\
     [2%Z; 1%Z] = (fun cid => Z.of_nat (vote_count (chain (run sample_votes)) cid)) <$> roster12).
Proof.
  assert (E : countVotes (run sample_votes) roster12 = Counts [2%Z; 1%Z]) by (vm_compute; reflexivity).
  split; [exact E|]. apply (countVotes_sound _ _ _ E). roster_nodup.
Defined.

(** The example of the design notes: votes V1 for C1, V2 for C2, V3 for
    C1, plus a vote for an unlisted candidate, give C1: 2, C2: 1, cast
    in one memory layout and counted in another. *)
Lemma countVotes_after_castVotes_witness :
  @countVotes toy_digest echo_heap (run (sample_votes ++ [("V4", "C9")])) roster12 = Counts [2%Z; 1%Z].
Proof.
  rewrite (@countVotes_after_castVotes toy_digest nul_padded_heap echo_heap (sample_votes ++ [("V4", "C9")]) empty_ledger
             (run (sample_votes ++ [("V4", "C9")])) roster12
             (fun _ => eq_refl) (fun _ => eq_refl) eq_refl ltac:(vm_compute; reflexivity) ltac:(discriminate)
             ltac:(roster_nodup) ltac:(vm_compute; lia)).
  vm_compute. reflexivity.
Defined.

Lemma countVotes_duplicate_last_witness :
  countVotes (mkBlockchain (firstn 2 (chain (run sample_votes)) ++
                [nth 2 (chain (run sample_votes)) tampered; nth 2 (chain (run sample_votes)) tampered])
              (merkle_root (run sample_votes)) [] 0) roster12 = Counts [3%Z; 1%Z].
Proof.
  rewrite countVotes_duplicate_last; [vm_compute; reflexivity|..].
  all: first [roster_nodup | vm_compute; (reflexivity || lia)].
Defined.

End TallyWitnesses.
