(* ===== verification/Roster.v ===== *)
(** * Candidate roster (src/blockchain.c: generateUniqueID, addCandidate,
    clearAllCandidates, loadCandidatesFromFile)

    [candidates.txt] is a text file of lines [id,name].  [addCandidate]
    appends one line whose identifier comes from [generateUniqueID] and
    whose name is what [fgets] read from standard input, newline cut;
    [clearAllCandidates] truncates the file; [loadCandidatesFromFile]
    reads it back line by line with [fgets(line, 256, file)], cuts the
    newline with [strcspn], splits with [strtok(line, ",")] and
    [strtok(NULL, "")], keeps 49 characters of the name and stops at
    [MAX_CANDIDATES] entries.  A missing file leaves [*numCandidates]
    untouched ([None]); in [main] that is an uninitialised count.

    The C library functions are modelled as they behave on the strings
    they are given: [fgets] reads at most [n - 1] characters and stops
    after a newline; [strtok] skips leading delimiters and returns NULL
    on an empty remainder; [strtok(NULL, "")] returns the whole rest.
    The loader's [while] loop is modelled with fuel; the length of the
    file plus one is enough, since each [fgets] consumes a character
    ([load_lines_fuel]). *)

From Stdlib Require Import String Ascii List ZArith Lia.
From S2P Require Import Prelude Tally.
Import ListNotations.

Local Open Scope string_scope.
Local Open Scope bool_scope.

(** ** The C string functions the roster code calls *)

(** [fgets(buf, n, file)] with [n >= 1]: the characters read (the
    newline included when it was reached) and the rest of the file;
    [None] at end of file. *)
Fixpoint fgets_take (k : nat) (s : string) : string * string :=
  match k, s with
  | O, _ => ("", s)
  | _, EmptyString => ("", "")
  | S k', String c s' =>
      if Ascii.eqb c "010"%char then (String c "", s')
      else let (a, b) := fgets_take k' s' in (String c a, b)
  end.

Definition fgets (n : nat) (s : string) : option (string * string) :=
  match s with
  | EmptyString => None
  | _ => Some (fgets_take (n - 1) s)
  end.

(** [line[strcspn(line, "\n")] = '\0']: the C string [line] up to its
    first newline (a NUL ends the C string anyway). *)
Fixpoint cut_newline (s : string) : string :=
  match s with
  | EmptyString => ""
  | String c s' =>
      if Ascii.eqb c "010"%char || Ascii.eqb c "000"%char then "" else String c (cut_newline s')
  end.

Fixpoint skip_commas (s : string) : string :=
  match s with
  | String c s' => if Ascii.eqb c ","%char then skip_commas s' else s
  | EmptyString => s
  end.

(** The token up to the next comma, and what [strtok] saves for the
    next call: the characters after that comma. *)
Fixpoint comma_token (s : string) : string * string :=
  match s with
  | EmptyString => ("", "")
  | String c s' =>
      if Ascii.eqb c ","%char then ("", s')
      else let (t, r) := comma_token s' in (String c t, r)
  end.

(** [strtok(line, ",")]: the first token and the saved position. *)
Definition strtok_comma (line : string) : option (string * string) :=
  match skip_commas line with
  | EmptyString => None
  | s => Some (comma_token s)
  end.

(** [strtok(NULL, "")]: the rest of the line, NULL when it is empty. *)
Definition strtok_rest (saved : string) : option string :=
  match saved with
  | EmptyString => None
  | s => Some s
  end.

(** ** The roster *)

Record Candidate : Type := mkCandidate {
  id : string;
  name : string
}.

(** [strncpy(candidates[i].name, name, sizeof(name) - 1)] into [char name[50]]. *)
Definition NAME_CAPACITY : nat := 49.

Definition LINE_BUFFER : nat := 256.

(** One line of the file: the candidate it yields, if both tokens exist. *)
Definition parse_line (line : string) : option Candidate :=
  match strtok_comma (cut_newline line) with
  | None => None
  | Some (i, saved) =>
      match strtok_rest saved with
      | None => None
      | Some n => Some (mkCandidate i (substring 0 NAME_CAPACITY n))
      end
  end.

(** The [while (fgets(...))] loop; [count] is [*numCandidates]. *)
Fixpoint load_lines (fuel : nat) (file : string) (count : nat) : list Candidate :=
  match fuel with
  | O => []
  | S fuel' =>
      match fgets LINE_BUFFER file with
      | None => []
      | Some (line, rest) =>
          match parse_line line with
          | None => load_lines fuel' rest count
          | Some c =>
              if Nat.leb MAX_CANDIDATES (S count) then [c]
              else c :: load_lines fuel' rest (S count)
          end
      end
  end.

(** [None]: the file could not be opened and the count is not set. *)
Definition loadCandidatesFromFile (file : option string) : option (list Candidate) :=
  match file with
  | None => None
  | Some f => Some (load_lines (S (String.length f)) f 0)
  end.

Definition charset : string := "ABCDEFGHIJKLMNOPQRSTUVWXYZ0123456789".

(** [const char charset[]]: the 36 characters and the terminating NUL. *)
Definition charset_array : list ascii := list_ascii_of_string charset ++ ["000"%char].

Definition charsetSize : Z := Z.of_nat (length charset_array) - 1.

(** [charset[rand() % charsetSize]].  [rand()] returns a value in
    [[0, RAND_MAX]], where C's [%] and [Z.modulo] agree.  An index
    past the array (never reached) reads as NUL here. *)
Definition charset_at (r : Z) : ascii :=
  nth (Z.to_nat (r mod charsetSize)) charset_array "000"%char.

(** [generateUniqueID]: [rs] are the ten values [rand()] returns, in order. *)
Definition generateUniqueID (rs : list Z) : string :=
  let pick i := String (charset_at (nth i rs 0%Z)) "" in
  pick 0 ++ pick 1 ++ pick 2 ++ pick 3 ++ pick 4 ++ "-" ++
  pick 5 ++ pick 6 ++ pick 7 ++ pick 8 ++ pick 9.

(** [fgets(name, sizeof(name), stdin)] with [char name[100]] and the
    newline cut: [typed] is the line the user types, without its newline. *)
Definition read_name (typed : string) : string := substring 0 99 typed.

Definition candidate_line (i n : string) : string := i ++ "," ++ n ++ String "010"%char "".

(** [addCandidate]: the file after the append ([fopen(..., "a")]
    creates a missing file). *)
Definition addCandidate (typed : string) (rs : list Z) (file : option string) : option string :=
  let prev := match file with None => "" | Some f => f end in
  Some (prev ++ candidate_line (generateUniqueID rs) (read_name typed)).

Definition clearAllCandidates (file : option string) : option string := Some "".

(** The identifiers [main] passes to [countVotes]. *)
Definition roster_ids (cs : list Candidate) : list string := map id cs.

(** ** Well-formed lines *)

(** A character a line can carry: no newline, no NUL. *)
Definition line_char (c : ascii) : bool :=
  negb (Ascii.eqb c "010"%char) && negb (Ascii.eqb c "000"%char).

Fixpoint plain (s : string) : bool :=
  match s with EmptyString => true | String c s' => line_char c && plain s' end.

Fixpoint comma_free (s : string) : bool :=
  match s with EmptyString => true | String c s' => negb (Ascii.eqb c ","%char) && comma_free s' end.

(** A line [addCandidate] can write and [fgets] reads whole. *)
Definition entry_ok (e : string * string) : bool :=
  let (i, n) := e in
  negb (String.eqb i "") && plain i && comma_free i && plain n &&
  Nat.ltb (String.length i + S (String.length n)) (LINE_BUFFER - 1).

(** The candidate the loader makes of a well-formed line. *)
Definition parsed_entry (e : string * string) : list Candidate :=
  let (i, n) := e in
  if String.eqb n "" then [] else [mkCandidate i (substring 0 NAME_CAPACITY n)].

(** A sequence of [addCandidate] calls on the file, in order. *)
Definition addCandidates (adds : list (string * list Z)) (file : option string) : option string :=
  fold_left (fun f a => addCandidate (fst a) (snd a) f) adds file.

(** ** The string functions on a written line *)

Section LineFacts.

Lemma plain_app a b : plain (a ++ b) = plain a && plain b.
Proof. induction a as [|c a IH]; simpl; [reflexivity|]. now rewrite IH, Bool.andb_assoc. Qed.

Lemma comma_free_app a b : comma_free (a ++ b) = comma_free a && comma_free b.
Proof. induction a as [|c a IH]; simpl; [reflexivity|]. now rewrite IH, Bool.andb_assoc. Qed.

Lemma fgets_take_line k s rest :
  plain s = true -> String.length s < k ->
  fgets_take k (s ++ String "010"%char rest) = ((s ++ String "010"%char "")%string, rest).
Proof.
  revert k; induction s as [|c s IH]; intros [|k] P L; simpl in *; try lia; [reflexivity|].
  apply andb_prop in P as [Pc Ps]. unfold line_char in Pc.
  destruct (Ascii.eqb c "010"%char); [discriminate|]. rewrite IH by (auto; lia). reflexivity.
Qed.

Lemma cut_newline_line s rest : plain s = true -> cut_newline (s ++ String "010"%char rest) = s.
Proof.
  induction s as [|c s IH]; intros P; simpl in *; [reflexivity|].
  apply andb_prop in P as [Pc Ps]. unfold line_char in Pc.
  destruct (Ascii.eqb c "010"%char), (Ascii.eqb c "000"%char); try discriminate.
  simpl. now rewrite IH.
Qed.

Lemma comma_token_app i n : comma_free i = true -> comma_token (i ++ String ","%char n) = (i, n).
Proof.
  induction i as [|c i IH]; intros F; simpl in *; [reflexivity|].
  apply andb_prop in F as [Fc Fi]. destruct (Ascii.eqb c ","%char); [discriminate|].
  now rewrite IH.
Qed.

Lemma substring_empty m s : substring 0 (S m) s = "" <-> s = "".
Proof. destruct s; simpl; split; congruence. Qed.

Lemma plain_substring m s : plain s = true -> plain (substring 0 m s) = true.
Proof.
  revert m; induction s as [|c s IH]; intros [|m] P; simpl in *; auto.
  apply andb_prop in P as [Pc Ps]. now rewrite Pc, IH.
Qed.

Lemma length_substring0 m s : String.length (substring 0 m s) <= m.
Proof. revert m; induction s; intros [|m]; simpl; try lia. specialize (IHs m); lia. Qed.

Lemma candidate_line_app i n rest :
  (candidate_line i n ++ rest)%string = ((i ++ String ","%char n) ++ String "010"%char rest)%string.
Proof. unfold candidate_line. rewrite !str_app_assoc. reflexivity. Qed.

Lemma fgets_line s rest :
  s <> "" -> plain s = true -> String.length s < LINE_BUFFER - 1 ->
  fgets LINE_BUFFER (s ++ String "010"%char rest) = Some ((s ++ String "010"%char "")%string, rest).
Proof.
  intros Ne P L. destruct s as [|c s']; [congruence|].
  unfold fgets. cbn [append]. change (String c (s' ++ String "010"%char rest))
    with (String c s' ++ String "010"%char rest)%string.
  now rewrite fgets_take_line.
Qed.

Ltac entry_facts E :=
  unfold entry_ok in E; repeat (apply andb_prop in E as [E ?]).

(** The line [addCandidate] writes is read back by one [fgets]. *)
Lemma fgets_candidate_line i n rest :
  entry_ok (i, n) = true ->
  fgets LINE_BUFFER (candidate_line i n ++ rest) = Some (candidate_line i n, rest).
Proof.
  intros E. entry_facts E. rewrite candidate_line_app, fgets_line.
  - f_equal. f_equal. now rewrite <- candidate_line_app, str_app_nil_r.
  - destruct i; discriminate.
  - rewrite plain_app. simpl. now rewrite H2, H0.
  - rewrite str_length_app. simpl. apply Nat.ltb_lt in H. unfold LINE_BUFFER in *. lia.
Qed.

(** ... and parsed into the candidate it names, or into nothing when
    the name is empty. *)
Lemma parse_candidate_line i n :
  entry_ok (i, n) = true ->
  parse_line (candidate_line i n) = hd_error (parsed_entry (i, n)).
Proof.
  intros E. entry_facts E. unfold parse_line.
  rewrite <- (str_app_nil_r (candidate_line i n)), candidate_line_app, cut_newline_line by (rewrite plain_app; simpl; now rewrite H2, H0).
  destruct i as [|c i']; [discriminate|]. simpl in H1.
  apply andb_prop in H1 as [Hc Hi]. apply Bool.negb_true_iff in Hc.
  unfold strtok_comma. cbn [append skip_commas]. rewrite Hc.
  change (String c (i' ++ String ","%char n)) with (String c i' ++ String ","%char n)%string.
  rewrite comma_token_app by (simpl; now rewrite Hc, Hi).
  unfold parsed_entry. destruct n; reflexivity.
Qed.

End LineFacts.

(** The file a sequence of well-formed lines makes. *)
Fixpoint file_of (l : list (string * string)) : string :=
  match l with
  | [] => ""
  | (i, n) :: l' => candidate_line i n ++ file_of l'
  end.

(** ** The loader *)

Section Loader.

Lemma length_file_of l : length l <= String.length (file_of l).
Proof.
  induction l as [|[i n] l IH]; simpl; [lia|].
  unfold candidate_line. rewrite !str_length_app. simpl. lia.
Qed.

(** Loading a file of well-formed lines: the candidates they name, up to
    the [MAX_CANDIDATES - count] the loop still accepts. *)
Lemma load_lines_file_of fuel l count :
  forallb entry_ok l = true -> length l < fuel -> count < MAX_CANDIDATES ->
  load_lines fuel (file_of l) count = firstn (MAX_CANDIDATES - count) (flat_map parsed_entry l).
Proof.
  revert fuel count; induction l as [|[i n] l IH]; intros [|fuel] count Ok Lf Lc; simpl in Lf; try lia.
  - simpl. now rewrite firstn_nil.
  - simpl in Ok. apply andb_prop in Ok as [Oe Ol]. cbn [file_of load_lines].
    rewrite (fgets_candidate_line _ _ _ Oe), (parse_candidate_line _ _ Oe).
    cbn [flat_map]. unfold parsed_entry at 1 2. destruct (String.eqb n "").
    + apply IH; auto; lia.
    + cbn [hd_error app]. unfold MAX_CANDIDATES in *.
      destruct (Nat.leb_spec 8 (S count)).
      * replace (8 - count) with 1 by lia. reflexivity.
      * replace (8 - count) with (S (8 - S count)) by lia. cbn [firstn].
        f_equal. apply IH; auto; lia.
Qed.

Lemma skip_commas_head l c s : skip_commas l = String c s -> Ascii.eqb c ","%char = false.
Proof.
  induction l as [|c' l IH]; simpl; [discriminate|].
  destruct (Ascii.eqb c' ","%char) eqn:E; [exact IH|]. now intros [= <- _].
Qed.

Lemma comma_token_free s : comma_free (fst (comma_token s)) = true.
Proof.
  induction s as [|c s IH]; simpl; [reflexivity|].
  destruct (Ascii.eqb c ","%char) eqn:E; [reflexivity|].
  destruct (comma_token s) as [t r]. simpl in *. now rewrite E, IH.
Qed.

Definition candidate_ok (c : Candidate) : Prop :=
  id c <> "" /\ comma_free (id c) = true /\ String.length (name c) <= NAME_CAPACITY.

Lemma parse_line_ok line c : parse_line line = Some c -> candidate_ok c.
Proof.
  unfold parse_line, strtok_comma.
  destruct (skip_commas (cut_newline line)) as [|a s] eqn:Sk; [discriminate|].
  pose proof (skip_commas_head _ _ _ Sk) as Ha. pose proof (comma_token_free (String a s)) as F.
  cbn [comma_token] in *. rewrite Ha in *. destruct (comma_token s) as [t r].
  destruct (strtok_rest r); [|discriminate]. intros [= <-].
  split; [discriminate|split; [exact F|apply length_substring0]].
Qed.

Lemma load_lines_bounds fuel f count :
  count < MAX_CANDIDATES ->
  length (load_lines fuel f count) <= MAX_CANDIDATES - count /\
  Forall candidate_ok (load_lines fuel f count).
Proof.
  revert f count; induction fuel as [|fuel IH]; intros f count Lc; cbn [load_lines]; [split; [simpl; lia|constructor]|].
  destruct (fgets LINE_BUFFER f) as [[line rest]|]; [|split; [simpl; lia|constructor]].
  destruct (parse_line line) as [c|] eqn:P; [|now apply IH].
  pose proof (parse_line_ok _ _ P). unfold MAX_CANDIDATES in *.
  destruct (Nat.leb_spec 8 (S count)).
  - split; [simpl; lia|now constructor].
  - destruct (IH rest (S count) ltac:(lia)) as [L F]. split; [simpl; lia|now constructor].
Qed.

(** Each [fgets] call with a buffer of at least two bytes consumes a
    character of the file. *)
Lemma fgets_take_rest k s : String.length (snd (fgets_take k s)) <= String.length s.
Proof.
  revert k; induction s as [|c s IH]; intros [|k]; cbn [fgets_take]; try (simpl; lia).
  destruct (Ascii.eqb c "010"%char); [simpl; lia|].
  specialize (IH k). destruct (fgets_take k s); simpl in *. lia.
Qed.

Lemma fgets_shorter n s line rest :
  2 <= n -> fgets n s = Some (line, rest) -> String.length rest < String.length s.
Proof.
  intros Hn. destruct s as [|c s]; [discriminate|]. unfold fgets.
  replace (n - 1) with (S (n - 2)) by lia. cbn [fgets_take].
  destruct (Ascii.eqb c "010"%char); [intros [= _ <-]; simpl; lia|].
  pose proof (fgets_take_rest (n - 2) s) as R.
  destruct (fgets_take (n - 2) s); intros [= _ <-]; simpl in *. lia.
Qed.

(** The loop ends within [length file + 1] iterations: more fuel does
    not change the result. *)
Lemma load_lines_fuel f1 f2 file count :
  String.length file < f1 -> String.length file < f2 ->
  load_lines f1 file count = load_lines f2 file count.
Proof.
  revert f2 file count; induction f1 as [|f1 IH]; intros [|f2] file count L1 L2; try lia.
  cbn [load_lines]. destruct (fgets LINE_BUFFER file) as [[line rest]|] eqn:F; [|reflexivity].
  pose proof (fgets_shorter LINE_BUFFER file line rest ltac:(unfold LINE_BUFFER; lia) F).
  destruct (parse_line line); [destruct (Nat.leb _ _)|]; rewrite ?(IH f2) by lia; reflexivity.
Qed.

End Loader.

(** ** Identifiers and appends *)

Section Writer.

Lemma charset_at_In r : In (charset_at r) (list_ascii_of_string charset).
Proof.
  unfold charset_at, charset_array.
  assert (B : (0 <= r mod charsetSize < 36)%Z) by (apply Z.mod_pos_bound; reflexivity).
  rewrite app_nth1 by (cbn [length list_ascii_of_string charset]; lia).
  apply nth_In. cbn [length list_ascii_of_string charset]. lia.
Qed.

Lemma charset_at_ok r : line_char (charset_at r) = true /\ Ascii.eqb (charset_at r) ","%char = false.
Proof.
  assert (A : forallb (fun c => line_char c && negb (Ascii.eqb c ","%char))
                      (list_ascii_of_string charset) = true) by reflexivity.
  rewrite forallb_forall in A. specialize (A _ (charset_at_In r)).
  apply andb_prop in A as [A B]. now rewrite A, (proj1 (Bool.negb_true_iff _) B).
Qed.

Lemma generateUniqueID_line rs :
  plain (generateUniqueID rs) = true /\ comma_free (generateUniqueID rs) = true /\
  String.length (generateUniqueID rs) = 11.
Proof.
  unfold generateUniqueID. cbn [append plain comma_free String.length].
  rewrite !(proj1 (charset_at_ok _)), !(proj2 (charset_at_ok _)). auto.
Qed.

Lemma entry_ok_added typed rs :
  plain typed = true -> entry_ok (generateUniqueID rs, read_name typed) = true.
Proof.
  intros P. destruct (generateUniqueID_line rs) as (Pi & Ci & Li).
  unfold entry_ok, read_name. rewrite Pi, Ci, Li, plain_substring by exact P.
  assert (L := length_substring0 99 typed).
  destruct (generateUniqueID rs); [discriminate|]. simpl. apply Nat.ltb_lt. unfold LINE_BUFFER. lia.
Qed.

Definition written (a : string * list Z) : string * string :=
  (generateUniqueID (snd a), read_name (fst a)).

Lemma addCandidates_file adds f :
  addCandidates adds (Some f) = Some (f ++ file_of (map written adds))%string.
Proof.
  unfold addCandidates; revert f; induction adds as [|[t rs] adds IH]; intros f.
  - simpl. now rewrite str_app_nil_r.
  - cbn [fold_left map file_of written fst snd].
    change (addCandidate t rs (Some f)) with
      (Some (f ++ candidate_line (generateUniqueID rs) (read_name t))%string).
    now rewrite IH, str_app_assoc.
Qed.

Lemma parsed_written adds :
  flat_map parsed_entry (map written adds) =
  map (fun a => mkCandidate (generateUniqueID (snd a)) (substring 0 NAME_CAPACITY (fst a)))
      (filter (fun a => negb (String.eqb (fst a) "")) adds).
Proof.
  induction adds as [|[t rs] adds IH]; simpl; [reflexivity|]. rewrite IH.
  unfold read_name. rewrite substring_substring. simpl Nat.min.
  destruct t; reflexivity.
Qed.

End Writer.

Module RosterTheorems.

(** (C33) Round trip of the roster file: after [clearAllCandidates] and
    a sequence of [addCandidate] calls (each name a typed line), the
    loader returns the candidates in the order they were added, with
    the identifiers [generateUniqueID] made and names cut to 49
    characters, up to [MAX_CANDIDATES]; a candidate added with an empty
    name is silently dropped. *)
Theorem roster_roundtrip (f0 : option string) (adds : list (string * list Z)) :
  Forall (fun a => plain (fst a) = true) adds ->
  loadCandidatesFromFile (addCandidates adds (clearAllCandidates f0)) =
  Some (firstn MAX_CANDIDATES
          (map (fun a => mkCandidate (generateUniqueID (snd a)) (substring 0 NAME_CAPACITY (fst a)))
               (filter (fun a => negb (String.eqb (fst a) "")) adds))).
Proof.
  intros P. unfold clearAllCandidates, loadCandidatesFromFile.
  rewrite addCandidates_file. cbn [append]. f_equal.
  pose proof (length_file_of (map written adds)) as L. rewrite length_map in L.
  rewrite load_lines_file_of, parsed_written; [reflexivity| | |unfold MAX_CANDIDATES; lia].
  - apply forallb_forall. intros e Hin. apply in_map_iff in Hin as (a & <- & Ha).
    apply entry_ok_added. rewrite Forall_forall in P. exact (P a Ha).
  - rewrite length_map. lia.
Qed.

(** (C34) Whatever [candidates.txt] holds, the loader returns at most
    [MAX_CANDIDATES] candidates, each with a nonempty comma-free
    identifier and a name of at most 49 characters, so the roster it
    passes to [countVotes] never overflows the 8-entry counter array. *)
Theorem roster_bounds (f : string) :
  exists cs, loadCandidatesFromFile (Some f) = Some cs /\
             length cs <= MAX_CANDIDATES /\ Forall candidate_ok cs.
Proof.
  exists (load_lines (S (String.length f)) f 0). split; [reflexivity|].
  destruct (load_lines_bounds (S (String.length f)) f 0) as [L F]; [unfold MAX_CANDIDATES; lia|].
  split; [lia|exact F].
Qed.

(** (C39) [generateUniqueID] always writes an identifier of the form
    [XXXXX-XXXXX]: eleven characters, a dash at index 5 and characters
    of [charset] elsewhere, whatever [rand()] returns: the index
    [rand() % charsetSize] stays below [sizeof(charset) - 1], so the
    array's terminating NUL is never picked. *)
Theorem generateUniqueID_format (rs : list Z) :
  String.length (generateUniqueID rs) = 11 /\
  String.get 5 (generateUniqueID rs) = Some "-"%char /\
  (forall k, k < 11 -> k <> 5 ->
     exists c, String.get k (generateUniqueID rs) = Some c /\ In c (list_ascii_of_string charset)).
Proof.
  split; [exact (proj2 (proj2 (generateUniqueID_line rs)))|]. split; [reflexivity|].
  intros k Hk Hne.
  do 11 (destruct k as [|k]; [first [lia | eexists; split; [reflexivity|apply charset_at_In]]|]).
  lia.
Qed.

End RosterTheorems.

Module RosterWitnesses.
Import RosterTheorems.

Definition sample_adds : list (string * list Z) :=
  [("Alice", [3; 14; 15; 92; 65; 35; 89; 79; 32; 38]);
   ("", [2; 71; 82; 81; 82; 84; 59; 4; 52; 35]);
   ("Bob", [1; 41; 42; 13; 56; 23; 73; 9; 50; 48])]%Z.

Lemma roster_roundtrip_witness :
  Forall (fun a => plain (fst a) = true) sample_adds /\
  loadCandidatesFromFile (addCandidates sample_adds (clearAllCandidates None)) =
    Some [mkCandidate "DOPU3-9RH6C" "Alice"; mkCandidate "BFGNU-XBJOM" "Bob"].
Proof.
  assert (P : Forall (fun a => plain (fst a) = true) sample_adds) by repeat constructor.
  split; [exact P|]. rewrite (roster_roundtrip None sample_adds P). vm_compute. reflexivity.
Defined.

End RosterWitnesses.
