(* ===== verification/Snapshot.v ===== *)
(** * Registry snapshot file (src/avl.c: saveNodeToBinaryFile,
    saveTreeToBinaryFile, loadNodeFromBinaryFile, loadTreeFromBinaryFile,
    initializeTree)

    The file is a sequence of [VoterNode] records written by [fwrite]
    in pre-order.  A record keeps the node's [voterID], [voted] and
    [height]; its two pointer fields are written too but the loader
    overwrites them, so they are left out.  The loader reads one record
    and then loads a left subtree and a right subtree from the rest of
    the file: with no marker for an absent child, the left recursion
    takes every remaining record.  The recursion is modelled with fuel;
    [length file + 1] is enough ([loadNode_fuel]). *)

From Stdlib Require Import String List ZArith Lia.
From S2P Require Import Prelude Registry.
Import ListNotations.

Record snap_record : Type := mkRecord {
  rec_voterID : string;
  rec_voted : Z;
  rec_height : Z
}.

Fixpoint saveNodeToBinaryFile (node : VoterNode) : list snap_record :=
  match node with
  | Leaf => []
  | Node k v l r h => mkRecord k v h :: saveNodeToBinaryFile l ++ saveNodeToBinaryFile r
  end.

(** The file contents after [saveTreeToBinaryFile] (fopen assumed to
    succeed; the C code prints and returns otherwise). *)
Definition saveTreeToBinaryFile (tree : AVLTree) : list snap_record :=
  saveNodeToBinaryFile (root tree).

(** [loadNodeFromBinaryFile]: the tree read and the records left. *)
Fixpoint loadNodeFromBinaryFile (fuel : nat) (file : list snap_record) : VoterNode * list snap_record :=
  match fuel with
  | O => (Leaf, file)
  | S fuel' =>
      match file with
      | [] => (Leaf, [])
      | r :: rest =>
          let (left, rest1) := loadNodeFromBinaryFile fuel' rest in
          let (right, rest2) := loadNodeFromBinaryFile fuel' rest1 in
          (Node (rec_voterID r) (rec_voted r) left right (rec_height r), rest2)
      end
  end.

(** [loadTreeFromBinaryFile]: [None] is a file that cannot be opened,
    which leaves the tree as it was. *)
Definition loadTreeFromBinaryFile (tree : AVLTree) (file : option (list snap_record)) : AVLTree :=
  match file with
  | None => tree
  | Some f => mkAVLTree (fst (loadNodeFromBinaryFile (S (length f)) f))
  end.

Definition initializeTree (file : option (list snap_record)) : AVLTree :=
  loadTreeFromBinaryFile (mkAVLTree Leaf) file.

(** [insertVoter]: the insertion, then the snapshot rewrite. *)
Definition insertVoterPersist (tree : AVLTree) (voterID : string) : AVLTree * list snap_record :=
  let t := insertVoter tree voterID in (t, saveTreeToBinaryFile t).

(** The shape the loader gives a record sequence: each record the left
    child of the one before. *)
Fixpoint spine (file : list snap_record) : VoterNode :=
  match file with
  | [] => Leaf
  | r :: rest => Node (rec_voterID r) (rec_voted r) (spine rest) Leaf (rec_height r)
  end.

Lemma loadNode_spine fuel file :
  length file < fuel -> loadNodeFromBinaryFile fuel file = (spine file, []).
Proof.
  revert file; induction fuel as [|fuel IH]; intros [|r rest] Hf; simpl in *; try lia; auto.
  rewrite IH by lia. simpl. destruct fuel; [lia|reflexivity].
Qed.

(** Termination of the loader: with more fuel than records it reads
    the whole file, whatever the fuel. *)
Lemma loadNode_fuel fuel1 fuel2 file :
  length file < fuel1 -> length file < fuel2 ->
  loadNodeFromBinaryFile fuel1 file = loadNodeFromBinaryFile fuel2 file.
Proof. intros H1 H2. now rewrite !loadNode_spine. Qed.

Lemma save_spine file : saveNodeToBinaryFile (spine file) = file.
Proof. induction file as [|[k v h] rest IH]; simpl; [reflexivity|]. now rewrite IH, app_nil_r. Qed.

Lemma inorder_spine file :
  displayVoterStatus (spine file) = rev (map (fun r => (rec_voterID r, rec_voted r)) file).
Proof. induction file as [|r rest IH]; simpl; [reflexivity|]. now rewrite IH. Qed.

Lemma initializeTree_root file : root (initializeTree (Some file)) = spine file.
Proof.
  unfold initializeTree, loadTreeFromBinaryFile. cbn [root].
  rewrite loadNode_spine by lia. reflexivity.
Qed.

Module SnapshotTheorems.
Import RegistryRefinement Balance RegistryTheorems Check.

Definition rec_entry (r : snap_record) : string * Z := (rec_voterID r, rec_voted r).

Lemma save_entries_In t p :
  In p (map rec_entry (saveNodeToBinaryFile t)) <-> In p (displayVoterStatus t).
Proof.
  induction t as [|k v l IHl r IHr h]; simpl; [tauto|].
  rewrite map_app, !in_app_iff, IHl, IHr. simpl. tauto.
Qed.

Lemma avl_two_nodes_ht t : avl t -> 2 <= length (saveNodeToBinaryFile t) -> (2 <= ht t)%Z.
Proof.
  destruct t as [|k v l r h]; [simpl; lia|]. intros (Hl & Hr & E & _) L.
  cbn [calculateNodeHeight]. simpl in L. rewrite length_app in L.
  destruct l as [|kl vl ll lr hl]; [destruct r as [|kr vr rl rr hr]; [simpl in L; lia|]|].
  - pose proof (avl_ht_nonneg _ (proj1 Hr)). pose proof (avl_ht_nonneg _ (proj1 (proj2 Hr))).
    destruct Hr as (_ & _ & Er & _). cbn [calculateNodeHeight] in *. lia.
  - pose proof (avl_ht_nonneg _ (proj1 Hl)). pose proof (avl_ht_nonneg _ (proj1 (proj2 Hl))).
    destruct Hl as (_ & _ & El & _). cbn [calculateNodeHeight] in *. lia.
Qed.

Lemma avl_three_nodes k v l r h :
  avl (Node k v l r h) -> 3 <= length (saveNodeToBinaryFile (Node k v l r h)) ->
  l <> Leaf /\ r <> Leaf.
Proof.
  intros Hav L. pose proof Hav as (Hl & Hr & _ & B). simpl in L. rewrite length_app in L.
  split; intros ->; simpl in L.
  - pose proof (avl_two_nodes_ht r Hr ltac:(lia)). cbn [calculateNodeHeight] in B. lia.
  - pose proof (avl_two_nodes_ht l Hl ltac:(lia)). cbn [calculateNodeHeight] in B. lia.
Qed.

(** Saving a reloaded snapshot writes the same file: the record
    sequence survives [initializeTree] followed by
    [saveTreeToBinaryFile], whatever the tree. *)
Theorem snapshot_file_stable (T : AVLTree) :
  saveTreeToBinaryFile (initializeTree (Some (saveTreeToBinaryFile T))) = saveTreeToBinaryFile T.
Proof. unfold saveTreeToBinaryFile at 1. rewrite initializeTree_root. apply save_spine. Qed.

(** (C36) After a reload the registry's in-order sequence is the file's
    pre-order sequence reversed, not the in-order sequence of the saved
    tree: the loader hangs every record under the previous one as its
    left child. *)
Theorem snapshot_reload_inorder (T : AVLTree) :
  displayVoterStatus (root (initializeTree (Some (saveTreeToBinaryFile T)))) =
  rev (map rec_entry (saveTreeToBinaryFile T)).
Proof. rewrite initializeTree_root. apply inorder_spine. Qed.

(** (C13) Every AVL search tree of at least three voters stops being a
    search tree once saved and reloaded: its root is followed in the
    file by the larger keys of its right subtree. *)
Theorem snapshot_reload_breaks_order (T : AVLTree) :
  avl (root T) -> bst (root T) -> 3 <= length (saveTreeToBinaryFile T) ->
  ~ bst (root (initializeTree (Some (saveTreeToBinaryFile T)))).
Proof.
  unfold saveTreeToBinaryFile. destruct (root T) as [|k v l r h] eqn:Er; [simpl; lia|].
  intros Ha Hb L3 Hb'. destruct (avl_three_nodes _ _ _ _ _ Ha L3) as [_ Hr].
  destruct (bst_node _ _ _ _ _ Hb) as (_ & _ & _ & Fr).
  destruct r as [|kr vr rl rr hr]; [contradiction|].
  assert (Hin : In (kr, vr) (displayVoterStatus (Node kr vr rl rr hr)))
    by (simpl; apply in_or_app; right; left; reflexivity).
  unfold bst in Hb'. rewrite initializeTree_root, inorder_spine in Hb'.
  cbn [saveNodeToBinaryFile map rev] in Hb'. rewrite <- app_nil_r with (l := rev _) in Hb'.
  apply StronglySorted_app_inv in Hb' as (_ & _ & F & _).
  rewrite Forall_forall in F, Fr.
  specialize (F (kr, vr)). lapply F; clear F; [intros F|].
  2:{ apply in_or_app; left; rewrite <- in_rev, map_app. apply in_or_app; right.
      exact (proj2 (save_entries_In (Node kr vr rl rr hr) (kr, vr)) Hin). } specialize (Fr _ Hin). unfold key_lt in F, Fr. simpl in F, Fr.
  rewrite strcmp_antisym, Fr in F. discriminate.
Qed.

Lemma snapshot_reload_breaks_order_witness :
  avl (root sample_registry) /\ bst (root sample_registry) /\
  3 <= length (saveTreeToBinaryFile sample_registry) /\
  ~ bst (root (initializeTree (Some (saveTreeToBinaryFile sample_registry)))).
Proof.
  assert (Ha : avl (root sample_registry)) by (apply avlb_spec; vm_compute; reflexivity).
  assert (Hb : bst (root sample_registry)) by (apply bstb_spec; vm_compute; reflexivity).
  assert (L : 3 <= length (saveTreeToBinaryFile sample_registry)) by (vm_compute; lia).
  split; [exact Ha|split; [exact Hb|split; [exact L|exact (snapshot_reload_breaks_order _ Ha Hb L)]]].
Defined.

End SnapshotTheorems.
