(* ===== verification/LedgerFile.v ===== *)
(** * Ledger file (src/avl.c: saveBlockchainToFile, loadBlockchainFromFile;
    src/blockchain.c: initializeBlockchain)

    The file is the concatenation of one record per block: two [size_t]
    lengths (8 bytes, little-endian, as on x86-64) of [voterID] and
    [candID] counting their NUL terminators, the two strings with their
    terminators, and the 32 bytes of [prevhash].  The loader reads
    records until a read comes up short; the strings it keeps are the C
    strings of the buffers read (the bytes before their first NUL).  The
    loop is modelled with fuel; the file's length is enough, since a
    record takes at least 50 bytes.  Allocation is assumed to succeed.
    Neither the Merkle root nor the cache is stored: [initializeBlockchain]
    empties the chain, resets [merkle_count] and keeps whatever
    [merkle_root] the structure held. *)

From Stdlib Require Import String List ZArith Lia.
From Stdlib Require Strings.Byte.
From coqutil Require Import Word.LittleEndianList.
From S2P Require Import Prelude Digest Chain Merkle Ledger Tally.
Import ListNotations.

Definition SIZE_T_BYTES : nat := 8.

Definition size_t_bytes (n : nat) : list Byte.byte := le_split SIZE_T_BYTES (Z.of_nat n).

(** [fread] of [n] bytes: [None] on a short read. *)
Definition read_bytes (n : nat) (bs : list Byte.byte) : option (list Byte.byte * list Byte.byte) :=
  if Nat.ltb (length bs) n then None else Some (firstn n bs, skipn n bs).

Definition read_size_t (bs : list Byte.byte) : option (nat * list Byte.byte) :=
  match read_bytes SIZE_T_BYTES bs with
  | Some (w, rest) => Some (Z.to_nat (le_combine w), rest)
  | None => None
  end.

(** One record as [saveBlockchainToFile] writes it. *)
Definition encode_block (b : block) : list Byte.byte :=
  let v := bytes_of (voterID b) ++ [Byte.x00] in
  let c := bytes_of (candID b) ++ [Byte.x00] in
  size_t_bytes (length v) ++ size_t_bytes (length c) ++ v ++ c ++ prevhash b.

Definition saveBlockchainToFile (bc : blockchain) : list Byte.byte :=
  concat (map encode_block (chain bc)).

(** One iteration of the loader's [while (1)] loop. *)
Definition decode_block (bs : list Byte.byte) : option (block * list Byte.byte) :=
  match read_size_t bs with
  | None => None
  | Some (voterID_len, bs1) =>
  match read_size_t bs1 with
  | None => None
  | Some (candID_len, bs2) =>
  match read_bytes voterID_len bs2 with
  | None => None
  | Some (v, bs3) =>
  match read_bytes candID_len bs3 with
  | None => None
  | Some (c, bs4) =>
  match read_bytes SHA256_DIGEST_LENGTH bs4 with
  | None => None
  | Some (h, bs5) =>
      Some (mkBlock (string_of_list_byte (cstr_prefix v)) (string_of_list_byte (cstr_prefix c)) h, bs5)
  end end end end end.

Fixpoint load_blocks (fuel : nat) (bs : list Byte.byte) : list block :=
  match fuel with
  | O => []
  | S fuel' =>
      match decode_block bs with
      | None => []
      | Some (b, rest) => b :: load_blocks fuel' rest
      end
  end.

(** [None] is a file that cannot be opened: the structure is left as it is. *)
Definition loadBlockchainFromFile (bc : blockchain) (file : option (list Byte.byte)) : blockchain :=
  match file with
  | None => bc
  | Some bs => mkBlockchain (load_blocks (length bs) bs) (merkle_root bc) (merkle_tree bc) (merkle_count bc)
  end.

Definition initializeBlockchain (bc : blockchain) (file : option (list Byte.byte)) : blockchain :=
  loadBlockchainFromFile (mkBlockchain [] (merkle_root bc) (merkle_tree bc) 0) file.

(** A block the file can carry: C strings without NUL, a 32-byte hash,
    lengths that fit a [size_t]. *)
Definition block_ok (b : block) : bool :=
  cstr_ok (voterID b) && cstr_ok (candID b) &&
  Nat.eqb (length (prevhash b)) SHA256_DIGEST_LENGTH &&
  Z.ltb (Z.of_nat (String.length (voterID b)) + 1) (2 ^ 64) &&
  Z.ltb (Z.of_nat (String.length (candID b)) + 1) (2 ^ 64).

Lemma read_bytes_app l rest : read_bytes (length l) (l ++ rest) = Some (l, rest).
Proof.
  unfold read_bytes. rewrite length_app. destruct (Nat.ltb_spec (length l + length rest) (length l)); [lia|].
  rewrite firstn_app, skipn_app, firstn_all, skipn_all, Nat.sub_diag. simpl.
  now rewrite app_nil_r.
Qed.

Lemma read_size_t_app n rest :
  (Z.of_nat n < 2 ^ 64)%Z -> read_size_t (size_t_bytes n ++ rest) = Some (n, rest).
Proof.
  intros Hn. unfold read_size_t, size_t_bytes.
  rewrite <- (length_le_split SIZE_T_BYTES (Z.of_nat n)) at 1. rewrite read_bytes_app.
  rewrite le_combine_split.
  replace (2 ^ (Z.of_nat SIZE_T_BYTES * 8))%Z with (2 ^ 64)%Z by reflexivity.
  rewrite Z.mod_small by lia. now rewrite Nat2Z.id.
Qed.

Lemma length_bytes_of s : length (bytes_of s) = String.length s.
Proof. unfold bytes_of, list_byte_of_string. induction s; simpl; congruence. Qed.

Lemma cstr_of_terminated s :
  cstr_ok s = true -> string_of_list_byte (cstr_prefix (bytes_of s ++ [Byte.x00])) = s.
Proof.
  intros H. rewrite cstr_prefix_app_nul by now apply bytes_of_no_nul.
  apply string_of_list_byte_of_string.
Qed.

Lemma decode_encode_block b rest :
  block_ok b = true -> decode_block (encode_block b ++ rest) = Some (b, rest).
Proof.
  unfold block_ok. rewrite !Bool.andb_true_iff, Nat.eqb_eq, !Z.ltb_lt.
  intros ((((Hv & Hc) & Hh) & Lv) & Lc).
  unfold encode_block, decode_block.
  set (v := bytes_of (voterID b) ++ [Byte.x00]). set (c := bytes_of (candID b) ++ [Byte.x00]).
  rewrite <- !app_assoc.
  rewrite read_size_t_app by (unfold v; rewrite length_app, length_bytes_of; simpl; lia).
  rewrite read_size_t_app by (unfold c; rewrite length_app, length_bytes_of; simpl; lia).
  rewrite !read_bytes_app. rewrite <- Hh, read_bytes_app.
  unfold v, c. rewrite !cstr_of_terminated by assumption. now destruct b.
Qed.

Lemma length_encode_block b : 1 <= length (encode_block b).
Proof. unfold encode_block, size_t_bytes. rewrite !length_app, length_le_split. unfold SIZE_T_BYTES. lia. Qed.

Lemma load_blocks_encode fuel c :
  Forall (fun b => block_ok b = true) c -> length c <= fuel ->
  load_blocks fuel (concat (map encode_block c)) = c.
Proof.
  revert fuel; induction c as [|b c IH]; intros fuel Hok Hf.
  - destruct fuel; reflexivity.
  - inversion Hok as [|? ? Hb Hc]; subst. destruct fuel as [|fuel]; [simpl in Hf; lia|].
    cbn [map concat load_blocks]. rewrite decode_encode_block by exact Hb.
    f_equal. apply IH; [exact Hc|simpl in Hf; lia].
Qed.

Lemma length_concat_encode c : length c <= length (concat (map encode_block c)).
Proof.
  induction c as [|b c IH]; simpl; [lia|]. rewrite length_app.
  pose proof (length_encode_block b). lia.
Qed.

Lemma initializeBlockchain_chain bc0 bc :
  Forall (fun b => block_ok b = true) (chain bc) ->
  chain (initializeBlockchain bc0 (Some (saveBlockchainToFile bc))) = chain bc.
Proof.
  intros Hok. unfold initializeBlockchain, loadBlockchainFromFile, saveBlockchainToFile. cbn [chain].
  apply load_blocks_encode; [exact Hok|apply length_concat_encode].
Qed.

Lemma block_ok_all c : forallb block_ok c = true -> Forall (fun b => block_ok b = true) c.
Proof. rewrite forallb_forall, Forall_forall. auto. Qed.

Section LedgerFileTheorems.
Context `{Digest} `{HeapView}.

(** (C10) Round trip of the ledger file: reloading what
    [saveBlockchainToFile] wrote gives back the same blocks in the same
    order (hence the same recomputed Merkle root), and saving again
    writes the same bytes. *)
Theorem ledger_file_roundtrip (bc0 bc : blockchain) :
  Forall (fun b => block_ok b = true) (chain bc) ->
  chain (initializeBlockchain bc0 (Some (saveBlockchainToFile bc))) = chain bc /\
  calculateMerkleRoot (chain (initializeBlockchain bc0 (Some (saveBlockchainToFile bc)))) =
    calculateMerkleRoot (chain bc) /\
  saveBlockchainToFile (initializeBlockchain bc0 (Some (saveBlockchainToFile bc))) = saveBlockchainToFile bc.
Proof.
  intros Hok. pose proof (initializeBlockchain_chain bc0 bc Hok) as E.
  split; [exact E|]. split; [now rewrite E|]. unfold saveBlockchainToFile at 1. now rewrite E.
Qed.

(** (C23) The stored root is not recomputed on reload: after
    [initializeBlockchain] the structure keeps the root it held before
    (in [main], uninitialised stack memory), so [countVotes] reports an
    integrity failure on an untouched reloaded ledger whenever that
    value differs from the ledger's root. *)
Theorem countVotes_after_reload (bc0 bc : blockchain) (r : hash) (roster : list string) :
  Forall (fun b => block_ok b = true) (chain bc) ->
  calculateMerkleRoot (chain bc) = Some r ->
  length (merkle_root bc0) = SHA256_DIGEST_LENGTH -> merkle_root bc0 <> r ->
  countVotes (initializeBlockchain bc0 (Some (saveBlockchainToFile bc))) roster = IntegrityFailure.
Proof.
  intros Hok Er L Ne. unfold countVotes. rewrite (initializeBlockchain_chain bc0 bc Hok), Er.
  cbn [merkle_root initializeBlockchain loadBlockchainFromFile].
  destruct (hashCompare r (merkle_root bc0)) eqn:C; [|reflexivity].
  apply hashCompare_true in C; [congruence| |exact L].
  destruct (proj2 (calculateMerkleRoot_domain (chain bc)) r Er); reflexivity.
Qed.

End LedgerFileTheorems.

Module LedgerFileWitnesses.
Import Toy LedgerWitnesses.

Lemma ledger_file_roundtrip_witness :
  Forall (fun b => block_ok b = true) (chain (run sample_votes)) /\
  chain (initializeBlockchain empty_ledger (Some (saveBlockchainToFile (run sample_votes)))) =
    chain (run sample_votes).
Proof.
  assert (Hok : Forall (fun b => block_ok b = true) (chain (run sample_votes)))
    by (apply block_ok_all; vm_compute; reflexivity).
  split; [exact Hok|]. exact (proj1 (ledger_file_roundtrip empty_ledger _ Hok)).
Defined.

(** The stack garbage standing for the uninitialised root in [main]. *)
Definition stale_root : hash := repeat Byte.xff 32.

Lemma countVotes_after_reload_witness :
  countVotes (initializeBlockchain (mkBlockchain [] stale_root [] 0)
                (Some (saveBlockchainToFile (run sample_votes)))) TallyWitnesses.roster12 = IntegrityFailure.
Proof.
  apply (countVotes_after_reload _ _ (merkle_root (run sample_votes))).
  - apply block_ok_all; vm_compute; reflexivity.
  - vm_compute; reflexivity.
  - reflexivity.
  - vm_compute. discriminate.
Defined.

End LedgerFileWitnesses.
