(* ===== verification/Session.v ===== *)
(** * GUI session (src/gui2.c: handleRegisterVoterEvents,
    handleCastVoteEvents, main)

    The state a running program keeps across events: the registry, the
    ledger, the two data files as they are on disk, and the message the
    screen shows.  The two "submit" branches of the event handlers are
    modelled whole, with their guards in the code's order; the typed
    text arrives as the [inputBuffer] and [candidateID] arguments (the
    editing of those buffers, focus and navigation are in [Gui.v]).  [startup] is what [main]
    does before its loop: a zeroed chain with an uninitialised root,
    then [initializeTree] and [initializeBlockchain] from the files.

    [step] is the program's transition relation: a registration, a
    successful cast-vote submit (an undefined [castVote] has no step),
    or a restart from the files on disk. *)

From Stdlib Require Import String List ZArith Lia Sorted.
From Stdlib Require Strings.Byte.
From S2P Require Import Prelude Registry Digest Chain Merkle Ledger Tally Snapshot LedgerFile.
Import ListNotations.

Inductive message : Type :=
| NoMessage
| PleaseEnterVoterID
| VoterRegistered
| VoterNotRegistered
| VoterAlreadyVoted
| PleaseEnterCandidateID
| VoteCastOK
| ErrorUpdatingStatus
| InvalidChoice.

Record session : Type := mkSession {
  voterTree : AVLTree;
  bc : blockchain;
  voter_file : option (list snap_record);
  chain_file : option (list Byte.byte);
  errorMessage : message
}.

Definition set_message (s : session) (m : message) : session :=
  mkSession (voterTree s) (bc s) (voter_file s) (chain_file s) m.

(** [strncpy(voterID, inputBuffer, sizeof(voterID) - 1)] with the
    terminator written after it: the first [n] characters. *)
Definition c_truncate (n : nat) (input : string) : string := substring 0 n input.

(** The "Register" button of [handleRegisterVoterEvents]: [char voterID[8]]. *)
Definition handleRegisterSubmit (s : session) (inputBuffer : string) : session :=
  let voterID := c_truncate 7 inputBuffer in
  if Nat.eqb (String.length voterID) 0 then set_message s PleaseEnterVoterID
  else
    let t := insertVoter (voterTree s) voterID in
    mkSession t (bc s) (Some (saveTreeToBinaryFile t)) (chain_file s) VoterRegistered.

Definition voted_of (node : VoterNode) : Z :=
  match node with Leaf => 0 | Node _ v _ _ _ => v end.

Section Handlers.
Context `{Digest} `{HeapView}.

(** The "Submit" button of [handleCastVoteEvents]: [char voterID[16]];
    [None] where [castVote] is undefined. *)
Definition handleCastSubmit (s : session) (inputBuffer candidateID : string) : option session :=
  let voterID := c_truncate 15 inputBuffer in
  if Nat.eqb (String.length voterID) 0 then Some (set_message s PleaseEnterVoterID)
  else match findVoter (root (voterTree s)) voterID with
  | None => Some (set_message s VoterNotRegistered)
  | Some voter =>
      if negb (Z.eqb (voted_of voter) 0) then Some (set_message s VoterAlreadyVoted)
      else if Nat.eqb (String.length candidateID) 0 then Some (set_message s PleaseEnterCandidateID)
      else match castVote voterID candidateID (bc s) with
      | None => None
      | Some bc' =>
          let (updateStatus, t) := updateVoting (voterTree s) voterID in
          if Z.eqb updateStatus 0 then
            Some (mkSession t bc' (Some (saveTreeToBinaryFile t))
                            (Some (saveBlockchainToFile bc')) VoteCastOK)
          else
            Some (mkSession t bc' (voter_file s) (Some (saveBlockchainToFile bc')) ErrorUpdatingStatus)
      end
  end.

(** [main] before its event loop; [garbage] is the uninitialised
    [bc.merkle_root]. *)
Definition startup (garbage : hash) (vfile : option (list snap_record))
    (cfile : option (list Byte.byte)) : session :=
  mkSession (initializeTree vfile)
            (initializeBlockchain (mkBlockchain [] garbage [] 0) cfile)
            vfile cfile NoMessage.

Inductive step : session -> session -> Prop :=
| step_register s input : step s (handleRegisterSubmit s input)
| step_cast s input cand s' : handleCastSubmit s input cand = Some s' -> step s s'
| step_restart s garbage : step s (startup garbage (voter_file s) (chain_file s)).

(** The steps of one run of the program, without restart. *)
Inductive live_step : session -> session -> Prop :=
| live_register s input : live_step s (handleRegisterSubmit s input)
| live_cast s input cand s' : handleCastSubmit s input cand = Some s' -> live_step s s'.

Inductive star {A} (R : A -> A -> Prop) : A -> A -> Prop :=
| star_refl a : star R a a
| star_step a b c : R a b -> star R b c -> star R a c.

End Handlers.

(** ** Facts on the abstract registry used by the session invariant *)

Module SessionFacts.
Import RegistryRefinement Search RegistryProps Balance.

Ltac cmp_simpl :=
  repeat first
    [ progress cbn [is_eq Spec.lookup Spec.insert CompOpp]
    | rewrite strcmp_refl
    | match goal with H : strcmp ?a ?b = _ |- context [strcmp ?a ?b] => rewrite H end
    | match goal with H : strcmp ?b ?a = _ |- context [strcmp ?a ?b] =>
        rewrite (strcmp_antisym b a), H end ].

Ltac cmp_cases a b :=
  let E := fresh "Ecmp" in
  destruct (strcmp a b) eqn:E; [apply strcmp_eq in E; subst| |].

Lemma lookup_insert_sorted x i l :
  StronglySorted key_lt l ->
  Spec.lookup x (Spec.insert i l) =
  if is_eq (strcmp x i) then
    match Spec.lookup i l with Some v => Some v | None => Some 0%Z end
  else Spec.lookup x l.
Proof.
  induction 1 as [|[k v] l Hs IH Hf]; cbn [Spec.insert Spec.lookup].
  - now destruct (is_eq (strcmp x i)).
  - destruct (strcmp i k) eqn:E1; destruct (strcmp x i) eqn:E2;
      repeat match goal with H : strcmp _ _ = Eq |- _ => apply strcmp_eq in H; subst end;
      cmp_simpl; try reflexivity; try (rewrite IH; cmp_simpl; reflexivity).
    + rewrite lookup_all_gt; [reflexivity|].
      eapply Forall_impl; [|exact Hf]. unfold key_lt; simpl; eauto using strcmp_trans.
Qed.

Lemma lookup_mark x i l :
  Spec.lookup x (snd (Spec.mark i l)) =
  if is_eq (strcmp x i) then
    match Spec.lookup i l with Some _ => Some 1%Z | None => None end
  else Spec.lookup x l.
Proof.
  induction l as [|[k w] l IH]; cbn [Spec.mark Spec.lookup snd]; [now destruct (is_eq _)|].
  remember (Spec.mark i l) as ml eqn:M. destruct ml as [res l'].
  destruct (strcmp i k) eqn:E1; destruct (strcmp x i) eqn:E2;
    repeat match goal with H : strcmp _ _ = Eq |- _ => apply strcmp_eq in H; subst end;
    cmp_simpl; try (destruct (Z.eqb_spec w 1); subst; cmp_simpl); cbn [snd] in *;
    cmp_simpl; try reflexivity; rewrite IH; cmp_simpl; reflexivity.
Qed.

Lemma length_substring n s : String.length (substring 0 n s) = Nat.min n (String.length s).
Proof. revert s; induction n as [|n IH]; intros [|a s]; simpl; auto. Qed.

Lemma lookup_some_In id l v : Spec.lookup id l = Some v -> In (id, v) l.
Proof.
  induction l as [|[k w] l IH]; cbn [Spec.lookup]; [discriminate|].
  destruct (strcmp id k) eqn:E; cbn [is_eq]; [apply strcmp_eq in E; subst; intros [= ->]; now left| |];
    intros H; right; auto.
Qed.

Lemma length_substring_le n s : String.length (substring 0 n s) <= n.
Proof.
  revert s; induction n as [|n IH]; intros [|a s]; simpl; try lia.
  specialize (IH s). lia.
Qed.

End SessionFacts.

Module SessionInvariant.
Import RegistryRefinement Search RegistryProps Balance SessionFacts.

(** Registered identifiers are nonempty, at most 7 characters (the
    [char voterID[8]] of the register handler) and voted is 0 or 1. *)
Definition entry_ok (p : string * Z) : Prop :=
  0 < String.length (fst p) <= 7 /\ (snd p = 0%Z \/ snd p = 1%Z).

Definition registry_ok (T : AVLTree) : Prop :=
  avl (root T) /\ bst (root T) /\ Forall entry_ok (displayVoterStatus (root T)).

(** The ledger holds at most one block per voter, and exactly the voters
    the registry marks as having voted. *)
Definition session_inv (s : session) : Prop :=
  registry_ok (voterTree s) /\ NoDup (map voterID (chain (bc s))) /\
  (forall id, In id (map voterID (chain (bc s))) <->
              Spec.lookup id (displayVoterStatus (root (voterTree s))) = Some 1%Z).

Lemma set_message_inv s m : session_inv s -> session_inv (set_message s m).
Proof. exact (fun H => H). Qed.

Lemma mark_In_entry id l p :
  In p (snd (Spec.mark id l)) -> In p l \/ (snd p = 1%Z /\ exists v, In (fst p, v) l).
Proof.
  induction l as [|[k w] l IH]; cbn [Spec.mark snd]; [tauto|].
  destruct (is_eq (strcmp id k)).
  - destruct (w =? 1)%Z; simpl; [tauto|]. intros [<-|H]; [right; simpl; eauto|auto].
  - destruct (Spec.mark id l) as [res l'] eqn:E; simpl in *. intros [<-|H]; [auto|].
    destruct (IH H) as [H'|[H1 [v Hv]]]; eauto.
Qed.

Lemma lookup_insert_one id x l :
  StronglySorted key_lt l ->
  Spec.lookup x (Spec.insert id l) = Some 1%Z <-> Spec.lookup x l = Some 1%Z.
Proof.
  intros S. rewrite lookup_insert_sorted by exact S.
  destruct (strcmp x id) eqn:E; cbn [is_eq]; [|reflexivity|reflexivity].
  apply strcmp_eq in E. subst.
  match goal with |- context [Spec.lookup ?y l] => destruct (Spec.lookup y l) end; split; congruence.
Qed.

Lemma register_inv `{Digest} `{HeapView} s input :
  session_inv s -> session_inv (handleRegisterSubmit s input).
Proof.
  intros (R & N & C). unfold handleRegisterSubmit.
  destruct (Nat.eqb_spec (String.length (c_truncate 7 input)) 0); [now apply set_message_inv|].
  destruct R as (Ha & Hb & F). unfold session_inv, registry_ok.
  cbn [voterTree bc root insertVoter].
  destruct (insertVoterNode_avl_bst _ (c_truncate 7 input) Ha Hb) as [Ha' Hb'].
  pose proof (insertVoterNode_refines _ (c_truncate 7 input) Hb) as E.
  split; [split; [exact Ha'|split; [exact Hb'|]]|split; [exact N|]].
  - rewrite E. apply Forall_forall. intros p Hp. apply insert_In in Hp as [Hp| ->].
    + exact (proj1 (Forall_forall _ _) F p Hp).
    + split; [pose proof (length_substring_le 7 input); simpl; unfold c_truncate in *; lia|now left].
  - intros x. rewrite E, lookup_insert_one by exact Hb. apply C.
Qed.
Lemma findVoter_not_leaf t id : findVoter t id <> Some Leaf.
Proof.
  induction t as [|k v l IHl r IHr h]; cbn [findVoter]; [discriminate|].
  destruct (strcmp id k); [discriminate|exact IHl|exact IHr].
Qed.

Lemma voter_found s id voter :
  session_inv s -> findVoter (root (voterTree s)) id = Some voter -> voted_of voter = 0%Z ->
  Spec.lookup id (displayVoterStatus (root (voterTree s))) = Some 0%Z.
Proof.
  intros ((_ & Hb & _) & _ & _) F V. pose proof (findVoter_refines _ id Hb) as R.
  rewrite F in R. destruct voter as [|k v l r h]; [now apply findVoter_not_leaf in F|].
  destruct R as [_ R]. simpl in V. congruence.
Qed.

Lemma cast_inv `{Digest} `{HeapView} s input cand s' :
  session_inv s -> handleCastSubmit s input cand = Some s' -> session_inv s'.
Proof.
  intros I. pose proof I as ((Ha & Hb & F) & N & C). unfold handleCastSubmit.
  set (id := c_truncate 15 input).
  destruct (Nat.eqb_spec (String.length id) 0); [intros [= <-]; now apply set_message_inv|].
  destruct (findVoter (root (voterTree s)) id) as [voter|] eqn:Fv;
    [|intros [= <-]; now apply set_message_inv].
  destruct (Z.eqb_spec (voted_of voter) 0) as [V0|]; cbn [negb];
    [|intros [= <-]; now apply set_message_inv].
  destruct (Nat.eqb_spec (String.length cand) 0); [intros [= <-]; now apply set_message_inv|].
  destruct (castVote id cand (bc s)) as [bc'|] eqn:Cv; [|discriminate].
  pose proof (voter_found s id voter I Fv V0) as L0.
  pose proof (updateVotingStatus_refines (root (voterTree s)) id Hb) as U.
  pose proof (updateVotingStatus_avl (root (voterTree s)) id Ha) as A.
  unfold updateVoting. destruct (updateVotingStatus (root (voterTree s)) id) as [res t] eqn:Ut.
  destruct (mark_found id _ 0 L0 ltac:(discriminate)) as [M0 M1].
  rewrite <- U in M0, M1. cbn [fst snd] in M0, M1. subst res. cbn [Z.eqb].
  intros [= <-]. destruct (castVote_chain _ _ _ _ Cv) as [Ec _].
  pose proof (mark_sorted id _ Hb) as S. rewrite <- U in S. cbn [snd] in S.
  unfold session_inv, registry_ok. cbn [voterTree bc root]. simpl in A.
  rewrite Ec, map_app. cbn [map new_block voterID].
  assert (Hid : ~ In id (map voterID (chain (bc s)))) by (rewrite C, L0; discriminate).
  split; [split; [exact A|split; [exact S|]]|split].
  - apply Forall_forall. intros p Hp.
    pose proof (f_equal snd U) as U2. cbn [snd] in U2. rewrite U2 in Hp.
    destruct (mark_In_entry _ _ _ Hp) as [Hp'|[E1 [v Hv]]].
    + exact (proj1 (Forall_forall _ _) F p Hp').
    + pose proof (proj1 (Forall_forall _ _) F _ Hv) as [Lk _]. split; [exact Lk|now right].
  - apply NoDup_app; [exact N|repeat constructor; simpl; tauto|].
    intros x Hx [<-|[]]. contradiction.
  - intros x. pose proof (f_equal snd U) as U2. cbn [snd] in U2. rewrite U2, lookup_mark.
    rewrite in_app_iff. cbn [In].
    destruct (strcmp x id) eqn:E; cbn [is_eq].
    + apply strcmp_eq in E. subst x. rewrite L0. tauto.
    + rewrite <- C. split; [intros [H1|[H1|[]]]; [exact H1|subst; rewrite strcmp_refl in E; discriminate]|auto].
    + rewrite <- C. split; [intros [H1|[H1|[]]]; [exact H1|subst; rewrite strcmp_refl in E; discriminate]|auto].
Qed.

End SessionInvariant.

Module SessionTheorems.
Import RegistryRefinement Search SessionFacts SessionInvariant.

Section WithDigest.
Context `{Digest} `{HeapView}.

Lemma startup_inv garbage : session_inv (startup garbage None None).
Proof.
  unfold session_inv, registry_ok, startup. cbn.
  split; [split; [exact I|split; constructor]|split; [constructor|]]. cbn. split; [tauto|discriminate].
Qed.

Lemma live_star_inv s s' : star live_step s s' -> session_inv s -> session_inv s'.
Proof.
  induction 1 as [a|a b c Hab _ IH]; auto.
  intros I. apply IH. destruct Hab; eauto using register_inv, cast_inv.
Qed.

(** (C9) One vote per voter within a run: in every state a run of the
    program reaches from a fresh install by registrations and vote
    submissions, the ledger holds at most one block per voter, and the
    voters with a block are exactly those the registry marks as voted. *)
Theorem one_vote_per_voter (garbage : hash) (s : session) :
  star live_step (startup garbage None None) s ->
  NoDup (map voterID (chain (bc s))) /\
  (forall id, In id (map voterID (chain (bc s))) <->
              Spec.lookup id (displayVoterStatus (root (voterTree s))) = Some 1%Z).
Proof.
  intros R. destruct (live_star_inv _ _ R (startup_inv garbage)) as (_ & N & C). now split.
Qed.

(** (C35) An identifier typed with 8 characters or more can never vote:
    registration keeps its first 7 characters ([char voterID[8]]) while
    the cast-vote handler looks up its first 15 ([char voterID[16]]),
    so in every state of a run the submit reports "Voter not
    registered". *)
Theorem long_id_never_votes (garbage : hash) (s : session) (inputBuffer candidateID : string) :
  star live_step (startup garbage None None) s -> 8 <= String.length inputBuffer ->
  handleCastSubmit s inputBuffer candidateID = Some (set_message s VoterNotRegistered).
Proof.
  intros R L. destruct (live_star_inv _ _ R (startup_inv garbage)) as ((_ & Hb & F) & _ & _).
  unfold handleCastSubmit. set (id := c_truncate 15 inputBuffer).
  assert (Lid : 8 <= String.length id) by (unfold id, c_truncate; rewrite length_substring; lia).
  destruct (Nat.eqb_spec (String.length id) 0); [lia|].
  pose proof (findVoter_refines _ id Hb) as Fr.
  destruct (findVoter (root (voterTree s)) id) as [[|k v l r h]|] eqn:Fv; [|exfalso|reflexivity].
  - exfalso. now apply findVoter_not_leaf in Fv.
  - destruct Fr as [-> Fr]. apply lookup_some_In in Fr.
    destruct (proj1 (Forall_forall _ _) F _ Fr) as [Lk _]. simpl in Lk. lia.
Qed.

End WithDigest.
End SessionTheorems.

Module SessionWitnesses.
Import Toy SessionTheorems.
Local Open Scope string_scope.
Local Open Scope list_scope.

Definition garbage : hash := repeat Byte.xff 32.
Definition fresh : session := startup garbage None None.

Definition cast (s : session) (input cand : string) : session :=
  match handleCastSubmit s input cand with Some s' => s' | None => s end.

Lemma cast_step (R : session -> session -> Prop) s input cand :
  (forall s', handleCastSubmit s input cand = Some s' -> R s s') ->
  handleCastSubmit s input cand <> None -> R s (cast s input cand).
Proof.
  unfold cast. destruct (handleCastSubmit s input cand); [auto|congruence].
Qed.

Definition s1 : session := handleRegisterSubmit fresh "V2".
Definition s2 : session := handleRegisterSubmit s1 "V1".
Definition s3 : session := handleRegisterSubmit s2 "V3".
Definition s4 : session := cast s3 "V1" "C1".
Definition s5 : session := cast s4 "V2" "C2".
Definition voted_all : session := cast s5 "V3" "C1".
Definition after_restart : session :=
  startup garbage (voter_file voted_all) (chain_file voted_all).
Definition s8 : session := handleRegisterSubmit after_restart "V3".
Definition double_vote : session := cast s8 "V3" "C2".

Ltac run_cast i c :=
  match goal with |- star _ ?s _ =>
    apply (star_step _ s (cast s i c));
    [apply (cast_step _ s i c); [intros ? E; first [exact (live_cast _ _ _ _ E) | exact (step_cast _ _ _ _ E)]
                      | vm_compute; discriminate] |]
  end.

Ltac run_register i :=
  match goal with |- star _ ?s _ =>
    apply (star_step _ s (handleRegisterSubmit s i));
    [first [exact (live_register s i) | exact (step_register s i)] |]
  end.

Ltac next t := apply (star_step _ _ t); [unfold t|].

Lemma one_vote_per_voter_witness :
  star live_step fresh (cast (handleRegisterSubmit fresh "V1") "V1" "C1") /\
  NoDup (map voterID (chain (bc (cast (handleRegisterSubmit fresh "V1") "V1" "C1")))).
Proof.
  assert (R : star live_step fresh (cast (handleRegisterSubmit fresh "V1") "V1" "C1")).
  { run_register "V1".
    run_cast "V1" "C1".
    apply star_refl. }
  split; [exact R|]. exact (proj1 (one_vote_per_voter garbage _ R)).
Defined.

Lemma long_id_never_votes_witness :
  handleCastSubmit (handleRegisterSubmit fresh "ABCDEFGHIJ") "ABCDEFGHIJ" "C1" =
  Some (set_message (handleRegisterSubmit fresh "ABCDEFGHIJ") VoterNotRegistered).
Proof.
  apply (long_id_never_votes garbage); [|vm_compute; lia].
  run_register "ABCDEFGHIJ". apply star_refl.
Defined.

(** (C12) One vote per voter does not survive a restart: from a fresh
    install three voters register and vote, the program restarts from
    its files, the reloaded registry no longer finds voter V3 (the
    right child of the root in the saved tree ends up on the left spine
    of the reloaded one), V3 registers again and votes a second time,
    and the ledger holds two ballots of V3. *)
Theorem double_vote_after_restart :
  star step fresh double_vote /\ ~ NoDup (map voterID (chain (bc double_vote))).
Proof.
  split.
  - next s1; [apply step_register|]. next s2; [apply step_register|].
    next s3; [apply step_register|].
    next s4; [apply cast_step; [apply step_cast|vm_compute; discriminate]|].
    next s5; [apply cast_step; [apply step_cast|vm_compute; discriminate]|].
    next voted_all; [apply cast_step; [apply step_cast|vm_compute; discriminate]|].
    next after_restart; [apply step_restart|].
    next s8; [apply step_register|].
    next double_vote; [apply cast_step; [apply step_cast|vm_compute; discriminate]|].
    apply star_refl.
  - vm_compute. intros N. inversion N as [|? ? _ N1]. inversion N1 as [|? ? _ N2].
    inversion N2 as [|? ? H3 _]. apply H3. now left.
Qed.

End SessionWitnesses.
