(* ===== verification/Gui.v ===== *)
(** * The event loop of the front end (src/gui2.c: handleMainMenuEvents,
    handleRegisterVoterEvents, handleCastVoteEvents,
    handleCandidateManagementEvents, main; src/blockchain.c:
    hasTimePassed, destroyAndExit)

    [gui] is [GUIState] together with the three buffers of static
    storage the handlers use: the file-scope [candidateID] (gui2.c:23),
    which the register screen fills once its input is full and which
    [main] passes to [renderCastVoteScreen], and the [static]
    [candidateID] and [inputFocus] of [handleCastVoteEvents].  The
    registry, ledger, data files and message are the [session] of
    [Session.v], whose submit branches the handlers call.

    Each handler is modelled whole on the events it reads (mouse
    clicks by coordinates, text input, the keys it tests); [None] is
    undefined behaviour: a [strcat] past the end of its buffer, or a
    [castVote] that overflows the Merkle arrays.  [poll_events] is the
    [while (SDL_PollEvent(&e))] loop, with the [SDL_QUIT] that the Exit
    button pushes appended to the queue; [main_loop] is the outer
    [while (!quit)] loop over frames, each frame the clock reading and
    the events polled in it.  What each frame draws is in [Render.v]. *)

From Stdlib Require Import String List ZArith Lia Bool.
From S2P Require Import Prelude Registry Digest Chain Merkle Ledger Tally Roster Snapshot LedgerFile Session.
Import ListNotations.

Local Open Scope Z_scope.
Local Open Scope bool_scope.

Inductive keysym : Type := SDLK_BACKSPACE | SDLK_0 | SDLK_1 | SDLK_other.

Inductive event : Type :=
| SDL_MOUSEBUTTONDOWN (x y : Z)
| SDL_TEXTINPUT (text : string)
| SDL_KEYDOWN (sym : keysym)
| SDL_QUIT
| SDL_other.

Record gui : Type := mkGui {
  state : session;
  integrityFailed : Z;
  inputBuffer : string;
  currentScreen : Z;
  candidateID : string;
  castCandidateID : string;
  inputFocus : Z
}.

(** [sizeof(inputBuffer) - 1] and [sizeof(candidateID) - 1]. *)
Definition INPUT_CAPACITY : nat := 49.
Definition CANDIDATE_CAPACITY : nat := 31.

Definition set_state (g : gui) (s : session) : gui :=
  mkGui s (integrityFailed g) (inputBuffer g) (currentScreen g) (candidateID g) (castCandidateID g) (inputFocus g).
Definition set_inputBuffer (g : gui) (b : string) : gui :=
  mkGui (state g) (integrityFailed g) b (currentScreen g) (candidateID g) (castCandidateID g) (inputFocus g).
Definition set_screen (g : gui) (n : Z) : gui :=
  mkGui (state g) (integrityFailed g) (inputBuffer g) n (candidateID g) (castCandidateID g) (inputFocus g).
Definition set_candidateID (g : gui) (c : string) : gui :=
  mkGui (state g) (integrityFailed g) (inputBuffer g) (currentScreen g) c (castCandidateID g) (inputFocus g).
Definition set_castCandidateID (g : gui) (c : string) : gui :=
  mkGui (state g) (integrityFailed g) (inputBuffer g) (currentScreen g) (candidateID g) c (inputFocus g).
Definition set_focus (g : gui) (f : Z) : gui :=
  mkGui (state g) (integrityFailed g) (inputBuffer g) (currentScreen g) (candidateID g) (castCandidateID g) f.

(** [strcpy(guiState->errorMessage, ...)]; [errorMessage[0] = '\0'] is [NoMessage]. *)
Definition gui_message (g : gui) (m : message) : gui := set_state g (set_message (state g) m).

(** [x >= x0 && x <= x1 && y >= y0 && y <= y1]. *)
Definition in_box (x y x0 x1 y0 y1 : Z) : bool :=
  (x0 <=? x) && (x <=? x1) && (y0 <=? y) && (y <=? y1).

(** [buf[strlen(buf) - 1] = '\0']. *)
Definition drop_last (s : string) : string := substring 0 (String.length s - 1) s.

(** [strcat(buf, text)] into a buffer of [cap + 1] bytes: undefined
    when the result and its terminator do not fit. *)
Definition strcat_checked (cap : nat) (buf text : string) : option string :=
  if Nat.leb (String.length buf + String.length text) cap then Some (buf ++ text)%string else None.

(** [strncat(buf, text, cap + 1 - strlen(buf) - 1)]. *)
Definition strncat_bounded (cap : nat) (buf text : string) : string :=
  (buf ++ substring 0 (cap - String.length buf) text)%string.

Definition is_message (m : message) (s : session) : bool :=
  match m, errorMessage s with
  | VoterRegistered, VoterRegistered | VoteCastOK, VoteCastOK => true
  | _, _ => false
  end.

(** [handleMainMenuEvents]: the new state and the events it pushes. *)
Definition handleMainMenuEvents (g : gui) (e : event) : gui * list event :=
  match e with
  | SDL_MOUSEBUTTONDOWN x y =>
      if in_box x y 350 650 200 250 then (gui_message (set_screen g 1) NoMessage, [])
      else if in_box x y 350 650 270 320 then (gui_message (set_screen g 2) NoMessage, [])
      else if in_box x y 350 650 340 390 then (gui_message (set_screen g 3) NoMessage, [])
      else if in_box x y 350 650 550 600 then (g, [SDL_QUIT])
      else (g, [])
  | _ => (g, [])
  end.

(** The Register button's branch of [handleRegisterVoterEvents]: it
    clears the input exactly when it registered ([VoterRegistered] is
    set only there). *)
Definition register_submit (g : gui) : gui :=
  let s' := handleRegisterSubmit (state g) (inputBuffer g) in
  if is_message VoterRegistered s' then set_inputBuffer (set_state g s') ""
  else set_state g s'.

(** [handleRegisterVoterEvents]. *)
Definition handleRegisterVoterEvents (g : gui) (e : event) : option gui :=
  match e with
  | SDL_MOUSEBUTTONDOWN x y =>
      if in_box x y 350 650 420 470 then
        Some (set_inputBuffer (gui_message (set_screen g 0) NoMessage) "")
      else if in_box x y 350 650 350 400 then Some (register_submit g)
      else Some g
  | SDL_TEXTINPUT text =>
      if Nat.ltb (String.length (inputBuffer g)) INPUT_CAPACITY then
        option_map (set_inputBuffer g) (strcat_checked INPUT_CAPACITY (inputBuffer g) text)
      else if Nat.ltb (String.length (candidateID g)) CANDIDATE_CAPACITY then
        option_map (set_candidateID g) (strcat_checked CANDIDATE_CAPACITY (candidateID g) text)
      else Some g
  | SDL_KEYDOWN SDLK_BACKSPACE =>
      if Nat.ltb 0 (String.length (candidateID g)) then Some (set_candidateID g (drop_last (candidateID g)))
      else if Nat.ltb 0 (String.length (inputBuffer g)) then Some (set_inputBuffer g (drop_last (inputBuffer g)))
      else Some g
  | _ => Some g
  end.

Section CastScreen.
Context `{Digest} `{HeapView}.

(** The Submit button's branch of [handleCastVoteEvents]: the input
    and the [static] candidate buffer are cleared on success only. *)
Definition cast_submit (g2 : gui) : option gui :=
  match handleCastSubmit (state g2) (inputBuffer g2) (castCandidateID g2) with
  | None => None
  | Some s' =>
      Some (if is_message VoteCastOK s'
            then set_castCandidateID (set_inputBuffer (set_state g2 s') "") ""
            else set_state g2 s')
  end.

(** [handleCastVoteEvents].  Its null checks and the "System error"
    branch never fire: [main] passes the addresses of its own locals. *)
Definition handleCastVoteEvents (g : gui) (e : event) : option gui :=
  match e with
  | SDL_MOUSEBUTTONDOWN x y =>
      let g1 := if in_box x y 350 650 200 250 then set_focus g 0 else g in
      let g2 := if in_box x y 350 650 300 350 then set_focus g1 1 else g1 in
      if in_box x y 350 495 400 450 then
        Some (set_castCandidateID (set_inputBuffer (gui_message (set_screen g2 0) NoMessage) "") "")
      else if in_box x y 505 650 400 450 then cast_submit g2
      else Some g2
  | SDL_TEXTINPUT text =>
      if (inputFocus g =? 0) && Nat.ltb (String.length (inputBuffer g)) INPUT_CAPACITY then
        Some (set_inputBuffer g (strncat_bounded INPUT_CAPACITY (inputBuffer g) text))
      else if (inputFocus g =? 1) && Nat.ltb (String.length (castCandidateID g)) CANDIDATE_CAPACITY then
        Some (set_castCandidateID g (strncat_bounded CANDIDATE_CAPACITY (castCandidateID g) text))
      else Some g
  | SDL_KEYDOWN SDLK_BACKSPACE =>
      if (inputFocus g =? 0) && Nat.ltb 0 (String.length (inputBuffer g)) then
        Some (set_inputBuffer g (drop_last (inputBuffer g)))
      else if (inputFocus g =? 1) && Nat.ltb 0 (String.length (castCandidateID g)) then
        Some (set_castCandidateID g (drop_last (castCandidateID g)))
      else Some g
  | _ => Some g
  end.

End CastScreen.

(** [handleCandidateManagementEvents]: key 1 only prints the roster. *)
Definition handleCandidateManagementEvents (g : gui) (e : event) : gui :=
  match e with
  | SDL_KEYDOWN SDLK_1 => g
  | SDL_KEYDOWN SDLK_0 => set_screen g 0
  | SDL_KEYDOWN _ => gui_message g InvalidChoice
  | _ => g
  end.

Section MainLoop.
Context `{Digest} `{HeapView}.

(** The [switch (guiState.currentScreen)] of the poll loop. *)
Definition handle_event (g : gui) (e : event) : option (gui * list event) :=
  if currentScreen g =? 0 then Some (handleMainMenuEvents g e)
  else if currentScreen g =? 1 then option_map (fun g' => (g', [])) (handleRegisterVoterEvents g e)
  else if currentScreen g =? 2 then option_map (fun g' => (g', [])) (handleCastVoteEvents g e)
  else if currentScreen g =? 3 then Some (handleCandidateManagementEvents g e, [])
  else Some (g, []).

Definition is_quit (e : event) : bool := match e with SDL_QUIT => true | _ => false end.

Inductive poll_result : Type :=
| Polled (g : gui) (quit : bool)
| PollUndefined
| PollOutOfFuel.

(** [while (SDL_PollEvent(&e) != 0)]: [quit] is set by an [SDL_QUIT]
    and the event is still dispatched; pushed events join the queue.
    [PollOutOfFuel] never happens with the fuel [main_loop] gives
    ([poll_events_terminates]). *)
Fixpoint poll_events (fuel : nat) (queue : list event) (g : gui) (quit : bool) : poll_result :=
  match queue with
  | [] => Polled g quit
  | e :: queue' =>
      match fuel with
      | O => PollOutOfFuel
      | S fuel' =>
          match handle_event g e with
          | None => PollUndefined
          | Some (g', pushed) => poll_events fuel' (queue' ++ pushed) g' (quit || is_quit e)
          end
      end
  end.

(** [hasTimePassed("voting_time.txt")]: [None] is a file that cannot
    be opened; the file holds the number [main] wrote. *)
Definition hasTimePassed (file : option Z) (current_time : Z) : bool :=
  match file with
  | None => false
  | Some file_time => file_time <=? current_time
  end.

Inductive run_result : Type :=
| Tallied (g : gui) (tally : option tally_result)
| Closed (g : gui)
| Running (g : gui)
| RunUndefined.

(** [countVotes(&bc, candidates, numCandidates)]: [None] when
    [loadCandidatesFromFile] left [numCandidates] uninitialised. *)
Definition final_tally (g : gui) (roster : option (list Candidate)) : option tally_result :=
  option_map (fun cs => countVotes (bc (state g)) (roster_ids cs)) roster.

(** [while (!quit)]: one frame per element, the clock read by
    [hasTimePassed] and the events polled in that frame. *)
Fixpoint main_loop (frames : list (Z * list event)) (timer : option Z)
    (roster : option (list Candidate)) (g : gui) : run_result :=
  match frames with
  | [] => Running g
  | (now, events) :: frames' =>
      if hasTimePassed timer now then Tallied g (final_tally g roster)
      else match poll_events (2 * length events) events g false with
           | Polled g' true => Closed g'
           | Polled g' false => main_loop frames' timer roster g'
           | _ => RunUndefined
           end
  end.

(** [main] after SDL's setup: the expiration time written to
    [voting_time.txt] (30 seconds from [start]; the write is assumed to
    succeed), the state of [startup], a zeroed [GUIState] and the
    roster read from [candidates.txt]. *)
Definition main_gui (garbage : hash) (vfile : option (list snap_record)) (cfile : option (list Byte.byte)) : gui :=
  mkGui (startup garbage vfile cfile) 0 "" 0 "" "" 0.

Definition main (start : Z) (garbage : hash) (vfile : option (list snap_record))
    (cfile : option (list Byte.byte)) (candidates_file : option string)
    (frames : list (Z * list event)) : run_result :=
  main_loop frames (Some (start + 30)) (loadCandidatesFromFile candidates_file)
            (main_gui garbage vfile cfile).

End MainLoop.

(** [destroyAndExit]: both data files truncated (no caller in [main]). *)
Definition destroyAndExit (s : session) : session :=
  mkSession (voterTree s) (bc s) (Some []) (Some []) (errorMessage s).

(** ** Facts on the handlers *)

Module GuiFacts.
Import SessionInvariant SessionTheorems.

(** Case analysis on the [if]s and [match]es of a handler equation. *)
Ltac gui_cases H :=
  repeat match type of H with
  | context [if ?c then _ else _] => let E := fresh "E" in destruct c eqn:E
  | context [match ?o with Some _ => _ | None => _ end] =>
      let E := fresh "E" in destruct o eqn:E
  | context [option_map _ ?o] => let E := fresh "E" in destruct o eqn:E; cbn [option_map] in H
  end.

Definition buffers_ok (g : gui) : Prop :=
  (String.length (inputBuffer g) <= INPUT_CAPACITY)%nat /\
  (String.length (candidateID g) <= CANDIDATE_CAPACITY)%nat /\
  (String.length (castCandidateID g) <= CANDIDATE_CAPACITY)%nat.

Lemma length_drop_last s : (String.length (drop_last s) <= String.length s)%nat.
Proof. unfold drop_last. pose proof (SessionFacts.length_substring (String.length s - 1) s). lia. Qed.

Lemma length_strncat_bounded cap b t :
  (String.length b <= cap)%nat -> (String.length (strncat_bounded cap b t) <= cap)%nat.
Proof.
  unfold strncat_bounded. rewrite str_length_app.
  pose proof (SessionFacts.length_substring_le (cap - String.length b) t). lia.
Qed.

Lemma strcat_checked_length cap b t r :
  strcat_checked cap b t = Some r -> (String.length r <= cap)%nat.
Proof.
  unfold strcat_checked. destruct (Nat.leb_spec (String.length b + String.length t) cap); [|discriminate].
  intros [= <-]. now rewrite str_length_app.
Qed.

#[local] Hint Resolve length_strncat_bounded strcat_checked_length : voting.

Lemma drop_last_bound s n : (String.length s <= n)%nat -> (String.length (drop_last s) <= n)%nat.
Proof. pose proof (length_drop_last s). lia. Qed.

#[local] Hint Resolve drop_last_bound : voting.

Ltac bounds_close :=
  unfold buffers_ok in *; cbn [inputBuffer candidateID castCandidateID state set_state set_inputBuffer
    set_screen set_candidateID set_castCandidateID set_focus gui_message] in *;
  repeat split; try (simpl; lia); intuition eauto with voting.

Lemma register_bounds g e g' :
  buffers_ok g -> handleRegisterVoterEvents g e = Some g' -> buffers_ok g'.
Proof.
  intros B H. unfold handleRegisterVoterEvents, register_submit in H.
  destruct e as [x y|t|[]| |]; gui_cases H; try discriminate; injection H as <-; bounds_close.
Qed.

Section WithDigest.
Context {D : Digest} {HV : HeapView}.

Lemma cast_bounds g e g' :
  buffers_ok g -> handleCastVoteEvents g e = Some g' -> buffers_ok g'.
Proof.
  intros B H. unfold handleCastVoteEvents, cast_submit in H.
  destruct e as [x y|t|[]| |]; gui_cases H; try discriminate; injection H as <-; bounds_close.
Qed.

Lemma main_menu_bounds g e : buffers_ok g -> buffers_ok (fst (handleMainMenuEvents g e)).
Proof.
  intros B. unfold handleMainMenuEvents.
  destruct e; repeat match goal with |- context [if ?c then _ else _] => destruct c end;
    cbn [fst]; bounds_close.
Qed.

Lemma candidate_menu_bounds g e : buffers_ok g -> buffers_ok (handleCandidateManagementEvents g e).
Proof. intros B. destruct e as [| |[]| |]; bounds_close. Qed.

Lemma handle_event_bounds g e g' pushed :
  buffers_ok g -> handle_event g e = Some (g', pushed) -> buffers_ok g'.
Proof.
  intros B Hh. unfold handle_event in Hh. gui_cases Hh; try discriminate; injection Hh as Hh.
  - replace g' with (fst (handleMainMenuEvents g e)) by now rewrite Hh. now apply main_menu_bounds.
  - subst. eauto using register_bounds.
  - subst. eauto using cast_bounds.
  - subst. now apply candidate_menu_bounds.
  - now subst.
Qed.

(** What one event does to the registry, ledger and files: nothing, a
    new message, or one step of [Session.live_step]. *)
Lemma handle_event_effect g e g' pushed :
  handle_event g e = Some (g', pushed) ->
  state g' = state g \/ (exists m, state g' = set_message (state g) m) \/ live_step (state g) (state g').
Proof.
  intros Hh. unfold handle_event in Hh. gui_cases Hh; try discriminate; injection Hh as Hh.
  - replace g' with (fst (handleMainMenuEvents g e)) by now rewrite Hh.
    unfold handleMainMenuEvents. destruct e; repeat match goal with |- context [if ?c then _ else _] => destruct c end;
      cbn; eauto.
  - subst. match goal with E : handleRegisterVoterEvents _ _ = Some _ |- _ => rename E into Er end.
    unfold handleRegisterVoterEvents, register_submit in Er.
    destruct e as [x y|t|[]| |]; gui_cases Er; try discriminate; injection Er as <-; cbn; eauto;
      right; right; constructor.
  - subst. match goal with E : handleCastVoteEvents _ _ = Some _ |- _ => rename E into Ec end.
    unfold handleCastVoteEvents, cast_submit in Ec.
    destruct e as [x y|t|[]| |]; gui_cases Ec; try discriminate; injection Ec as <-; cbn; eauto;
      right; right; eapply live_cast; eassumption.
  - subst. destruct e as [| |[]| |]; cbn; eauto.
  - subst. auto.
Qed.

End WithDigest.

(** The queue measure of [poll_events]: only a main-menu click can push
    an event, and it pushes one [SDL_QUIT]. *)
Definition event_weight (e : event) : nat :=
  match e with SDL_MOUSEBUTTONDOWN _ _ => 2 | _ => 1 end.

Definition queue_weight (q : list event) : nat := fold_right (fun e n => (event_weight e + n)%nat) 0%nat q.

Lemma queue_weight_app q1 q2 : queue_weight (q1 ++ q2) = (queue_weight q1 + queue_weight q2)%nat.
Proof. induction q1; simpl; lia. Qed.

Lemma queue_weight_le q : (queue_weight q <= 2 * length q)%nat.
Proof. induction q as [|e q IH]; simpl; [lia|]. destruct e; simpl; lia. Qed.

Lemma handle_event_pushed `{Digest} `{HeapView} g e g' pushed :
  handle_event g e = Some (g', pushed) -> (queue_weight pushed < event_weight e)%nat.
Proof.
  intros Hh. unfold handle_event in Hh. gui_cases Hh; try discriminate; injection Hh as Hh;
    try (subst; destruct e; simpl; lia).
  unfold handleMainMenuEvents in Hh. destruct e; gui_cases Hh; injection Hh as _ <-; simpl; lia.
Qed.

(** ** Runs preserve what every event preserves *)

Section Runs.
Context {D : Digest} {HV : HeapView}.
Variable P : gui -> Prop.
Hypothesis P_event : forall g e g' pushed, P g -> handle_event g e = Some (g', pushed) -> P g'.

Lemma poll_events_preserves fuel q g quit g' quit' :
  P g -> poll_events fuel q g quit = Polled g' quit' -> P g'.
Proof.
  revert q g quit; induction fuel as [|fuel IH]; intros [|e q] g quit Pg Hp; cbn [poll_events] in Hp;
    try discriminate; try (injection Hp as <- _; exact Pg).
  destruct (handle_event g e) as [[g1 p]|] eqn:E; [|discriminate].
  exact (IH _ _ _ (P_event _ _ _ _ Pg E) Hp).
Qed.

Definition run_state (r : run_result) : option gui :=
  match r with Tallied g _ | Closed g | Running g => Some g | RunUndefined => None end.

Lemma main_loop_preserves frames timer roster g g' :
  P g -> run_state (main_loop frames timer roster g) = Some g' -> P g'.
Proof.
  revert g; induction frames as [|[now evs] frames IH]; intros g Pg; cbn [main_loop].
  - intros [= <-]. exact Pg.
  - destruct (hasTimePassed timer now); [intros [= <-]; exact Pg|].
    destruct (poll_events (2 * length evs) evs g false) as [g1 [|]| |] eqn:E; try discriminate.
    + intros [= <-]. exact (poll_events_preserves _ _ _ _ _ _ Pg E).
    + apply IH. exact (poll_events_preserves _ _ _ _ _ _ Pg E).
Qed.

End Runs.

Lemma poll_events_quit `{Digest} `{HeapView} fuel q g quit g' quit' :
  poll_events fuel q g quit = Polled g' quit' -> quit = true \/ In SDL_QUIT q -> quit' = true.
Proof.
  revert q g quit; induction fuel as [|fuel IH]; intros [|e q] g quit Hp Q; cbn [poll_events] in Hp;
    try discriminate.
  - injection Hp as _ <-. destruct Q as [Q|[]]. exact Q.
  - injection Hp as _ <-. destruct Q as [Q|[]]. exact Q.
  - destruct (handle_event g e) as [[g1 p]|]; [|discriminate]. apply (IH _ _ _ Hp).
    destruct Q as [->|[->|Q]]; [now left|left; apply orb_true_r|right; apply in_or_app; now left].
Qed.

Lemma main_loop_app `{Digest} `{HeapView} pre post timer roster g :
  main_loop (pre ++ post) timer roster g =
  match main_loop pre timer roster g with
  | Running g1 => main_loop post timer roster g1
  | r => r
  end.
Proof.
  revert g; induction pre as [|[now evs] pre IH]; intros g; [reflexivity|]. cbn [app main_loop].
  destruct (hasTimePassed timer now); [reflexivity|].
  destruct (poll_events (2 * length evs) evs g false) as [g1 [|]| |]; auto.
Qed.

Lemma main_gui_bounds garbage vfile cfile : buffers_ok (main_gui garbage vfile cfile).
Proof. unfold buffers_ok, main_gui. cbn. unfold INPUT_CAPACITY, CANDIDATE_CAPACITY. lia. Qed.

Lemma handle_event_inv `{Digest} `{HeapView} g e g' pushed :
  session_inv (state g) -> handle_event g e = Some (g', pushed) -> session_inv (state g').
Proof.
  intros I Hh. destruct (handle_event_effect _ _ _ _ Hh) as [->|[[m ->]|L]]; [exact I|exact I|].
  destruct L; eauto using register_inv, cast_inv.
Qed.

End GuiFacts.

(** The string [main] passes to [renderCastVoteScreen]: the file-scope
    [candidateID], not the one the cast handler edits. *)
Definition castVoteScreen_candidate (g : gui) : string := candidateID g.

Module GuiTheorems.
Import SessionInvariant SessionTheorems GuiFacts.

Section WithDigest.
Context {D : Digest} {HV : HeapView}.

(** (C24) Buffer bounds: in every state a run of [main] reaches, the
    voter input holds at most 49 characters and both candidate buffers
    at most 31; the cast screen's [strncat] calls keep the bounds on
    every input, and the register screen's [strcat] calls are defined
    only when they do. *)
Theorem gui_buffers_bounded start garbage vfile cfile cands frames g' :
  run_state (main start garbage vfile cfile cands frames) = Some g' -> buffers_ok g'.
Proof.
  apply (main_loop_preserves buffers_ok (fun g e g1 p B E => handle_event_bounds g e g1 p B E)).
  apply main_gui_bounds.
Qed.

(** (C25) The register screen's text input is undefined exactly when its
    [strcat] overflows: into [inputBuffer] while that holds fewer than
    49 characters, into the file-scope [candidateID] once it is full. *)
Theorem register_text_overflow g text :
  handleRegisterVoterEvents g (SDL_TEXTINPUT text) = None <->
  (String.length (inputBuffer g) < INPUT_CAPACITY /\
   INPUT_CAPACITY < String.length (inputBuffer g) + String.length text)%nat \/
  (INPUT_CAPACITY <= String.length (inputBuffer g) /\
   String.length (candidateID g) < CANDIDATE_CAPACITY /\
   CANDIDATE_CAPACITY < String.length (candidateID g) + String.length text)%nat.
Proof.
  unfold handleRegisterVoterEvents, strcat_checked.
  destruct (Nat.ltb_spec (String.length (inputBuffer g)) INPUT_CAPACITY);
  [destruct (Nat.leb_spec (String.length (inputBuffer g) + String.length text) INPUT_CAPACITY)
  |destruct (Nat.ltb_spec (String.length (candidateID g)) CANDIDATE_CAPACITY);
   [destruct (Nat.leb_spec (String.length (candidateID g) + String.length text) CANDIDATE_CAPACITY)|]];
  cbn [option_map]; split; try discriminate; try lia; auto.
Qed.

(** (C30) Termination of the poll loop: with fuel at least the weight of
    the queue (two per click, one per other event; at most twice its
    length, the fuel [main_loop] gives) the loop empties the queue,
    including the [SDL_QUIT] events the Exit button pushes. *)
Theorem poll_events_terminates fuel q g quit :
  (queue_weight q <= fuel)%nat -> poll_events fuel q g quit <> PollOutOfFuel.
Proof.
  revert q g quit; induction fuel as [|fuel IH]; intros [|e q] g quit L; cbn [poll_events];
    try discriminate; [destruct e; simpl in L; lia|].
  destruct (handle_event g e) as [[g1 p]|] eqn:E; [|discriminate].
  apply IH. pose proof (handle_event_pushed _ _ _ _ E). rewrite queue_weight_app. simpl in L. lia.
Qed.

(** (C8) One vote per voter through the whole front end: from a fresh
    install, in every state any sequence of frames and events leads
    [main] to, the ledger holds at most one ballot per voter and a voter
    has a ballot exactly when the registry marks it as voted. *)
Theorem gui_one_vote_per_voter start garbage cands frames g' :
  run_state (main start garbage None None cands frames) = Some g' ->
  NoDup (map voterID (chain (bc (state g')))) /\
  (forall id, In id (map voterID (chain (bc (state g')))) <->
              Spec.lookup id (displayVoterStatus (root (voterTree (state g')))) = Some 1%Z).
Proof.
  intros R. pose proof (main_loop_preserves (fun g => session_inv (state g))
    (fun g e g1 p I E => handle_event_inv g e g1 p I E) _ _ _ (main_gui garbage None None) _
    (startup_inv garbage) R) as (_ & N & C).
  now split.
Qed.

(** (C26) The vote closes on time: once the clock read at the start of a
    frame reaches the expiration [main] wrote (start + 30 s), that frame
    ends the program with [countVotes] on the current ledger and the
    roster read at startup (undefined when [candidates.txt] was
    missing), whatever events were pending. *)
Theorem voting_ends_with_tally start garbage vfile cfile cands pre t events post g1 :
  main_loop pre (Some (start + 30)) (loadCandidatesFromFile cands) (main_gui garbage vfile cfile) =
    Running g1 ->
  start + 30 <= t ->
  main start garbage vfile cfile cands (pre ++ (t, events) :: post) =
    Tallied g1 (final_tally g1 (loadCandidatesFromFile cands)).
Proof.
  intros R L. unfold main. rewrite main_loop_app, R. cbn [main_loop hasTimePassed].
  now rewrite (proj2 (Z.leb_le _ _) L).
Qed.

(** (C29) Closing the window before the deadline ends the program without
    a tally: a frame that polls an [SDL_QUIT] (the window's close button
    or the Exit button's pushed event) before the expiration time makes
    [main] return, whatever frames would follow. *)
Theorem quit_skips_tally timer roster g t events rest g' quit' :
  hasTimePassed timer t = false -> In SDL_QUIT events ->
  poll_events (2 * length events) events g false = Polled g' quit' ->
  main_loop ((t, events) :: rest) timer roster g = Closed g'.
Proof.
  intros T Q P. cbn [main_loop]. rewrite T, P.
  now rewrite (poll_events_quit _ _ _ _ _ _ P (or_intror Q)).
Qed.

(** (C38) The Candidate ID box never shows what is typed into it: no event
    of the cast screen changes the string [main] passes to
    [renderCastVoteScreen]; the handler edits its own [static] buffer. *)
Theorem cast_screen_hides_candidate g e g' :
  handleCastVoteEvents g e = Some g' -> castVoteScreen_candidate g' = castVoteScreen_candidate g.
Proof.
  unfold handleCastVoteEvents, cast_submit. intros Hh.
  destruct e as [x y|t|[]| |]; gui_cases Hh; try discriminate; injection Hh as <-; reflexivity.
Qed.

End WithDigest.

End GuiTheorems.

Module GuiWitnesses.
Import Toy GuiFacts GuiTheorems.
Local Open Scope string_scope.
Local Open Scope list_scope.

Definition garbage : hash := repeat Byte.xff 32.
Definition fresh : gui := main_gui garbage None None.
Definition roster_file : option string := Some "C1,Alice
C2,Bob
".

Definition click (x y : Z) : event := SDL_MOUSEBUTTONDOWN x y.

(** Register V1, go back, open the cast screen, type V1 and C1, submit. *)
Definition vote_frames : list (Z * list event) :=
  [(0, [click 400 220; SDL_TEXTINPUT "V1"; click 400 370; click 400 440;
        click 400 290; SDL_TEXTINPUT "V1"; click 400 320; SDL_TEXTINPUT "C1";
        click 550 420])].

Definition after_vote : gui :=
  match main_loop vote_frames (Some 30) (loadCandidatesFromFile roster_file) fresh with
  | Running g => g
  | _ => fresh
  end.

Lemma vote_frames_run :
  main_loop vote_frames (Some 30) (loadCandidatesFromFile roster_file) fresh = Running after_vote.
Proof. vm_compute. reflexivity. Qed.

Lemma gui_buffers_bounded_witness :
  run_state (main 0 garbage None None roster_file vote_frames) = Some after_vote /\ buffers_ok after_vote.
Proof.
  assert (R : run_state (main 0 garbage None None roster_file vote_frames) = Some after_vote)
    by (change (main 0 garbage None None roster_file vote_frames) with
          (main_loop vote_frames (Some 30) (loadCandidatesFromFile roster_file) fresh);
        now rewrite vote_frames_run).
  split; [exact R|exact (gui_buffers_bounded _ _ _ _ _ _ _ R)].
Defined.

Lemma gui_one_vote_per_voter_witness :
  run_state (main 0 garbage None None roster_file vote_frames) = Some after_vote /\
  NoDup (map voterID (chain (bc (state after_vote)))).
Proof.
  assert (R : run_state (main 0 garbage None None roster_file vote_frames) = Some after_vote)
    by (change (main 0 garbage None None roster_file vote_frames) with
          (main_loop vote_frames (Some 30) (loadCandidatesFromFile roster_file) fresh);
        now rewrite vote_frames_run).
  split; [exact R|exact (proj1 (gui_one_vote_per_voter _ _ _ _ _ R))].
Defined.

(** The same run, then a frame at the deadline: one vote for C1. *)
Lemma voting_ends_with_tally_witness :
  main 0 garbage None None roster_file (vote_frames ++ [(30, [])]) =
    Tallied after_vote (final_tally after_vote (loadCandidatesFromFile roster_file)) /\
  final_tally after_vote (loadCandidatesFromFile roster_file) = Some (Counts [1; 0]%Z).
Proof.
  split; [|vm_compute; reflexivity].
  exact (voting_ends_with_tally 0 garbage None None roster_file vote_frames 30 [] [] after_vote
           vote_frames_run ltac:(lia)).
Defined.

(** The Exit button pushes an [SDL_QUIT], which the loop then polls. *)
Lemma poll_events_terminates_witness :
  (queue_weight [click 400 570; SDL_TEXTINPUT "x"] <= 4)%nat /\
  poll_events 4 [click 400 570; SDL_TEXTINPUT "x"] fresh false <> PollOutOfFuel.
Proof.
  assert (L : (queue_weight [click 400 570; SDL_TEXTINPUT "x"] <= 4)%nat) by (simpl; lia).
  split; [exact L|exact (poll_events_terminates _ _ _ _ L)].
Defined.

Lemma quit_skips_tally_witness :
  main_loop [(0, [SDL_QUIT]); (30, [])] (Some 30) (loadCandidatesFromFile roster_file) fresh = Closed fresh.
Proof.
  apply (quit_skips_tally _ _ _ _ _ _ _ true); [reflexivity|now left|vm_compute; reflexivity].
Defined.

Definition cast_screen : gui := set_focus (set_screen fresh 2) 1.

Lemma cast_screen_hides_candidate_witness :
  handleCastVoteEvents cast_screen (SDL_TEXTINPUT "C1") = Some (set_castCandidateID cast_screen "C1") /\
  castCandidateID (set_castCandidateID cast_screen "C1") = "C1" /\
  castVoteScreen_candidate (set_castCandidateID cast_screen "C1") = castVoteScreen_candidate cast_screen.
Proof.
  assert (E : handleCastVoteEvents cast_screen (SDL_TEXTINPUT "C1") = Some (set_castCandidateID cast_screen "C1"))
    by (vm_compute; reflexivity).
  split; [exact E|split; [reflexivity|exact (cast_screen_hides_candidate _ _ _ E)]].
Defined.

(** A two-character text event on a register screen holding 48
    characters writes past [inputBuffer]. *)
Lemma register_overflow_run :
  main 0 garbage None None roster_file
    [(0, [click 400 220; SDL_TEXTINPUT "ABCDEFGHIJKLMNOPQRSTUVWXYZABCDEFGHIJKLMNOPQRSTUV";
          SDL_TEXTINPUT "WX"])] = RunUndefined.
Proof. vm_compute. reflexivity. Qed.

End GuiWitnesses.
