(* ===== verification/Render.v ===== *)
(** * What the screens draw (src/gui2.c: renderText, drawButton,
    renderMainMenu, renderRegisterVoter, renderCastVoteScreen,
    renderCandidateManagement, renderVotingEndedScreen and the render
    [switch] of [main])

    A render function is modelled by the list of renderer calls it makes,
    in order: a trace of draw commands, the way an output device is
    modelled as the trace a computation writes.  [SDL_SetRenderDrawColor]
    is folded into the fill, outline or clear that follows it; a text is
    a texture copied with its top-left corner at a point ([renderText]
    and the inline [TTF_RenderText_*] blocks) or centred in a rectangle
    ([drawButton]).  Text of width zero draws nothing: [TTF_RenderText]
    fails on [""], and the copy that follows fails with it.

    The theorems compare what is drawn with what the handlers of [Gui.v]
    test: a click on a pixel of a drawn button is a click that the
    handler sends to that button's branch, except for the Exit button of
    the main menu, which is drawn at y 410..459 while the handler tests
    y 550..600. *)

From Stdlib Require Import String List ZArith Lia Bool.
From S2P Require Import Prelude Registry Digest Session Gui.
Import ListNotations.

Local Open Scope string_scope.
Local Open Scope bool_scope.
Local Open Scope list_scope.
Local Open Scope Z_scope.

(** [SDL_Color] without its alpha, which is 255 everywhere. *)
Record SDL_Color : Type := mkColor { cr : Z; cg : Z; cb : Z }.

Definition WHITE : SDL_Color := mkColor 255 255 255.
Definition BLACK : SDL_Color := mkColor 0 0 0.
Definition BLUE : SDL_Color := mkColor 50 100 200.
Definition LIGHT_BLUE : SDL_Color := mkColor 100 150 250.
Definition RED : SDL_Color := mkColor 255 0 0.
Definition GREEN : SDL_Color := mkColor 0 255 0.
Definition GRAY : SDL_Color := mkColor 200 200 200.

Record SDL_Rect : Type := mkRect { rx : Z; ry : Z; rw : Z; rh : Z }.

Definition SCREEN_WIDTH : Z := 1000.
Definition SCREEN_HEIGHT : Z := 700.

Inductive draw : Type :=
| RenderClear (c : SDL_Color)
| RenderFillRect (c : SDL_Color) (r : SDL_Rect)
| RenderDrawRect (c : SDL_Color) (r : SDL_Rect)
| RenderTextAt (text : string) (c : SDL_Color) (x y : Z)
| RenderTextCentered (text : string) (c : SDL_Color) (box : SDL_Rect)
| RenderPresent.

(** [renderText]: one texture at [(x, y)]. *)
Definition renderText (text : string) (color : SDL_Color) (x y : Z) : list draw :=
  if String.eqb text "" then [] else [RenderTextAt text color x y].

(** [drawButton]: the filled rectangle, its black border, the white
    label centred in it. *)
Definition drawButton (text : string) (buttonRect : SDL_Rect) (buttonColor : SDL_Color) : list draw :=
  [RenderFillRect buttonColor buttonRect; RenderDrawRect BLACK buttonRect] ++
  (if String.eqb text "" then [] else [RenderTextCentered text WHITE buttonRect]).

(** The text each [strcpy]/[snprintf] into [guiState->errorMessage]
    writes (gui2.c:182, 187, 265, 269, 271, 273, 285, 289, 539). *)
Definition message_text (m : message) : string :=
  match m with
  | NoMessage => ""
  | PleaseEnterVoterID => "Please enter a Voter ID"
  | VoterRegistered => "Voter registered successfully"
  | VoterNotRegistered => "Voter not registered"
  | VoterAlreadyVoted => "Voter has already voted"
  | PleaseEnterCandidateID => "Please enter a Candidate ID"
  | VoteCastOK => "Vote cast successfully"
  | ErrorUpdatingStatus => "Error updating voter status"
  | InvalidChoice => "Invalid choice! Press 1 or 0."
  end.

(** [if (strlen(guiState->errorMessage) > 0) renderText(...)]. *)
Definition error_line (g : gui) (color : SDL_Color) (x y : Z) : list draw :=
  let m := message_text (errorMessage (state g)) in
  if Nat.ltb 0 (String.length m) then renderText m color x y else [].

(** The two arrays of [renderMainMenu]. *)
Definition menu_buttons : list SDL_Rect :=
  [mkRect 350 200 300 50; mkRect 350 270 300 50; mkRect 350 340 300 50; mkRect 350 410 300 50].
Definition menu_buttonLabels : list string :=
  ["Register Voter"; "Cast Vote"; "display candidate"; "Exit"].

Definition renderMainMenu (g : gui) : list draw :=
  [RenderClear WHITE] ++
  renderText "Blockchain Voting System" BLUE (SCREEN_WIDTH / 2 - 200) 50 ++
  flat_map (fun i => drawButton (nth i menu_buttonLabels "") (nth i menu_buttons (mkRect 0 0 0 0))
                                (if Nat.eqb i 3 then RED else LIGHT_BLUE)) (seq 0 4) ++
  error_line g RED 250 (SCREEN_HEIGHT - 100) ++
  [RenderPresent].

Definition renderRegisterVoter (g : gui) : list draw :=
  let inputBoxRect := mkRect 350 250 300 50 in
  [RenderClear WHITE] ++
  renderText "Register Voter" BLUE (SCREEN_WIDTH / 2 - 100) 50 ++
  [RenderFillRect (mkColor 230 230 230) inputBoxRect; RenderDrawRect BLACK inputBoxRect] ++
  renderText (inputBuffer g) BLACK 360 260 ++
  drawButton "Register" (mkRect 350 350 300 50) GREEN ++
  drawButton "Back" (mkRect 350 420 300 50) RED ++
  error_line g RED 250 (SCREEN_HEIGHT - 100) ++
  [RenderPresent].

(** [renderCastVoteScreen]: its local [GRAY], [BLACK] and [RED] equal
    the global ones. *)
Definition renderCastVoteScreen (g : gui) (candidateIDParam : string) : list draw :=
  let voterIDRect := mkRect 350 200 300 50 in
  let candidateIDRect := mkRect 350 300 300 50 in
  [RenderClear WHITE; RenderFillRect GRAY voterIDRect; RenderDrawRect BLACK voterIDRect] ++
  renderText "Voter ID" BLACK 350 170 ++
  renderText (inputBuffer g) BLACK 360 210 ++
  [RenderFillRect GRAY candidateIDRect; RenderDrawRect BLACK candidateIDRect] ++
  renderText "Candidate ID" BLACK 350 270 ++
  renderText candidateIDParam BLACK 360 310 ++
  drawButton "Back" (mkRect 350 400 145 50) GRAY ++
  drawButton "Submit" (mkRect 505 400 145 50) GRAY ++
  error_line g RED 350 460 ++
  [RenderPresent].

Definition candidate_options : list string :=
  ["=== Candidate Management ==="; "1. Display Candidates"; "0. Return to Main Menu";
   "Choose an option (Press 1 or 0):"].

(** [renderCandidateManagement]: the options at [y_offset] 50, 100,
    150, 200, the message at the final [y_offset] 250, all black. *)
Definition renderCandidateManagement (g : gui) : list draw :=
  [RenderClear WHITE] ++
  flat_map (fun i => renderText (nth i candidate_options "") BLACK 50 (50 + 50 * Z.of_nat i)) (seq 0 4) ++
  error_line g BLACK 50 250 ++
  [RenderPresent].

Definition renderVotingEndedScreen : list draw :=
  [RenderClear WHITE] ++
  renderText "The Voting Period Has Ended!" RED 100 200 ++
  renderText "Thank you for participating!" BLACK 100 300 ++
  [RenderPresent].

(** The render [switch] of [main] after each poll: screen 2 gets the
    file-scope [candidateID]; any other screen draws nothing. *)
Definition render_frame (g : gui) : list draw :=
  if currentScreen g =? 0 then renderMainMenu g
  else if currentScreen g =? 1 then renderRegisterVoter g
  else if currentScreen g =? 2 then renderCastVoteScreen g (candidateID g)
  else if currentScreen g =? 3 then renderCandidateManagement g
  else [].

(** ** Observations of a drawing *)

(** The buttons a drawing shows: each centred label with its rectangle. *)
Fixpoint buttons_of (d : list draw) : list (string * SDL_Rect) :=
  match d with
  | [] => []
  | RenderTextCentered t _ r :: d' => (t, r) :: buttons_of d'
  | _ :: d' => buttons_of d'
  end.

(** The pixels [SDL_RenderFillRect] covers ([SDL_PointInRect]). *)
Definition point_in_rect (x y : Z) (r : SDL_Rect) : bool :=
  (rx r <=? x) && (x <? rx r + rw r) && (ry r <=? y) && (y <? ry r + rh r).

(** What each label of the main menu promises: the screen its click
    opens. *)
Definition menu_target (label : string) : Z :=
  if String.eqb label "Register Voter" then 1
  else if String.eqb label "Cast Vote" then 2
  else if String.eqb label "display candidate" then 3
  else 0.

(** ** Facts on drawings *)

Module RenderFacts.

Lemma buttons_of_app d1 d2 : buttons_of (d1 ++ d2) = buttons_of d1 ++ buttons_of d2.
Proof. induction d1 as [|[] d1 IH]; simpl; rewrite ?IH; reflexivity. Qed.

Lemma buttons_of_renderText t c x y : buttons_of (renderText t c x y) = [].
Proof. unfold renderText. now destruct (String.eqb t ""). Qed.

Lemma buttons_of_error_line g c x y : buttons_of (error_line g c x y) = [].
Proof. unfold error_line. destruct (Nat.ltb _ _); [apply buttons_of_renderText|reflexivity]. Qed.

Create Rewrite HintDb render.
#[export] Hint Rewrite buttons_of_app buttons_of_renderText buttons_of_error_line : render.

(** The buttons each screen draws do not depend on the state. *)
Lemma menu_drawn_buttons g :
  buttons_of (renderMainMenu g) =
    [("Register Voter", mkRect 350 200 300 50); ("Cast Vote", mkRect 350 270 300 50);
     ("display candidate", mkRect 350 340 300 50); ("Exit", mkRect 350 410 300 50)].
Proof. unfold renderMainMenu. autorewrite with render. reflexivity. Qed.

Lemma register_drawn_buttons g :
  buttons_of (renderRegisterVoter g) = [("Register", mkRect 350 350 300 50); ("Back", mkRect 350 420 300 50)].
Proof. unfold renderRegisterVoter. autorewrite with render. reflexivity. Qed.

Lemma cast_drawn_buttons g p :
  buttons_of (renderCastVoteScreen g p) = [("Back", mkRect 350 400 145 50); ("Submit", mkRect 505 400 145 50)].
Proof. unfold renderCastVoteScreen. autorewrite with render. reflexivity. Qed.

Lemma point_in_rect_spec x y r :
  point_in_rect x y r = true <-> rx r <= x < rx r + rw r /\ ry r <= y < ry r + rh r.
Proof. unfold point_in_rect. rewrite !andb_true_iff, !Z.leb_le, !Z.ltb_lt. tauto. Qed.

Lemma in_box_true x y x0 x1 y0 y1 :
  x0 <= x <= x1 -> y0 <= y <= y1 -> in_box x y x0 x1 y0 y1 = true.
Proof. intros. unfold in_box. rewrite !andb_true_iff, !Z.leb_le. lia. Qed.

Lemma in_box_false x y x0 x1 y0 y1 :
  x < x0 \/ x1 < x \/ y < y0 \/ y1 < y -> in_box x y x0 x1 y0 y1 = false.
Proof.
  intros. unfold in_box.
  destruct (Z.leb_spec x0 x), (Z.leb_spec x x1), (Z.leb_spec y0 y), (Z.leb_spec y y1); simpl; lia || reflexivity.
Qed.

Lemma in_box_bounds x y x0 x1 y0 y1 :
  in_box x y x0 x1 y0 y1 = true -> x0 <= x <= x1 /\ y0 <= y <= y1.
Proof. unfold in_box. rewrite !andb_true_iff, !Z.leb_le. lia. Qed.

(** Decide every [in_box] test of a goal from the bounds in context. *)
Ltac boxes :=
  repeat first [rewrite in_box_true by lia | rewrite in_box_false by lia].

(** A drawn button with a pixel under the click: the cases of the list,
    the label and rectangle substituted, the bounds of the click. *)
Ltac hit Hin Hp :=
  simpl in Hin; repeat destruct Hin as [Hin|Hin]; try contradiction; try discriminate Hin;
  injection Hin; intros; subst; apply point_in_rect_spec in Hp; cbn [rx ry rw rh] in Hp.

End RenderFacts.

(** ** The drawn buttons against the handlers *)

Module RenderTheorems.
Import RenderFacts.

Section WithDigest.
Context {D : Digest} {HV : HeapView}.

(** (C11) The Exit button of the main menu is dead: a click on any pixel
    of the Exit button [renderMainMenu] draws leaves the state as it is
    and pushes no [SDL_QUIT], and every click that does push one lies
    outside every button the menu draws. *)
Theorem exit_button_dead g :
  (forall r x y, In ("Exit", r) (buttons_of (renderMainMenu g)) -> point_in_rect x y r = true ->
     handleMainMenuEvents g (SDL_MOUSEBUTTONDOWN x y) = (g, [])) /\
  (forall x y, snd (handleMainMenuEvents g (SDL_MOUSEBUTTONDOWN x y)) = [SDL_QUIT] ->
     forall lbl r, In (lbl, r) (buttons_of (renderMainMenu g)) -> point_in_rect x y r = false).
Proof.
  rewrite menu_drawn_buttons. split.
  - intros r x y Hin Hp. hit Hin Hp. unfold handleMainMenuEvents. boxes. reflexivity.
  - intros x y Hq lbl r Hin. unfold handleMainMenuEvents in Hq.
    destruct (in_box x y 350 650 550 600) eqn:E;
      [|repeat match type of Hq with context [if ?c then _ else _] => destruct c end; discriminate].
    apply in_box_bounds in E.
    destruct (point_in_rect x y r) eqn:P; [|reflexivity].
    apply point_in_rect_spec in P.
    simpl in Hin; repeat destruct Hin as [Hin|Hin]; try contradiction;
      injection Hin; intros; subst; cbn [rx ry rw rh] in P; lia.
Qed.

(** (C31) Every other drawn button does what it says: a click on a pixel
    of a button that the main menu, the register screen or the cast
    screen draws takes the handler's branch of that button (the menu's
    labels open screens 1, 2 and 3; Back returns to the menu with the
    buffers cleared; Register and Submit run the submit branches). *)
Theorem drawn_buttons_work g p :
  (forall lbl r x y, In (lbl, r) (buttons_of (renderMainMenu g)) -> lbl <> "Exit" ->
     point_in_rect x y r = true ->
     handleMainMenuEvents g (SDL_MOUSEBUTTONDOWN x y) = (gui_message (set_screen g (menu_target lbl)) NoMessage, [])) /\
  (forall lbl r x y, In (lbl, r) (buttons_of (renderRegisterVoter g)) -> point_in_rect x y r = true ->
     (lbl = "Register" /\ handleRegisterVoterEvents g (SDL_MOUSEBUTTONDOWN x y) = Some (register_submit g)) \/
     (lbl = "Back" /\ handleRegisterVoterEvents g (SDL_MOUSEBUTTONDOWN x y) =
                      Some (set_inputBuffer (gui_message (set_screen g 0) NoMessage) ""))) /\
  (forall lbl r x y, In (lbl, r) (buttons_of (renderCastVoteScreen g p)) -> point_in_rect x y r = true ->
     (lbl = "Back" /\ handleCastVoteEvents g (SDL_MOUSEBUTTONDOWN x y) =
                      Some (set_castCandidateID (set_inputBuffer (gui_message (set_screen g 0) NoMessage) "") "")) \/
     (lbl = "Submit" /\ handleCastVoteEvents g (SDL_MOUSEBUTTONDOWN x y) = cast_submit g)).
Proof.
  rewrite menu_drawn_buttons, register_drawn_buttons, cast_drawn_buttons.
  split; [|split].
  - intros lbl r x y Hin Hx Hp. hit Hin Hp; [..|congruence]; unfold handleMainMenuEvents; boxes; reflexivity.
  - intros lbl r x y Hin Hp. hit Hin Hp; unfold handleRegisterVoterEvents; boxes; auto.
  - intros lbl r x y Hin Hp. hit Hin Hp; unfold handleCastVoteEvents; boxes; auto.
Qed.

End WithDigest.

End RenderTheorems.

Module RenderWitnesses.
Import Toy RenderFacts RenderTheorems.

Definition exit_rect : SDL_Rect := mkRect 350 410 300 50.
Definition submit_rect : SDL_Rect := mkRect 505 400 145 50.

Lemma exit_button_dead_witness :
  In ("Exit", exit_rect) (buttons_of (renderMainMenu GuiWitnesses.fresh)) /\
  point_in_rect 500 430 exit_rect = true /\
  handleMainMenuEvents GuiWitnesses.fresh (SDL_MOUSEBUTTONDOWN 500 430) = (GuiWitnesses.fresh, []).
Proof.
  assert (I : In ("Exit", exit_rect) (buttons_of (renderMainMenu GuiWitnesses.fresh)))
    by (rewrite menu_drawn_buttons; simpl; tauto).
  assert (P : point_in_rect 500 430 exit_rect = true) by reflexivity.
  split; [exact I|split; [exact P|exact (proj1 (exit_button_dead GuiWitnesses.fresh) _ _ _ I P)]].
Defined.

Lemma drawn_buttons_work_witness :
  In ("Submit", submit_rect) (buttons_of (renderCastVoteScreen GuiWitnesses.fresh "")) /\
  point_in_rect 550 420 submit_rect = true /\
  handleCastVoteEvents GuiWitnesses.fresh (SDL_MOUSEBUTTONDOWN 550 420) = cast_submit GuiWitnesses.fresh.
Proof.
  assert (I : In ("Submit", submit_rect) (buttons_of (renderCastVoteScreen GuiWitnesses.fresh "")))
    by (rewrite cast_drawn_buttons; simpl; tauto).
  assert (P : point_in_rect 550 420 submit_rect = true) by reflexivity.
  split; [exact I|split; [exact P|]].
  destruct (proj2 (proj2 (drawn_buttons_work GuiWitnesses.fresh "")) _ _ _ _ I P) as [[L _]|[_ E]];
    [discriminate L|exact E].
Defined.

End RenderWitnesses.
