(* ===== verification/Console.v ===== *)
(** * What the program prints (src/blockchain.c: hashPrinter,
    printMerkleRoot, verifyChain, countVotes, displayCandidates; src/avl.c:
    displayVoterStatus, displayTree, displayVoterDataFromBinaryFile)

    A function that prints is modelled by the list of strings its
    [printf] calls write, in order; [stdout] is their concatenation.
    [perror] writes on stderr and adds nothing.  [%d] is
    [DecimalString]'s printing of the integer, [%02x] two lowercase hex
    digits, [%s] the string.  The value [verifyChain] returns is the one
    of [Ledger.verifyChain]; [verifyChain_output] is what it prints on
    the way, the hashes it prints those it compares. *)

From Stdlib Require Import String Ascii List ZArith Lia Arith DecimalString Permutation.
From Stdlib Require Strings.Byte.
From S2P Require Import Prelude Registry Digest Chain Merkle Ledger Tally Roster Snapshot.
Import ListNotations.

Local Open Scope bool_scope.
Local Open Scope list_scope.
Local Open Scope string_scope.

Definition stdout (trace : list string) : string := String.concat "" trace.

(** [printf("%d", n)]. *)
Definition string_of_int (n : Z) : string := NilZero.string_of_int (Z.to_int n).

Definition hex_digits : string := "0123456789abcdef".

Definition hex_digit (n : nat) : ascii :=
  match String.get n hex_digits with Some c => c | None => "0"%char end.

(** [printf("%02x", hash[i])]. *)
Definition print_byte (b : Byte.byte) : string :=
  String (hex_digit (Byte.to_nat b / 16)) (String (hex_digit (Byte.to_nat b mod 16)) "").

(** [hashPrinter(hash, length)]: [length] bytes, then a newline.  Every
    caller passes a 32-byte array with [SHA256_DIGEST_LENGTH]. *)
Definition hashPrinter (hash : list Byte.byte) (length : nat) : list string :=
  (map (fun i => print_byte (nth i hash Byte.x00)) (seq 0 length) ++ ["
"])%list.

Definition printMerkleRoot (bc : blockchain) : list string :=
  "Current Merkle Root: " :: hashPrinter (merkle_root bc) SHA256_DIGEST_LENGTH.

(** [printf("Voter ID: %s, Voted: %d\n", ...)]. *)
Definition voter_line (voterID : string) (voted : Z) : string :=
  "Voter ID: " ++ voterID ++ ", Voted: " ++ string_of_int voted ++ "
".

(** [displayVoterStatus]: the in-order traversal with its [printf]. *)
Fixpoint print_voter_status (root : VoterNode) : list string :=
  match root with
  | Leaf => []
  | Node k v l r _ => (print_voter_status l ++ voter_line k v :: print_voter_status r)%list
  end.

Definition displayTree (tree : AVLTree) : list string := print_voter_status (root tree).

(** [displayVoterDataFromBinaryFile]: one line per [fread] record, in
    the order of the file; a file that cannot be opened prints only on
    stderr. *)
Definition displayVoterDataFromBinaryFile (file : option (list snap_record)) : list string :=
  match file with
  | None => []
  | Some f => "Voter Data:
" :: map (fun r => voter_line (rec_voterID r) (rec_voted r)) f
  end.

(** The C string [line] after [strtok(line, ",")] wrote its NUL: the
    leading commas and the first token, or the whole line when there is
    no token. *)
Fixpoint leading_commas (s : string) : string :=
  match s with
  | String c s' => if Ascii.eqb c ","%char then String c (leading_commas s') else ""
  | EmptyString => ""
  end.

Definition strtok_line (line : string) : string :=
  match strtok_comma line with
  | Some (id, _) => leading_commas line ++ id
  | None => line
  end.

(** One iteration of the [while (fgets(...))] loop of
    [displayCandidates]: the name is the next token, [strtok(NULL, ",")]. *)
Definition display_line (raw : string) : string :=
  let line := cut_newline raw in
  match strtok_comma line with
  | Some (id, saved) =>
      match strtok_comma saved with
      | Some (name, _) => "ID: " ++ id ++ ", Name: " ++ name ++ "
"
      | None => "Error: Invalid candidate format in line: " ++ strtok_line line ++ "
"
      end
  | None => "Error: Invalid candidate format in line: " ++ line ++ "
"
  end.

Fixpoint display_lines (fuel : nat) (file : string) : list string :=
  match fuel with
  | O => []
  | S fuel' =>
      match fgets LINE_BUFFER file with
      | None => []
      | Some (line, rest) => display_line line :: display_lines fuel' rest
      end
  end.

(** [displayCandidates]: a file that cannot be opened prints only on
    stderr. *)
Definition displayCandidates (file : option string) : list string :=
  match file with
  | None => []
  | Some f => "
=== Candidates ===
" :: display_lines (S (String.length f)) f
  end.

Section Report.
Context `{Digest} `{HeapView}.

(** One iteration of the [while (curr)] loop of [verifyChain]. *)
Definition link_report (count : Z) (prev curr : block) : list string :=
  let calculatedHash := expected_hash prev in
  (string_of_int count ++ "	[" ++ voterID curr ++ "]-[" ++ candID curr ++ "]	") ::
  (hashPrinter calculatedHash SHA256_DIGEST_LENGTH ++ [" - "] ++
   hashPrinter (prevhash curr) SHA256_DIGEST_LENGTH ++
   [if hashCompare calculatedHash (prevhash curr) then " Verified
" else " Alteration detected
"])%list.

Fixpoint report_links (count : Z) (prev : block) (rest : list block) : list string :=
  match rest with
  | [] => []
  | curr :: rest' => (link_report count prev curr ++ report_links (count + 1)%Z curr rest')%list
  end.

(** What [verifyChain] prints. *)
Definition verifyChain_output (bc : blockchain) : list string :=
  "Starting blockchain verification...
" ::
  match chain bc with
  | [] => ["Blockchain is empty.
"]
  | head :: rest => (report_links 1 head rest ++ ["Blockchain verification complete.
"])%list
  end.

(** The final loop of [countVotes]. *)
Fixpoint vote_lines (i : Z) (roster : list string) (votes : list Z) : list string :=
  match roster, votes with
  | id :: roster', v :: votes' =>
      ("Candidate " ++ string_of_int i ++ " (" ++ id ++ "): " ++ string_of_int v ++ " votes
") ::
      vote_lines (i + 1)%Z roster' votes'
  | _, _ => []
  end.

(** What [countVotes] prints: [None] where [Tally.countVotes] is
    undefined.  Its "Error calculating Merkle root." branch is dead:
    [calculateMerkleRoot] never returns [NULL] but on a failed
    [malloc]. *)
Definition countVotes_output (bc : blockchain) (roster : list string) : option (list string) :=
  match countVotes bc roster with
  | TallyUndefined => None
  | IntegrityFailure => Some ["Integrity disrupted; Merkle root does not match.
"]
  | Counts votes => Some ("Integrity verified.
" :: "Vote counts per candidate:
" :: vote_lines 1 roster votes)
  end.

End Report.

(** ** Reading the output back *)

(** The value of a lowercase hex digit. *)
Definition hex_value (c : ascii) : option nat :=
  let n := nat_of_ascii c in
  if Nat.leb 48 n && Nat.leb n 57 then Some (n - 48)
  else if Nat.leb 97 n && Nat.leb n 102 then Some (n - 87)
  else None.

Definition hex_byte (a b : ascii) : option Byte.byte :=
  match hex_value a, hex_value b with
  | Some x, Some y => Byte.of_nat (16 * x + y)
  | _, _ => None
  end.

(** The bytes of a line of hex pairs ended by a newline. *)
Fixpoint parse_hex (s : string) : option (list Byte.byte) :=
  match s with
  | EmptyString => None
  | String a EmptyString => if Ascii.eqb a "010"%char then Some [] else None
  | String a (String b s') =>
      match hex_byte a b with
      | Some x => option_map (cons x) (parse_hex s')
      | None => None
      end
  end.

(** The verdict a line of [verifyChain]'s report states, if any. *)
Definition verdict (s : string) : list bool :=
  if String.eqb s " Verified
" then [true]
  else if String.eqb s " Alteration detected
" then [false]
  else [].

Definition verdicts_printed (out : list string) : list bool := flat_map verdict out.

Module ConsoleFacts.

Lemma stdout_cons x l : stdout (x :: l) = x ++ stdout l.
Proof. unfold stdout. destruct l; simpl; [now rewrite str_app_nil_r|reflexivity]. Qed.

Lemma stdout_app l1 l2 : stdout (l1 ++ l2) = stdout l1 ++ stdout l2.
Proof.
  induction l1 as [|x l1 IH]; [reflexivity|].
  rewrite <- app_comm_cons, !stdout_cons, IH. symmetry. apply str_app_assoc.
Qed.

(** Each printed byte is two hex digits that read back as the byte. *)
Lemma print_byte_hex b :
  exists a1 a2, print_byte b = String a1 (String a2 "") /\ hex_byte a1 a2 = Some b /\ a1 <> " "%char.
Proof. destruct b; (eexists _, _; split; [reflexivity|split; [reflexivity|discriminate]]). Qed.

Lemma map_nth_seq_cons {A B} (f : A -> B) (a : A) (l : list A) (d : A) k n :
  map (fun i => f (nth i (a :: l) d)) (seq (S k) n) = map (fun i => f (nth i l d)) (seq k n).
Proof. rewrite <- seq_shift, map_map. reflexivity. Qed.

Lemma hashPrinter_bytes (h : list Byte.byte) :
  hashPrinter h (length h) = (map print_byte h ++ ["
"])%list.
Proof.
  unfold hashPrinter. f_equal. induction h as [|b h IH]; [reflexivity|].
  cbn [length seq map]. rewrite map_nth_seq_cons, IH. reflexivity.
Qed.

Lemma verdict_head c s : c <> " "%char -> verdict (String c s) = [].
Proof.
  intros Hc. unfold verdict. cbn [String.eqb].
  destruct (Ascii.eqb_spec c " "%char); [contradiction|reflexivity].
Qed.

Lemma verdicts_printed_app l1 l2 :
  verdicts_printed (l1 ++ l2) = (verdicts_printed l1 ++ verdicts_printed l2)%list.
Proof. apply flat_map_app. Qed.

Lemma verdicts_printed_hashPrinter (h : list Byte.byte) n : verdicts_printed (hashPrinter h n) = [].
Proof.
  unfold hashPrinter. rewrite verdicts_printed_app. simpl. rewrite app_nil_r.
  induction (seq 0 n) as [|i l IH]; [reflexivity|]. cbn [map verdicts_printed flat_map].
  destruct (print_byte_hex (nth i h Byte.x00)) as (a1 & a2 & -> & _ & Ha).
  rewrite verdict_head by exact Ha. exact IH.
Qed.

(** A count that [printf("%d")] writes starts with a digit. *)
Lemma string_of_int_head n : (0 <= n)%Z -> exists c s, string_of_int n = String c s /\ c <> " "%char.
Proof.
  intros N. unfold string_of_int.
  destruct n as [|p|p]; [|destruct (Pos.to_uint p) eqn:E|lia];
    cbn [Z.to_int NilZero.string_of_int]; try rewrite E;
    eexists _, _; (split; [reflexivity|discriminate]).
Qed.

Lemma verdict_spec s b : verdict s = [b] -> s = if b then " Verified
" else " Alteration detected
".
Proof.
  unfold verdict. destruct (String.eqb_spec s " Verified
"); [intros [= <-]; exact e|].
  destruct (String.eqb_spec s " Alteration detected
"); [intros [= <-]; exact e|discriminate].
Qed.

Lemma in_verdicts_printed b out : In b (verdicts_printed out) -> exists s, In s out /\ verdict s = [b].
Proof.
  unfold verdicts_printed. rewrite in_flat_map. intros (s & Hs & Hb). exists s. split; [exact Hs|].
  revert Hb. unfold verdict. destruct (String.eqb _ _); [|destruct (String.eqb _ _)];
    simpl; [intros [<-|[]]; reflexivity|intros [<-|[]]; reflexivity|intros []].
Qed.

Section WithDigest.
Context {D : Digest} {HV : HeapView}.

Lemma verdicts_printed_link count prev curr :
  (0 <= count)%Z ->
  verdicts_printed (link_report count prev curr) = [hashCompare (expected_hash prev) (prevhash curr)].
Proof.
  intros N. unfold link_report. cbn [verdicts_printed flat_map].
  destruct (string_of_int_head count N) as (c & s & E & Hc). rewrite E. cbn [String.append].
  rewrite verdict_head by exact Hc.
  fold (verdicts_printed (hashPrinter (expected_hash prev) SHA256_DIGEST_LENGTH ++ [" - "] ++
          hashPrinter (prevhash curr) SHA256_DIGEST_LENGTH ++
          [if hashCompare (expected_hash prev) (prevhash curr) then " Verified
" else " Alteration detected
"])).
  rewrite !verdicts_printed_app, !verdicts_printed_hashPrinter.
  destruct (hashCompare _ _); reflexivity.
Qed.

Lemma verdicts_printed_links count prev rest :
  (0 <= count)%Z -> verdicts_printed (report_links count prev rest) = link_verdicts prev rest.
Proof.
  revert count prev; induction rest as [|curr rest IH]; intros count prev N; [reflexivity|].
  cbn [report_links link_verdicts]. rewrite verdicts_printed_app, verdicts_printed_link by exact N.
  rewrite IH by lia. reflexivity.
Qed.

End WithDigest.

Lemma print_voter_status_lines t :
  print_voter_status t = map (fun e => voter_line (fst e) (snd e)) (displayVoterStatus t).
Proof.
  induction t as [|k v l IHl r IHr h]; [reflexivity|]. simpl. rewrite map_app, IHl, IHr. reflexivity.
Qed.

Lemma preorder_permutes_inorder t :
  Permutation (map SnapshotTheorems.rec_entry (saveNodeToBinaryFile t)) (displayVoterStatus t).
Proof.
  induction t as [|k v l IHl r IHr h]; [constructor|]. simpl. rewrite map_app.
  apply Permutation_cons_app. now apply Permutation_app.
Qed.

End ConsoleFacts.

Module ConsoleTheorems.
Import ConsoleFacts.

Lemma forallb_false_In (l : list bool) : forallb (fun v => v) l = false -> In false l.
Proof. induction l as [|[] l IH]; simpl; auto. discriminate. Qed.

(** [hashPrinter] prints every byte it is given and nothing else:
    the line it writes for a hash of [n] bytes is [2 n] lowercase hex
    digits and a newline (65 characters for a digest), and reading the
    hex pairs back gives the hash. *)
Theorem hashPrinter_roundtrip (h : list Byte.byte) :
  parse_hex (stdout (hashPrinter h (length h))) = Some h /\
  String.length (stdout (hashPrinter h (length h))) = 2 * length h + 1.
Proof.
  rewrite hashPrinter_bytes. induction h as [|b h [IHp IHl]]; [split; reflexivity|].
  cbn [map length]. rewrite <- app_comm_cons, stdout_cons.
  destruct (print_byte_hex b) as (a1 & a2 & -> & Hb & _). cbn [String.append parse_hex String.length].
  rewrite Hb, IHp. split; [reflexivity|lia].
Qed.

Section WithDigest.
Context {D : Digest} {HV : HeapView}.

(** (C18) [verifyChain]'s printout agrees with what it returns: the
    verdict lines it prints are, in order, the verdicts of the links
    from the second block on, and it prints "Alteration detected"
    exactly when it returns 0. *)
Theorem verifyChain_report (bc : blockchain) :
  verdicts_printed (verifyChain_output bc) = fst (verifyChain bc) /\
  (In " Alteration detected
" (verifyChain_output bc) <-> snd (verifyChain bc) = 0%Z).
Proof.
  assert (V : verdicts_printed (verifyChain_output bc) = fst (verifyChain bc)).
  { unfold verifyChain_output, verifyChain. destruct (chain bc) as [|hd rest]; [reflexivity|].
    change (verdicts_printed (?s :: ?l)) with (verdict s ++ verdicts_printed l)%list.
    rewrite verdicts_printed_app, verdicts_printed_links by lia. simpl. now rewrite app_nil_r. }
  split; [exact V|]. split.
  - intros Hin. assert (F : In false (fst (verifyChain bc))).
    { rewrite <- V. apply in_flat_map. exists " Alteration detected
". split; [exact Hin|now left]. }
    revert F. unfold verifyChain. destruct (chain bc) as [|hd rest]; [intros []|].
    cbn [fst snd]. destruct (forallb _ _) eqn:E; [|reflexivity].
    intros F. rewrite forallb_forall in E. discriminate (E false F).
  - intros E. assert (F : In false (fst (verifyChain bc))).
    { revert E. unfold verifyChain. destruct (chain bc) as [|hd rest]; [discriminate|].
      cbn [fst snd]. destruct (forallb _ _) eqn:F; [discriminate|]. intros _. now apply forallb_false_In. }
    rewrite <- V in F. destruct (in_verdicts_printed _ _ F) as (s & Hs & Hv).
    apply verdict_spec in Hv. now subst.
Qed.

End WithDigest.

(** (C37) The voter dump lists the registry: after [saveTreeToBinaryFile],
    [displayVoterDataFromBinaryFile] prints its header and then exactly
    the lines [displayTree] prints, each voter once with its voted flag,
    in the pre-order of the file instead of the in-order of the tree. *)
Theorem voter_dump_lists_registry (T : AVLTree) :
  exists lines, displayVoterDataFromBinaryFile (Some (saveTreeToBinaryFile T)) = "Voter Data:
" :: lines /\
    lines = map (fun r => voter_line (rec_voterID r) (rec_voted r)) (saveTreeToBinaryFile T) /\
    Permutation lines (displayTree T).
Proof.
  eexists. split; [reflexivity|split; [reflexivity|]].
  unfold displayTree, saveTreeToBinaryFile. rewrite print_voter_status_lines.
  change (fun r => voter_line (rec_voterID r) (rec_voted r))
    with (fun r => (fun e => voter_line (fst e) (snd e)) (SnapshotTheorems.rec_entry r)).
  rewrite <- (map_map SnapshotTheorems.rec_entry). apply Permutation_map, preorder_permutes_inorder.
Qed.

(** The dump and [displayTree] differ in order as soon as the root has
    a left child: the comment above [saveTreeToBinaryFile] (avl.c:199)
    calls the traversal in-order. *)
Lemma voter_dump_not_inorder :
  displayVoterDataFromBinaryFile (Some (saveTreeToBinaryFile RegistryTheorems.sample_registry)) <>
  "Voter Data:
" :: displayTree RegistryTheorems.sample_registry.
Proof. vm_compute. discriminate. Qed.

(** The roster screen and the roster disagree on a name with a comma:
    [loadCandidatesFromFile] keeps the rest of the line (its second
    [strtok] has no delimiter), [displayCandidates] only the next token
    (its second [strtok] stops at a comma). *)
Lemma display_cuts_name_at_comma :
  loadCandidatesFromFile (Some "C1,Smith, John
") = Some [mkCandidate "C1" "Smith, John"] /\
  displayCandidates (Some "C1,Smith, John
") = ["
=== Candidates ===
"; "ID: C1, Name: Smith
"].
Proof. split; vm_compute; reflexivity. Qed.

End ConsoleTheorems.
