(* ===== verification/Process.v ===== *)
(** * The whole process (src/gui2.c: main)

    [main] acquires SDL, SDL_ttf, a window, a renderer and a font, each
    failure printing a message, releasing what was acquired so far and
    returning 1; it writes the expiration time to [voting_time.txt]
    (a write that fails only prints), sets up the state, runs the frame
    loop, drawing the current screen after each poll and the
    voting-ended screen at the deadline, and releases the five
    resources in reverse order before returning 0.

    [sdl_env] says which of the five acquisitions succeed; the SDL
    calls are recorded as a trace of acquisitions and releases.
    [main_loop_trace] is [Gui.main_loop] with the frames it draws;
    [program] is [main] from its first line to its [return]. *)

From Stdlib Require Import String List ZArith Lia Bool.
From S2P Require Import Prelude Registry Digest Chain Merkle Ledger Tally Roster Snapshot LedgerFile Session Gui Render.
Import ListNotations.

Local Open Scope list_scope.
Local Open Scope Z_scope.

Inductive resource : Type := SDL_video | SDL_ttf | SDL_window | SDL_renderer | TTF_font.
Scheme Equality for resource.

(** [SDL_Init], [TTF_Init], [SDL_CreateWindow], [SDL_CreateRenderer],
    [TTF_OpenFont] when they succeed; [SDL_Quit], [TTF_Quit],
    [SDL_DestroyWindow], [SDL_DestroyRenderer], [TTF_CloseFont]. *)
Inductive sdl_event : Type :=
| Acquired (r : resource)
| Released (r : resource).

Record sdl_env : Type := mkSdlEnv {
  init_ok : bool;
  ttf_ok : bool;
  window_ok : bool;
  renderer_ok : bool;
  font_ok : bool
}.

(** The setup of [main] with its four early returns: the trace, and
    whether [main] goes on ([false]: it returned 1). *)
Definition sdl_setup (env : sdl_env) : list sdl_event * bool :=
  if negb (init_ok env) then ([], false)
  else if negb (ttf_ok env) then ([Acquired SDL_video; Released SDL_video], false)
  else if negb (window_ok env) then
    ([Acquired SDL_video; Acquired SDL_ttf; Released SDL_ttf; Released SDL_video], false)
  else if negb (renderer_ok env) then
    ([Acquired SDL_video; Acquired SDL_ttf; Acquired SDL_window;
      Released SDL_window; Released SDL_ttf; Released SDL_video], false)
  else if negb (font_ok env) then
    ([Acquired SDL_video; Acquired SDL_ttf; Acquired SDL_window; Acquired SDL_renderer;
      Released SDL_renderer; Released SDL_window; Released SDL_ttf; Released SDL_video], false)
  else
    ([Acquired SDL_video; Acquired SDL_ttf; Acquired SDL_window; Acquired SDL_renderer;
      Acquired TTF_font], true).

(** The cleanup after the loop. *)
Definition sdl_cleanup : list sdl_event :=
  [Released TTF_font; Released SDL_renderer; Released SDL_window; Released SDL_ttf; Released SDL_video].

(** [voting_time.txt] after [fopen(..., "w")] and the [fprintf]: the
    new expiration time, or the old file when it cannot be opened. *)
Definition write_expiration (writable : bool) (old : option Z) (current_time : Z) : option Z :=
  if writable then Some (current_time + 30) else old.

Section Loop.
Context `{Digest} `{HeapView}.

(** [while (!quit)] with what each iteration draws: the voting-ended
    screen at the deadline, otherwise the screen of the state after the
    poll, also in the iteration whose poll set [quit]. *)
Fixpoint main_loop_trace (frames : list (Z * list event)) (timer : option Z)
    (roster : option (list Candidate)) (g : gui) : run_result * list (list draw) :=
  match frames with
  | [] => (Running g, [])
  | (now, events) :: frames' =>
      if hasTimePassed timer now then (Tallied g (final_tally g roster), [renderVotingEndedScreen])
      else match poll_events (2 * length events) events g false with
           | Polled g' true => (Closed g', [render_frame g'])
           | Polled g' false =>
               let (r, d) := main_loop_trace frames' timer roster g' in (r, render_frame g' :: d)
           | _ => (RunUndefined, [])
           end
  end.

Record process : Type := mkProcess {
  sdl_trace : list sdl_event;
  frames_drawn : list (list draw);
  outcome : option run_result
}.

(** [main]: [outcome] is [None] when it returned 1 during the setup.
    The cleanup runs once the loop is left; a run still [Running] at the
    end of the frames has not reached it. *)
Definition program (env : sdl_env) (writable : bool) (old_timer : option Z) (start : Z)
    (garbage : hash) (vfile : option (list snap_record)) (cfile : option (list Byte.byte))
    (candidates_file : option string) (frames : list (Z * list event)) : process :=
  let (setup, ok) := sdl_setup env in
  if ok then
    let (r, d) := main_loop_trace frames (write_expiration writable old_timer start)
                    (loadCandidatesFromFile candidates_file) (main_gui garbage vfile cfile) in
    mkProcess (setup ++ match r with Tallied _ _ | Closed _ => sdl_cleanup | _ => [] end) d (Some r)
  else mkProcess setup [] None.

End Loop.

(** ** What the theorems observe *)

(** The resources held after a trace, most recent first; [None] when a
    release is not of the most recently acquired resource. *)
Fixpoint held (stack : list resource) (tr : list sdl_event) : option (list resource) :=
  match tr with
  | [] => Some stack
  | Acquired r :: tr' => held (r :: stack) tr'
  | Released r :: tr' =>
      match stack with
      | r' :: stack' => if resource_beq r r' then held stack' tr' else None
      | [] => None
      end
  end.

Definition returned (p : process) : Prop :=
  match outcome p with
  | None => True
  | Some (Tallied _ _) | Some (Closed _) => True
  | _ => False
  end.

Module ProcessFacts.

Lemma held_app s t1 t2 :
  held s (t1 ++ t2) = match held s t1 with Some s' => held s' t2 | None => None end.
Proof.
  revert s; induction t1 as [|[r|r] t1 IH]; intros s; simpl; [reflexivity|apply IH|].
  destruct s as [|r' s]; [reflexivity|]. destruct (resource_beq r r'); [apply IH|reflexivity].
Qed.

(** Every setup trace releases what it acquired, in reverse order, and
    leaves the five resources held when it goes on. *)
Lemma sdl_setup_held env :
  held [] (fst (sdl_setup env)) =
    if snd (sdl_setup env) then Some [TTF_font; SDL_renderer; SDL_window; SDL_ttf; SDL_video] else Some [].
Proof. destruct env as [[] [] [] [] []]; reflexivity. Qed.

Lemma last_cons {A} (x : A) l d : last (x :: l) d = last l x.
Proof.
  revert x d; induction l as [|y l IH]; intros x d; [reflexivity|].
  change (last (x :: y :: l) d) with (last (y :: l) d). now rewrite !IH.
Qed.

Lemma render_frame_not_ended g : render_frame g <> renderVotingEndedScreen.
Proof.
  unfold render_frame, renderMainMenu, renderRegisterVoter, renderCastVoteScreen,
    renderCandidateManagement, renderVotingEndedScreen.
  repeat match goal with |- context [if ?c then _ else _] => destruct c end; cbn; discriminate.
Qed.

Section WithDigest.
Context {D : Digest} {HV : HeapView}.

(** [main_loop_trace] computes [main_loop]; when the loop tallies, the
    frames drawn are the screens of the states after each poll, then the
    voting-ended screen, the last screen showing the tallied state. *)
Lemma main_loop_trace_spec frames timer roster g :
  fst (main_loop_trace frames timer roster g) = main_loop frames timer roster g /\
  (forall g' t, main_loop frames timer roster g = Tallied g' t ->
     exists gs, snd (main_loop_trace frames timer roster g) = map render_frame gs ++ [renderVotingEndedScreen] /\
                last gs g = g').
Proof.
  revert g; induction frames as [|[now evs] frames IH]; intros g; cbn [main_loop_trace main_loop].
  - split; [reflexivity|discriminate].
  - destruct (hasTimePassed timer now).
    + split; [reflexivity|]. intros g' t [= <- _]. now exists [].
    + destruct (poll_events (2 * length evs) evs g false) as [g1 [|]| |]; try (split; [reflexivity|discriminate]).
      destruct (IH g1) as [F T]. destruct (main_loop_trace frames timer roster g1) as [r d].
      split; [exact F|]. intros g' t E. destruct (T g' t E) as (gs & Hd & Hl).
      exists (g1 :: gs). split; [cbn in Hd |- *; now rewrite Hd|now rewrite last_cons].
Qed.

Lemma main_loop_no_timer frames roster g g' t : main_loop frames None roster g <> Tallied g' t.
Proof.
  revert g; induction frames as [|[now evs] frames IH]; intros g; cbn [main_loop hasTimePassed]; [discriminate|].
  destruct (poll_events _ _ _ _) as [g1 [|]| |]; try discriminate. apply IH.
Qed.

(** Once the setup succeeds, [program] runs the loop on the state and
    the timer file [main] prepares. *)
Lemma program_loop env writable old start garbage vfile cfile cands frames :
  snd (sdl_setup env) = true ->
  outcome (program env writable old start garbage vfile cfile cands frames) =
    Some (main_loop frames (write_expiration writable old start) (loadCandidatesFromFile cands)
                    (main_gui garbage vfile cfile)) /\
  frames_drawn (program env writable old start garbage vfile cfile cands frames) =
    snd (main_loop_trace frames (write_expiration writable old start) (loadCandidatesFromFile cands)
                         (main_gui garbage vfile cfile)).
Proof.
  intros S. unfold program. destruct (sdl_setup env) as [setup ok]. cbn in S. subst ok.
  pose proof (proj1 (main_loop_trace_spec frames (write_expiration writable old start)
                       (loadCandidatesFromFile cands) (main_gui garbage vfile cfile))) as F.
  destruct (main_loop_trace _ _ _ _) as [r d]. cbn in F |- *. now rewrite F.
Qed.

End WithDigest.

End ProcessFacts.

Module ProcessTheorems.
Import ProcessFacts.

(** (C32) Every way [main] returns releases what it acquired: after a
    failed [SDL_Init], [TTF_Init], [SDL_CreateWindow],
    [SDL_CreateRenderer] or [TTF_OpenFont], at the deadline and after a
    quit, each resource acquired is released exactly once, the most
    recently acquired first, and none is left held. *)
Theorem sdl_resources_released `{Digest} `{HeapView} env writable old start garbage vfile cfile cands frames :
  returned (program env writable old start garbage vfile cfile cands frames) ->
  held [] (sdl_trace (program env writable old start garbage vfile cfile cands frames)) = Some [].
Proof.
  pose proof (sdl_setup_held env) as S. unfold returned, program.
  destruct (sdl_setup env) as [setup []]; cbn [fst snd] in S |- *; [|intros _; exact S].
  destruct (main_loop_trace _ _ _ _) as [[] d]; cbn; try contradiction;
    intros _; rewrite held_app, S; reflexivity.
Qed.

Section WithDigest.
Context {D : Digest} {HV : HeapView}.

(** (C27) The process runs the modelled [main] and draws what it holds:
    once the setup succeeds and [voting_time.txt] is written, the
    outcome is [Gui.main]'s, and when it tallies, the frames drawn are
    the screen of the state after each poll followed by the
    voting-ended screen, drawn once and last, the screen before it
    showing the state that is tallied. *)
Theorem program_draws env old start garbage vfile cfile cands frames :
  snd (sdl_setup env) = true ->
  outcome (program env true old start garbage vfile cfile cands frames) =
    Some (main start garbage vfile cfile cands frames) /\
  (forall g' t, main start garbage vfile cfile cands frames = Tallied g' t ->
     exists gs, frames_drawn (program env true old start garbage vfile cfile cands frames) =
                  map render_frame gs ++ [renderVotingEndedScreen] /\
                ~ In renderVotingEndedScreen (map render_frame gs) /\
                last gs (main_gui garbage vfile cfile) = g').
Proof.
  intros S. destruct (program_loop env true old start garbage vfile cfile cands frames S) as [O F].
  split; [exact O|]. intros g' t T. rewrite F.
  destruct (proj2 (main_loop_trace_spec frames _ _ _) g' t T) as (gs & Hd & Hl).
  exists gs. split; [exact Hd|split; [|exact Hl]].
  rewrite in_map_iff. intros (g & E & _). exact (render_frame_not_ended g E).
Qed.

(** (C28) A failed write of [voting_time.txt] only prints an error:
    [hasTimePassed] then reads the file a previous run left.  With no
    such file the vote never ends with a tally; with one whose time has
    passed, the first frame tallies the state [main] set up, before
    any event is handled. *)
Theorem expiration_write_failure env start garbage vfile cfile cands :
  snd (sdl_setup env) = true ->
  (forall frames g t, outcome (program env false None start garbage vfile cfile cands frames) <>
                      Some (Tallied g t)) /\
  (forall t0 now events frames, t0 <= now ->
     outcome (program env false (Some t0) start garbage vfile cfile cands ((now, events) :: frames)) =
       Some (Tallied (main_gui garbage vfile cfile)
                     (final_tally (main_gui garbage vfile cfile) (loadCandidatesFromFile cands)))).
Proof.
  intros S. split.
  - intros frames g t. rewrite (proj1 (program_loop _ _ _ _ _ _ _ _ _ S)).
    intros [= E]. exact (main_loop_no_timer _ _ _ _ _ E).
  - intros t0 now events frames L. rewrite (proj1 (program_loop _ _ _ _ _ _ _ _ _ S)).
    cbn [write_expiration main_loop hasTimePassed]. now rewrite (proj2 (Z.leb_le _ _) L).
Qed.

End WithDigest.

End ProcessTheorems.

Module ProcessWitnesses.
Import Toy ProcessTheorems.

Definition all_ok : sdl_env := mkSdlEnv true true true true true.
Definition no_font : sdl_env := mkSdlEnv true true true true false.
Definition late_frames : list (Z * list event) := [(100, [])].

Lemma sdl_resources_released_witness :
  returned (program no_font true None 0 GuiWitnesses.garbage None None GuiWitnesses.roster_file late_frames) /\
  held [] (sdl_trace (program no_font true None 0 GuiWitnesses.garbage None None GuiWitnesses.roster_file late_frames)) = Some [].
Proof.
  assert (R : returned (program no_font true None 0 GuiWitnesses.garbage None None GuiWitnesses.roster_file late_frames))
    by exact I.
  split; [exact R|exact (sdl_resources_released _ _ _ _ _ _ _ _ _ R)].
Defined.

Lemma program_draws_witness :
  snd (sdl_setup all_ok) = true /\
  outcome (program all_ok true None 0 GuiWitnesses.garbage None None GuiWitnesses.roster_file late_frames) =
    Some (main 0 GuiWitnesses.garbage None None GuiWitnesses.roster_file late_frames).
Proof.
  assert (S : snd (sdl_setup all_ok) = true) by reflexivity.
  split; [exact S|exact (proj1 (program_draws _ _ _ _ _ _ _ _ S))].
Defined.

Lemma expiration_write_failure_witness :
  snd (sdl_setup all_ok) = true /\ 50 <= 100 /\
  outcome (program all_ok false (Some 50) 0 GuiWitnesses.garbage None None GuiWitnesses.roster_file
             ((100, []) :: late_frames)) =
    Some (Tallied (main_gui GuiWitnesses.garbage None None)
                  (final_tally (main_gui GuiWitnesses.garbage None None)
                               (loadCandidatesFromFile GuiWitnesses.roster_file))).
Proof.
  assert (S : snd (sdl_setup all_ok) = true) by reflexivity.
  assert (L : 50 <= 100) by lia.
  split; [exact S|split; [exact L|]].
  exact (proj2 (expiration_write_failure _ _ _ _ _ _ S) _ _ _ _ L).
Defined.

End ProcessWitnesses.
